(** * AirTracker backend: classifier, feed fusion, ingestion and tracks

  A shallow embedding of [services/tracker.js] (and of the table
  definitions of [db/migrate]) together with the properties stated
  for it.

  Modelling conventions.
  - A JavaScript string is a [string] of ASCII characters: identifiers
    are ICAO24 hex addresses, so only the ASCII letters take part in
    case mapping, and only the ASCII white space in trimming.
  - [null] and [undefined] are both [None]; every test the code makes
    on them ([!x], [x ?? y], [x != null], [x?.f]) treats the two alike.
  - A JavaScript number read from a feed or from the store is a
    rational ([Q]), the one its decimal text denotes; a numeric column
    keeps it rounded to the scale of the column.  The trigonometry of
    [haversineDistance] is carried out over the reals ([R]): the
    rounding of double precision and [NaN] are not modelled.
  - A [Set] is a [gset string], a table keyed by its unique column is
    a [gmap], an append-only table is a [list] of rows.
  - A database call either completes or throws; which one happens is
    read from a list of pending outcomes carried by the store. *)

From Stdlib Require Import ZArith QArith Qreduction Qreals Reals String Ascii List Lia Lra.
From stdpp Require Import base option gmap strings list sorting.
Import ListNotations.

#[local] Set Warnings "-clear-no-such-hyp".

Local Open Scope Z_scope.
Local Open Scope nat_scope.

(** ** Completions

    How a block of JavaScript ends: normally with a value, or by an
    exception. *)

Inductive Completion (A : Type) :=
| Normal (a : A)
| Thrown.
Arguments Normal {A} a.
Arguments Thrown {A}.

(** ** JavaScript string helpers *)

Module JS.

(** One code unit of [String.prototype.toLowerCase], on ASCII. *)
Definition lower_ascii (c : ascii) : ascii :=
  let n := nat_of_ascii c in
  if (65 <=? n) && (n <=? 90) then ascii_of_nat (n + 32) else c.

Definition upper_ascii (c : ascii) : ascii :=
  let n := nat_of_ascii c in
  if (97 <=? n) && (n <=? 122) then ascii_of_nat (n - 32) else c.

Fixpoint toLowerCase (s : string) : string :=
  match s with
  | EmptyString => EmptyString
  | String c s' => String (lower_ascii c) (toLowerCase s')
  end.

Fixpoint toUpperCase (s : string) : string :=
  match s with
  | EmptyString => EmptyString
  | String c s' => String (upper_ascii c) (toUpperCase s')
  end.

(** White space removed by [String.prototype.trim] (ASCII part):
    tab, line feed, vertical tab, form feed, carriage return, space. *)
Definition is_space (c : ascii) : bool :=
  let n := nat_of_ascii c in
  ((9 <=? n) && (n <=? 13)) || (n =? 32).

Fixpoint trimStart (s : string) : string :=
  match s with
  | EmptyString => EmptyString
  | String c s' => if is_space c then trimStart s' else s
  end.

Fixpoint trimEnd (s : string) : string :=
  match s with
  | EmptyString => EmptyString
  | String c s' =>
      match trimEnd s' with
      | EmptyString => if is_space c then EmptyString else String c EmptyString
      | t => String c t
      end
  end.

Definition trim (s : string) : string := trimEnd (trimStart s).

(** Truthiness of an optional string: [undefined], [null] and the
    empty string are falsy. *)
Definition truthy (o : option string) : bool :=
  match o with
  | Some (String _ _) => true
  | _ => false
  end.

(** [a || b] on optional strings. *)
Definition or_else (a b : option string) : option string :=
  if truthy a then a else b.

(** [a ?? b]. *)
Definition nullish {A} (a b : option A) : option A :=
  match a with
  | Some _ => a
  | None => b
  end.

(** [a != null]. *)
Definition not_null {A} (a : option A) : bool :=
  match a with
  | Some _ => true
  | None => false
  end.

(** [Array.prototype.includes] on strings. *)
Fixpoint includes (l : list string) (x : string) : bool :=
  match l with
  | [] => false
  | y :: l' => if String.eqb y x then true else includes l' x
  end.

End JS.

(** ** Classifier *)

Module Classifier.
Import JS.

Definition RUSSIAN_ICAO_PREFIXES : list string :=
  [ "140"; "141"; "142"; "143"; "144"; "145"; "146"; "147";
    "148"; "149"; "14a"; "14b"; "14c"; "14d"; "14e"; "14f";
    "150"; "151"; "152"; "153"; "154"; "155"; "156"; "157" ]%string.

(** [isRussianAircraft(icao24)]. *)
Definition isRussianAircraft (icao24 : option string) : bool :=
  if negb (truthy icao24) then false
  else
    match icao24 with
    | Some s =>
        let prefix := substring 0 3 (toLowerCase s) in
        includes RUSSIAN_ICAO_PREFIXES prefix
    | None => false
    end.

(** An entry of the optional military data set; a [null] entry is
    one on which reading [.hex] throws. *)
Inductive MilitaryItem :=
| ItemObject (hex : option string)
| ItemNull.

(** What [require('.../military_hex.json')] gives: it throws when the
    file is absent or does not parse, and yields the parsed value
    otherwise, which may or may not be an array. *)
Inductive MilitaryFile :=
| RequireThrows
| NotAnArray
| DataArray (items : list MilitaryItem).

(** The [forEach] callback run over the items.  The set is updated in
    place, so what was added before an exception stays in it. *)
Fixpoint addMilitaryItems (items : list MilitaryItem) (codes : gset string)
  : gset string * Completion unit :=
  match items with
  | [] => (codes, Normal tt)
  | ItemNull :: _ => (codes, Thrown)
  | ItemObject hex :: rest =>
      match hex with
      | Some h =>
          if truthy hex
          then addMilitaryItems rest ({[ toLowerCase h ]} ∪ codes)
          else addMilitaryItems rest codes
      | None => addMilitaryItems rest codes
      end
  end.

(** The body of the [try] block. *)
Definition loadMilitaryData (file : MilitaryFile) (codes : gset string)
  : gset string * Completion unit :=
  match file with
  | RequireThrows => (codes, Thrown)
  | NotAnArray => (codes, Normal tt)
  | DataArray items => addMilitaryItems items codes
  end.

(** The module-level [try { ... } catch { console.log(...) }] that fills
    [militaryHexCodes], which starts as [new Set()]. *)
Definition militaryHexCodes (file : MilitaryFile)
  : gset string * Completion unit :=
  match loadMilitaryData file ∅ with
  | (codes, Normal _) => (codes, Normal tt)
  | (codes, Thrown) => (codes, Normal tt)
  end.

(** [isMilitary(icao24)], for a given content of [militaryHexCodes]. *)
Definition isMilitary (codes : gset string) (icao24 : option string) : bool :=
  let key := default ""%string (toLowerCase <$> icao24) in
  bool_decide (key ∈ codes).

End Classifier.

(** ** Feed adapters and fusion *)

Module Feeds.
Import JS.

(** A scalar of a decoded JSON record: a number or a string. *)
Inductive JsScalar :=
| JsNum (n : Q)
| JsStr (s : string).

(** [ADSBoneAircraft], the common in-memory aircraft state: the fields
    the tracker reads or writes.  [alt_baro] is a number or the string
    ['ground']. *)
Record ADSBoneAircraft := mkAircraft {
  hex : option string;
  flight : option string;
  lat : option Q;
  lon : option Q;
  alt_baro : option JsScalar;
  alt_geom : option Q;
  gs : option Q;
  track : option Q;
  baro_rate : option Q;
  geom_rate : option Q;
  squawk : option string;
  category : option JsScalar;
  t : option string;
  desc : option string;
  _source : option string
}.

Record ADSBoneResponse := mkResponse {
  ac : list ADSBoneAircraft;
  total : nat;
  ctime : Z;
  ptime : Z
}.

(** An OpenSky state vector, by the indices the adapter reads.  The
    adapter copies the entries unchecked, so an index has the type of
    the field it is copied to. *)
Record OpenSkyState := mkState {
  state0 : option string;
  state1 : option string;
  state5 : option Q;
  state6 : option Q;
  state7 : option JsScalar;
  state9 : option Q;
  state10 : option Q;
  state11 : option Q;
  state13 : option Q;
  state14 : option string;
  state17 : option JsScalar
}.

(** What one request of an adapter comes to: [fetch] or [json()]
    throws, the status is not ok, or a body arrives whose list field
    ([ac], [states]) may be missing. *)
Inductive Reply (A : Type) :=
| RequestThrows
| NotOk
| Body (items : option (list A)).
Arguments RequestThrows {A}.
Arguments NotOk {A}.
Arguments Body {A} items.

Record CoveragePoint := mkPoint { pt_lat : Q; pt_lon : Q; pt_radius : Q }.

Definition coveragePoints : list CoveragePoint :=
  [ mkPoint (6017 # 100) (2494 # 100) 250;
    mkPoint (5945 # 100) (2475 # 100) 250;
    mkPoint (5750 # 100) (2100 # 100) 250;
    mkPoint (5470 # 100) (2050 # 100) 250;
    mkPoint (5520 # 100) (2350 # 100) 250;
    mkPoint (5435 # 100) (1865 # 100) 250;
    mkPoint (5993 # 100) (3031 # 100) 250;
    mkPoint (5575 # 100) (3762 # 100) 250;
    mkPoint 56 44 250;
    mkPoint 64 40 250;
    mkPoint 68 33 250;
    mkPoint 55 82 250;
    mkPoint 48 135 250 ]%Q.

Record BoundingBox := mkBox { lamin : Q; lomin : Q; lamax : Q; lomax : Q }.

Definition boundingBoxes : list BoundingBox :=
  [ mkBox 53 14 70 32; mkBox 50 30 70 60 ]%Q.

(** The inner loop of [fetchFromADSBone] over one body: an aircraft is
    kept when its [hex] is truthy and was not seen, the comparison
    being on the identifier as received. *)
Fixpoint addADSBone (items : list ADSBoneAircraft)
    (st : list ADSBoneAircraft * gset string)
  : list ADSBoneAircraft * gset string :=
  match items with
  | [] => st
  | a :: rest =>
      let '(allAircraft, seenHex) := st in
      match hex a with
      | Some h =>
          if truthy (hex a) && negb (bool_decide (h ∈ seenHex))
          then addADSBone rest (allAircraft ++ [a], {[ h ]} ∪ seenHex)
          else addADSBone rest st
      | None => addADSBone rest st
      end
  end.

(** [fetchFromADSBone()], against a network that answers each coverage
    point with a [Reply]; a failed point contributes nothing. *)
Definition fetchFromADSBone (net : CoveragePoint → Reply ADSBoneAircraft)
    (now : Z) : ADSBoneResponse :=
  let '(allAircraft, _) :=
    foldl (fun st point =>
             match net point with
             | Body (Some items) => addADSBone items st
             | _ => st
             end) ([], ∅) coveragePoints in
  mkResponse allAircraft (length allAircraft) now 0.

(** [state[1]?.trim() || undefined]. *)
Definition trimmed (o : option string) : option string :=
  or_else (trim <$> o) None.

(** The inner loop of [fetchFromOpenSky] over one body. *)
Fixpoint addOpenSky (states : list OpenSkyState)
    (st : list ADSBoneAircraft * gset string)
  : list ADSBoneAircraft * gset string :=
  match states with
  | [] => st
  | s :: rest =>
      let '(allAircraft, seenHex) := st in
      match state0 s with
      | Some h =>
          if truthy (state0 s) && negb (bool_decide (h ∈ seenHex))
          then
            let a := {| hex := Some h;
                        flight := trimmed (state1 s);
                        lat := state6 s;
                        lon := state5 s;
                        alt_baro := state7 s;
                        alt_geom := state13 s;
                        gs := state9 s;
                        track := state10 s;
                        baro_rate := state11 s;
                        geom_rate := None;
                        squawk := state14 s;
                        category := state17 s;
                        t := None;
                        desc := None;
                        _source := Some "opensky"%string |} in
            addOpenSky rest (allAircraft ++ [a], {[ h ]} ∪ seenHex)
          else addOpenSky rest st
      | None => addOpenSky rest st
      end
  end.

(** [fetchFromOpenSky()]. *)
Definition fetchFromOpenSky (net : BoundingBox → Reply OpenSkyState)
  : list ADSBoneAircraft :=
  fst (foldl (fun st bbox =>
                match net bbox with
                | Body (Some states) => addOpenSky states st
                | _ => st
                end) ([], ∅) boundingBoxes).

(** First merge loop of [fetchAndStoreRussianAircraft]: every ADSB.one
    aircraft with a truthy [hex] is pushed, and its lower-cased
    identifier recorded. *)
Fixpoint mergeADSBone (items : list ADSBoneAircraft)
    (st : list ADSBoneAircraft * gset string)
  : list ADSBoneAircraft * gset string :=
  match items with
  | [] => st
  | a :: rest =>
      let '(mergedAircraft, seenHex) := st in
      match hex a with
      | Some h =>
          if truthy (hex a)
          then mergeADSBone rest
                 (mergedAircraft ++ [a], {[ toLowerCase h ]} ∪ seenHex)
          else mergeADSBone rest st
      | None => mergeADSBone rest st
      end
  end.

(** Second merge loop: an OpenSky aircraft is pushed only when its
    lower-cased identifier was not recorded yet. *)
Fixpoint mergeOpenSky (items : list ADSBoneAircraft)
    (st : list ADSBoneAircraft * gset string)
  : list ADSBoneAircraft * gset string :=
  match items with
  | [] => st
  | a :: rest =>
      let '(mergedAircraft, seenHex) := st in
      match hex a with
      | Some h =>
          if truthy (hex a) && negb (bool_decide (toLowerCase h ∈ seenHex))
          then mergeOpenSky rest
                 (mergedAircraft ++ [a], {[ toLowerCase h ]} ∪ seenHex)
          else mergeOpenSky rest st
      | None => mergeOpenSky rest st
      end
  end.

(** The fused list [mergedAircraft]; [adsbData?.ac] skips the first
    loop when the response is missing. *)
Definition mergedAircraft (adsbData : option ADSBoneResponse)
    (openSkyAircraft : list ADSBoneAircraft) : list ADSBoneAircraft :=
  let st0 : list ADSBoneAircraft * gset string := ([], ∅) in
  let st1 := match adsbData with
             | Some d => mergeADSBone (ac d) st0
             | None => st0
             end in
  fst (mergeOpenSky openSkyAircraft st1).

End Feeds.

(** ** The store

    The three tables of [db/migrate], the clock read by
    [CURRENT_TIMESTAMP] and [NOW()] (milliseconds since the epoch), and
    the outcomes of the database calls still to come. *)

Module Store.

(** A row of [aircraft], keyed by its unique [icao24]. *)
Record AircraftRow := mkAircraftRow {
  callsign : option string;
  origin_country : option string;
  registration : option string;
  aircraft_type : option string;
  first_seen : Z;
  last_seen : Z;
  total_sightings : Z
}.

(** A row of [positions]. *)
Record PositionRow := mkPositionRow {
  icao24 : string;
  p_callsign : option string;
  latitude : option Q;
  longitude : option Q;
  altitude : option Q;
  velocity : option Q;
  heading : option Q;
  vertical_rate : option Q;
  on_ground : bool;
  timestamp : Z
}.

(** A row of [daily_stats], keyed by its unique [date] (a day number). *)
Record DailyStatsRow := mkDailyStatsRow {
  unique_aircraft : Z;
  total_positions : Z;
  military_count : Z;
  civilian_count : Z
}.

Record World := mkWorld {
  aircraft : gmap string AircraftRow;
  positions : list PositionRow;
  daily_stats : gmap Z DailyStatsRow;
  now : Z;
  pending : list bool
}.

Definition set_aircraft (f : gmap string AircraftRow → gmap string AircraftRow)
    (w : World) : World :=
  mkWorld (f (aircraft w)) (positions w) (daily_stats w) (now w) (pending w).

Definition set_positions (f : list PositionRow → list PositionRow)
    (w : World) : World :=
  mkWorld (aircraft w) (f (positions w)) (daily_stats w) (now w) (pending w).

Definition set_daily_stats (f : gmap Z DailyStatsRow → gmap Z DailyStatsRow)
    (w : World) : World :=
  mkWorld (aircraft w) (positions w) (f (daily_stats w)) (now w) (pending w).

Definition set_pending (p : list bool) (w : World) : World :=
  mkWorld (aircraft w) (positions w) (daily_stats w) (now w) p.

(** Time passing between two calls. *)
Definition elapse (dt : Z) (w : World) : World :=
  mkWorld (aircraft w) (positions w) (daily_stats w) (now w + dt)%Z (pending w).

(** Code that runs against the store. *)
Definition M (A : Type) : Type := World → Completion A * World.

#[global] Instance M_ret : MRet M := fun A a w => (Normal a, w).

#[global] Instance M_bind : MBind M := fun A B f m w =>
  match m w with
  | (Normal a, w') => f a w'
  | (Thrown, w') => (Thrown, w')
  end.

(** [try { body } catch { handler }]. *)
Definition tryCatch {A} (body handler : M A) : M A := fun w =>
  match body w with
  | (Normal a, w') => (Normal a, w')
  | (Thrown, w') => handler w'
  end.

(** [await query(...)]: the next pending outcome says whether the call
    throws ([true]) and leaves the tables as they are, or runs the
    statement; with no outcome pending the statement runs. *)
Definition query {A} (stmt : World → A * World) : M A := fun w =>
  match pending w with
  | true :: rest => (Thrown, set_pending rest w)
  | false :: rest =>
      let '(a, w') := stmt (set_pending rest w) in (Normal a, w')
  | [] => let '(a, w') := stmt w in (Normal a, w')
  end.

(** Reading the clock ([new Date()], [Date.now()]). *)
Definition clock : M Z := fun w => (Normal (now w), w).

Definition DAY_MS : Z := 86400000.

(** [INSERT INTO aircraft ... ON CONFLICT (icao24) DO UPDATE SET ...],
    with parameters [$1], [$2], [$3]. *)
Definition upsertAircraft (id : string) (cs ty : option string)
    (w : World) : unit * World :=
  let row :=
    match aircraft w !! id with
    | None =>
        mkAircraftRow cs (Some "Russia"%string) None ty (now w) (now w) 1
    | Some old =>
        mkAircraftRow (JS.nullish cs (callsign old))
                      (origin_country old)
                      (registration old)
                      (JS.nullish ty (aircraft_type old))
                      (first_seen old)
                      (now w)
                      (total_sightings old + 1)
    end in
  (tt, set_aircraft (insert id row) w).

(** What a [DECIMAL(10, scale)] column keeps of a number: the nearest
    multiple of [10 ^ -scale], a tie going away from zero.  A number
    that needs more than [10 - scale] digits before the point does not
    fit the column: the server rejects the statement, which is a call
    that throws. *)
Definition toDecimal (scale : positive) (q : Q) : Q :=
  let unit := (10 ^ scale)%positive in
  let n := Qnum q in
  let d := Z.pos (Qden q) in
  (Z.sgn n * ((2 * Z.abs n * Z.pos unit + d) / (2 * d)))%Z # unit.

(** [INSERT INTO positions (...) VALUES ($1, ..., $9)]; the time stamp
    is the column default, [latitude] and [longitude] are
    [DECIMAL(10, 6)] and the four other numbers [DECIMAL(10, 2)]. *)
Definition insertPosition (id : string) (cs : option string)
    (la lo al ve he vr : option Q) (og : bool) (w : World) : unit * World :=
  (tt, set_positions
         (fun ps => ps ++ [mkPositionRow id cs
                             (toDecimal 6 <$> la) (toDecimal 6 <$> lo)
                             (toDecimal 2 <$> al) (toDecimal 2 <$> ve)
                             (toDecimal 2 <$> he) (toDecimal 2 <$> vr)
                             og (now w)]) w).

(** [DELETE FROM positions WHERE timestamp < NOW() - INTERVAL '24 hours'
    RETURNING id]; the value is [rowCount]. *)
Definition deleteOldPositions (w : World) : nat * World :=
  let old := List.filter (fun p => (timestamp p <? now w - DAY_MS)%Z)
                         (positions w) in
  (length old,
   set_positions
     (List.filter (fun p => negb (timestamp p <? now w - DAY_MS)%Z)) w).

(** The calendar day a time stamp falls on. *)
Definition day_of (ts : Z) : Z := (ts / DAY_MS)%Z.

(** [SELECT COUNT(DISTINCT icao24), COUNT( * ) FROM positions WHERE
    DATE(timestamp) = $1]. *)
Definition selectDailyCounts (today : Z) (w : World) : (Z * Z) * World :=
  let rows := List.filter (fun p => (day_of (timestamp p) =? today)%Z)
                          (positions w) in
  let ids : gset string := list_to_set (icao24 <$> rows) in
  ((Z.of_nat (size ids), Z.of_nat (length rows)), w).

(** [INSERT INTO daily_stats ... ON CONFLICT (date) DO UPDATE SET ...]. *)
Definition upsertDailyStats (today ua tp : Z) (w : World) : unit * World :=
  let row :=
    match daily_stats w !! today with
    | None => mkDailyStatsRow ua tp 0 0
    | Some old => mkDailyStatsRow ua tp (military_count old) (civilian_count old)
    end in
  (tt, set_daily_stats (insert today row) w).

End Store.

(** ** The ingestion cycle *)

Module Ingest.
Import JS Feeds Store.

Record TrackerResult := mkResult { tracked : nat; stored : nat }.

(** [cleanupOldData()]. *)
Definition cleanupOldData : M nat :=
  tryCatch (deletedCount ← query deleteOldPositions; mret deletedCount)
           (mret 0).

(** [updateDailyStats()]. *)
Definition updateDailyStats : M unit :=
  tryCatch (time ← clock;
            let today := day_of time in
            statsResult ← query (selectDailyCounts today);
            query (upsertDailyStats today (fst statsResult) (snd statsResult)))
           (mret tt).

(** The values computed for one aircraft before the store is touched. *)
Definition altitudeOf (a : ADSBoneAircraft) : option JsScalar :=
  nullish (alt_baro a) (nullish (JsNum <$> alt_geom a) None).

(** [typeof altitude === 'number' ? altitude : null]. *)
Definition storedAltitude (altitude : option JsScalar) : option Q :=
  match altitude with
  | Some (JsNum n) => Some n
  | _ => None
  end.

Definition velocityOf (a : ADSBoneAircraft) : option Q := nullish (gs a) None.

Definition headingOf (a : ADSBoneAircraft) : option Q := nullish (track a) None.

Definition verticalRateOf (a : ADSBoneAircraft) : option Q :=
  nullish (baro_rate a) (nullish (geom_rate a) None).

(** [ac.alt_baro === 'ground' || altitude === 0]. *)
Definition onGroundOf (a : ADSBoneAircraft) : bool :=
  match alt_baro a with
  | Some (JsStr s) => String.eqb s "ground"
  | _ => false
  end
  ||
  match altitudeOf a with
  | Some (JsNum n) => Qeq_bool n 0
  | _ => false
  end.

(** [ac.flight?.trim() || null]. *)
Definition callsignOf (a : ADSBoneAircraft) : option string :=
  or_else (trim <$> flight a) None.

(** [ac.t || ac.desc || null]. *)
Definition typeOf (a : ADSBoneAircraft) : option string :=
  or_else (or_else (t a) (desc a)) None.

(** The body of the loop over [russianAircraft], with its own
    [try]/[catch]; the value is [storedCount] after the iteration. *)
Definition storeAircraft (a : ADSBoneAircraft) (storedCount : nat) : M nat :=
  tryCatch
    (let icao24 : option string := toLowerCase <$> hex a in
     match icao24 with
     | Some id =>
         if negb (truthy icao24) then mret storedCount
         else
           let callsign := callsignOf a in
           let latitude := lat a in
           let longitude := lon a in
           let altitude := altitudeOf a in
           let velocity := velocityOf a in
           let heading := headingOf a in
           let verticalRate := verticalRateOf a in
           let onGround := onGroundOf a in
           _ ← query (upsertAircraft id callsign (typeOf a));
           if not_null latitude && not_null longitude
           then
             _ ← query (insertPosition id callsign latitude longitude
                          (storedAltitude altitude) velocity heading
                          verticalRate onGround);
             mret (S storedCount)
           else mret storedCount
     | None => mret storedCount
     end)
    (mret storedCount).

Fixpoint storeAll (russianAircraft : list ADSBoneAircraft) (storedCount : nat)
  : M nat :=
  match russianAircraft with
  | [] => mret storedCount
  | a :: rest =>
      storedCount' ← storeAircraft a storedCount;
      storeAll rest storedCount'
  end.

(** [fetchAndStoreRussianAircraft()], against the two networks. *)
Definition fetchAndStoreRussianAircraft
    (adsbNet : CoveragePoint → Reply ADSBoneAircraft)
    (openSkyNet : BoundingBox → Reply OpenSkyState) : M TrackerResult :=
  _ ← cleanupOldData;
  time ← clock;
  let adsbData := fetchFromADSBone adsbNet time in
  let openSkyAircraft := fetchFromOpenSky openSkyNet in
  let merged := mergedAircraft (Some adsbData) openSkyAircraft in
  if length merged =? 0 then mret (mkResult 0 0)
  else
    let russianAircraft :=
      List.filter (fun a => Classifier.isRussianAircraft (hex a)) merged in
    storedCount ← storeAll russianAircraft 0;
    _ ← updateDailyStats;
    mret (mkResult (length russianAircraft) storedCount).

End Ingest.

(** ** Track reconstruction *)

Module Track.

(** A row of the per-aircraft position query of [getAllTracksLast24h]
    (six columns). *)
Record Position := mkPosition {
  latitude : option Q;
  longitude : option Q;
  altitude : option Q;
  velocity : option Q;
  heading : option Q;
  timestamp : Z
}.

Record TrackSegment := mkSegment {
  positions : list Position;
  hasGapBefore : bool;
  gapDurationSeconds : option Q
}.

Definition MAX_POSITION_GAP_SECONDS : Q := 300.

(** [Math.atan2(y, x)] on the reals. *)
Definition atan2 (y x : R) : R :=
  if Rlt_dec 0 x then atan (y / x)
  else if Rlt_dec x 0 then
    (if Rle_dec 0 y then atan (y / x) + PI else atan (y / x) - PI)
  else if Rlt_dec 0 y then PI / 2
  else if Rlt_dec y 0 then - (PI / 2)
  else 0.

(** [haversineDistance(lat1, lon1, lat2, lon2)], in kilometres; the
    constant [R] of the code is [radius] here.  The formula is read
    over the reals.  The code evaluates it in double precision with
    the engine's [Math.sin], [Math.cos] and [Math.atan2]: there the
    rounded [a] can exceed 1 for nearly antipodal points, which makes
    [Math.sqrt(1 - a)] and the distance [NaN]; whether it does depends
    on the engine.  Rounding and [NaN] are not modelled. *)
Definition haversineDistance (lat1 lon1 lat2 lon2 : R) : R :=
  (let radius := 6371 in
   let dLat := (lat2 - lat1) * PI / 180 in
   let dLon := (lon2 - lon1) * PI / 180 in
   let a := sin (dLat / 2) * sin (dLat / 2) +
            cos (lat1 * PI / 180) * cos (lat2 * PI / 180) *
            sin (dLon / 2) * sin (dLon / 2) in
   let c := 2 * atan2 (sqrt a) (sqrt (1 - a)) in
   radius * c)%R.

(** The callback of [positions.filter] in [getAllTracksLast24h], with
    the distance read over the reals (in the code a [NaN] distance
    fails the comparison and the sample is dropped). *)
Definition withinRadius (centerLat centerLon radiusKm : Q) (pos : Position)
  : bool :=
  match latitude pos, longitude pos with
  | Some la, Some lo =>
      let distance :=
        haversineDistance (Q2R centerLat) (Q2R centerLon) (Q2R la) (Q2R lo) in
      if Rle_dec distance (Q2R radiusKm) then true else false
  | _, _ => false
  end.

(** [(currTime - prevTime) / 1000], both times in milliseconds. *)
Definition gapSecondsBetween (prev curr : Position) : Q :=
  let prevTime := timestamp prev in
  let currTime := timestamp curr in
  Qred ((currTime - prevTime)%Z # 1000).

(** One iteration of the loop of [splitIntoSegments], on the state
    [(segments, currentSegment)]. *)
Definition segmentStep (prev curr : Position)
    (st : list TrackSegment * list Position)
  : list TrackSegment * list Position :=
  let '(segments, currentSegment) := st in
  let gapSeconds := gapSecondsBetween prev curr in
  if negb (Qle_bool gapSeconds MAX_POSITION_GAP_SECONDS) then
    let segments1 :=
      if 1 <=? length currentSegment
      then segments ++
           [ {| positions := currentSegment;
                hasGapBefore := if 0 <? length segments then false else false;
                gapDurationSeconds := None |} ]
      else segments in
    (segments1 ++
       [ {| positions := [];
            hasGapBefore := true;
            gapDurationSeconds := Some gapSeconds |} ],
     [curr])
  else (segments, currentSegment ++ [curr]).

(** The loop [for (i = 1; i < positions.length; i++)]: [prev] is
    [positions[i - 1]] and the head of [rest] is [positions[i]]. *)
Fixpoint segmentLoop (prev : Position) (rest : list Position)
    (st : list TrackSegment * list Position)
  : list TrackSegment * list Position :=
  match rest with
  | [] => st
  | curr :: rest' => segmentLoop curr rest' (segmentStep prev curr st)
  end.

(** The block after the loop that adds the final segment. *)
Definition addFinalSegment (st : list TrackSegment * list Position)
  : list TrackSegment :=
  let '(segments, currentSegment) := st in
  if 1 <=? length currentSegment then
    match last segments with
    | Some gapMarker =>
        if (0 <? length segments) && (length (positions gapMarker) =? 0)
        then removelast segments ++
             [ {| positions := currentSegment;
                  hasGapBefore := true;
                  gapDurationSeconds := gapDurationSeconds gapMarker |} ]
        else segments ++
             [ {| positions := currentSegment;
                  hasGapBefore := false;
                  gapDurationSeconds := None |} ]
    | None =>
        segments ++
        [ {| positions := currentSegment;
             hasGapBefore := false;
             gapDurationSeconds := None |} ]
    end
  else segments.

(** [splitIntoSegments(positions)]. *)
Definition splitIntoSegments (positions0 : list Position) : list TrackSegment :=
  match positions0 with
  | [] => []
  | first :: rest =>
      let segments := addFinalSegment (segmentLoop first rest ([], [first])) in
      List.filter (fun s => 1 <=? length (positions s)) segments
  end.

End Track.

(** ** The track query *)

Module Tracks.
Import Store.

Record AircraftRef := mkRef {
  ref_icao24 : string;
  ref_callsign : option string;
  ref_aircraft_type : option string
}.

Record AircraftTrack := mkTrack {
  icao24 : string;
  callsign : option string;
  aircraft_type : option string;
  positions : list Track.Position;
  segments : list Track.TrackSegment;
  is_military : bool
}.

(** Rows of [positions] newer than 24 hours. *)
Definition recentPositions (w : World) : list PositionRow :=
  List.filter (fun p => (now w - DAY_MS <? Store.timestamp p)%Z)
              (Store.positions w).

Definition rowsOf (id : string) (rows : list PositionRow) : list PositionRow :=
  List.filter (fun p => String.eqb (Store.icao24 p) id) rows.

(** The orders of the [ORDER BY] clauses. *)
Definition icao24_asc (a b : string) : Prop := String.leb a b = true.

Definition timestamp_desc (a b : PositionRow) : Prop :=
  (Store.timestamp b ≤ Store.timestamp a)%Z.

Definition timestamp_asc (a b : PositionRow) : Prop :=
  (Store.timestamp a ≤ Store.timestamp b)%Z.

#[global] Instance icao24_asc_dec : RelDecision icao24_asc :=
  fun a b => decide (String.leb a b = true).

#[global] Instance timestamp_desc_dec : RelDecision timestamp_desc :=
  fun a b => decide (Store.timestamp b ≤ Store.timestamp a)%Z.

#[global] Instance timestamp_asc_dec : RelDecision timestamp_asc :=
  fun a b => decide (Store.timestamp a ≤ Store.timestamp b)%Z.

(** [SELECT DISTINCT ON (p.icao24) p.icao24, p.callsign, a.aircraft_type
    FROM positions p LEFT JOIN aircraft a ... ORDER BY p.icao24,
    p.timestamp DESC]: one row per identifier, from its newest row. *)
Definition selectRecentAircraft (w : World) : list AircraftRef * World :=
  let recent := recentPositions w in
  let ids := merge_sort icao24_asc (remove_dups (Store.icao24 <$> recent)) in
  ((fun id =>
      let newest :=
        head (merge_sort timestamp_desc (rowsOf id recent)) in
      mkRef id
            (newest ≫= p_callsign)
            ((Store.aircraft w !! id) ≫= Store.aircraft_type)) <$> ids,
   w).

(** [SELECT latitude, longitude, altitude, velocity, heading, timestamp
    FROM positions WHERE icao24 = $1 AND timestamp > NOW() - INTERVAL
    '24 hours' ORDER BY timestamp ASC]. *)
Definition selectPositions (id : string) (w : World)
  : list Track.Position * World :=
  ((fun p => Track.mkPosition (Store.latitude p) (Store.longitude p)
               (Store.altitude p) (Store.velocity p) (Store.heading p)
               (Store.timestamp p))
     <$> merge_sort timestamp_asc (rowsOf id (recentPositions w)),
   w).

(** The radius filter, applied when all three arguments are defined. *)
Definition filterPositions (centerLat centerLon radiusKm : option Q)
    (rows : list Track.Position) : list Track.Position :=
  match centerLat, centerLon, radiusKm with
  | Some cla, Some clo, Some r => List.filter (Track.withinRadius cla clo r) rows
  | _, _, _ => rows
  end.

(** The body of the loop over [aircraftResult.rows]; the value is
    [tracks] after the iteration. *)
Definition trackAircraft (codes : gset string)
    (centerLat centerLon radiusKm : option Q)
    (a : AircraftRef) (tracks : list AircraftTrack) : M (list AircraftTrack) :=
  positionsResult ← query (selectPositions (ref_icao24 a));
  let positions := filterPositions centerLat centerLon radiusKm positionsResult in
  let segments := Track.splitIntoSegments positions in
  if 2 <=? length positions
  then mret (tracks ++
               [ mkTrack (ref_icao24 a) (ref_callsign a) (ref_aircraft_type a)
                         positions segments
                         (Classifier.isMilitary codes (Some (ref_icao24 a))) ])
  else mret tracks.

Fixpoint trackAll (codes : gset string)
    (centerLat centerLon radiusKm : option Q)
    (rows : list AircraftRef) (tracks : list AircraftTrack)
  : M (list AircraftTrack) :=
  match rows with
  | [] => mret tracks
  | a :: rest =>
      tracks' ← trackAircraft codes centerLat centerLon radiusKm a tracks;
      trackAll codes centerLat centerLon radiusKm rest tracks'
  end.

(** [getAllTracksLast24h(centerLat, centerLon, radiusKm)], for a given
    content of [militaryHexCodes]. *)
Definition getAllTracksLast24h (codes : gset string)
    (centerLat centerLon radiusKm : option Q) : M (list AircraftTrack) :=
  aircraftResult ← query selectRecentAircraft;
  trackAll codes centerLat centerLon radiusKm aircraftResult [].

End Tracks.

(** ** Live aircraft and position history *)

Module History.
Import Store.

(** The value of [parseInt]: an integer or [NaN]. *)
Inductive JsInt :=
| NaN
| Int (z : Z).

Definition HOUR_MS : Z := 3600000.

Definition FIVE_MINUTES_MS : Z := 300000.

(** A database call whose statement the server rejects (here an
    interval that does not parse): it throws, whatever was pending. *)
Definition queryRejected {A} : M A := fun w =>
  (Thrown, set_pending (tail (pending w)) w).

(** [SELECT ... FROM positions WHERE icao24 = $1 AND timestamp > NOW() -
    INTERVAL '<hours> hours' ORDER BY timestamp ASC].  The interval is
    computed on [Z]: the range limits of the server's interval and
    time stamp types are not modelled. *)
Definition selectHistory (id : string) (hours : Z) (w : World)
  : list PositionRow * World :=
  (merge_sort Tracks.timestamp_asc
     (List.filter
        (fun p => String.eqb (icao24 p) id
                  && (now w - hours * HOUR_MS <? timestamp p)%Z)
        (positions w)),
   w).

(** [getAircraftHistory(icao24, hours = 24)]; the default applies when
    the argument is [undefined]. *)
Definition getAircraftHistory (icao24 : string) (hours : option JsInt)
  : M (list PositionRow) :=
  match default (Int 24) hours with
  | Int h => query (selectHistory (JS.toLowerCase icao24) h)
  | NaN => queryRejected
  end.

(** A row of [getLiveAircraft]: the selected columns of the position
    and of the aircraft, and the military flag added by the code. *)
Record LiveAircraft := mkLive {
  live_icao24 : string;
  live_callsign : option string;
  live_origin_country : option string;
  live_latitude : option Q;
  live_longitude : option Q;
  live_altitude : option Q;
  live_velocity : option Q;
  live_heading : option Q;
  live_vertical_rate : option Q;
  live_on_ground : bool;
  live_timestamp : Z;
  live_total_sightings : Z;
  live_first_seen : Z;
  live_last_seen : Z;
  is_military : bool
}.

(** Positions of the last five minutes. *)
Definition livePositions (w : World) : list PositionRow :=
  List.filter (fun p => (now w - FIVE_MINUTES_MS <? timestamp p)%Z)
              (positions w).

(** [SELECT DISTINCT ON (p.icao24) ... FROM positions p JOIN aircraft a
    ON p.icao24 = a.icao24 WHERE p.timestamp > NOW() - INTERVAL
    '5 minutes' ORDER BY p.icao24, p.timestamp DESC]: for every
    identifier that has both a recent position and a record, its
    newest recent position joined with the record. *)
Definition selectLive (w : World) : list (PositionRow * AircraftRow) * World :=
  let recent := livePositions w in
  let ids := merge_sort Tracks.icao24_asc (remove_dups (icao24 <$> recent)) in
  (omap (fun id =>
           match head (merge_sort Tracks.timestamp_desc (Tracks.rowsOf id recent)),
                 aircraft w !! id with
           | Some p, Some a => Some (p, a)
           | _, _ => None
           end) ids,
   w).

(** [getLiveAircraft()], for a given content of [militaryHexCodes]. *)
Definition getLiveAircraft (codes : gset string) : M (list LiveAircraft) :=
  result ← query selectLive;
  mret ((fun row : PositionRow * AircraftRow =>
           let (p, a) := row in
           mkLive (icao24 p) (p_callsign p) (origin_country a)
                  (latitude p) (longitude p) (altitude p) (velocity p)
                  (heading p) (vertical_rate p) (on_ground p) (timestamp p)
                  (total_sightings a) (first_seen a) (last_seen a)
                  (Classifier.isMilitary codes (Some (icao24 p))))
          <$> result).

End History.

(** ** Routes of [/api/aircraft] *)

Module Routes.
Import Store.

(** What a handler answers: a JSON body with status 200, or one of the
    two error statuses it sets. *)
Inductive Response (A : Type) :=
| Ok (body : A)
| NotFound
| ServerError.
Arguments Ok {A} body.
Arguments NotFound {A}.
Arguments ServerError {A}.

(** The body of [GET /:icao24]: the selected columns and the flag. *)
Record AircraftJson := mkAircraftJson {
  json_icao24 : string;
  json_callsign : option string;
  json_origin_country : option string;
  json_registration : option string;
  json_aircraft_type : option string;
  json_first_seen : Z;
  json_last_seen : Z;
  json_total_sightings : Z;
  json_is_military : bool
}.

(** [SELECT ... FROM aircraft WHERE icao24 = $1]: no row or one. *)
Definition selectAircraft (id : string) (w : World)
  : list (string * AircraftRow) * World :=
  (option_list ((fun a => (id, a)) <$> aircraft w !! id), w).

(** The handler of [GET /:icao24]. *)
Definition getAircraft (codes : gset string) (icao24 : string)
  : World → Response AircraftJson * World := fun w =>
  match query (selectAircraft (JS.toLowerCase icao24)) w with
  | (Normal rows, w') =>
      match rows with
      | [] => (NotFound, w')
      | (id, a) :: _ =>
          (Ok (mkAircraftJson id (callsign a) (origin_country a)
                 (registration a) (aircraft_type a) (first_seen a)
                 (last_seen a) (total_sightings a)
                 (Classifier.isMilitary codes (Some id))), w')
      end
  | (Thrown, w') => (ServerError, w')
  end.

(** [DELETE FROM positions RETURNING id]; the value is [rowCount]. *)
Definition deleteAllPositions (w : World) : nat * World :=
  (length (positions w), set_positions (fun _ => []) w).

(** [DELETE FROM aircraft RETURNING icao24]; the positions that
    reference a deleted aircraft go with it ([ON DELETE CASCADE]). *)
Definition deleteAllAircraft (w : World) : nat * World :=
  (size (aircraft w),
   set_aircraft (fun _ => ∅)
     (set_positions
        (List.filter (fun p => negb (bool_decide (icao24 p ∈ dom (aircraft w)))))
        w)).

Record Deleted := mkDeleted { deleted_positions : nat; deleted_aircraft : nat }.

(** The handler of [DELETE /tracks]. *)
Definition deleteTracks : World → Response Deleted * World := fun w =>
  match (positionsDeleted ← query deleteAllPositions;
         aircraftDeleted ← query deleteAllAircraft;
         mret (mkDeleted positionsDeleted aircraftDeleted)) w with
  | (Normal deleted, w') => (Ok deleted, w')
  | (Thrown, w') => (ServerError, w')
  end.

(** The body of [GET /:icao24/history]. *)
Record HistoryJson := mkHistoryJson {
  hist_icao24 : string;
  hist_hours : History.JsInt;
  hist_positions : nat;
  hist_history : list PositionRow
}.

(** The handler of [GET /:icao24/history]; [hours] is the value of
    [parseInt] on the query parameter, 24 when it is not given. *)
Definition getHistory (icao24 : string) (hours : History.JsInt)
  : World → Response HistoryJson * World := fun w =>
  match History.getAircraftHistory icao24 (Some hours) w with
  | (Normal history, w') =>
      (Ok (mkHistoryJson icao24 hours (length history) history), w')
  | (Thrown, w') => (ServerError, w')
  end.

(** The handler of [GET /live]; the clock stamps the answer. *)
Record LiveJson := mkLiveJson {
  live_stamp : Z;
  live_count : nat;
  live_aircraft : list History.LiveAircraft
}.

Definition getLive (codes : gset string)
  : World → Response LiveJson * World := fun w =>
  match History.getLiveAircraft codes w with
  | (Normal aircraft, w') =>
      (Ok (mkLiveJson (now w') (length aircraft) aircraft), w')
  | (Thrown, w') => (ServerError, w')
  end.

End Routes.

(** ** Vocabulary of the statements *)

Module Words.

(** The lower-case hexadecimal digit of [n < 16]. *)
Definition hexDigit (n : nat) : ascii :=
  nth n (list_ascii_of_string "0123456789abcdef") "0"%char.

(** The three hex digits of an address prefix [n < 4096]. *)
Definition hex3 (n : nat) : string :=
  String (hexDigit (n / 256))
    (String (hexDigit ((n / 16) mod 16))
       (String (hexDigit (n mod 16)) EmptyString)).

(** The truthy [hex] fields of the objects of a data set that come
    before its first [null] entry, lower-cased. *)
Fixpoint usableHexes (items : list Classifier.MilitaryItem) : list string :=
  match items with
  | [] => []
  | Classifier.ItemNull :: _ => []
  | Classifier.ItemObject (Some (String c h)) :: rest =>
      JS.toLowerCase (String c h) :: usableHexes rest
  | Classifier.ItemObject _ :: rest => usableHexes rest
  end.

(** The identifier an aircraft state is keyed by: its truthy [hex],
    lower-cased. *)
Definition identifierOf (a : Feeds.ADSBoneAircraft) : option string :=
  match Feeds.hex a with
  | Some (String c h) => Some (JS.toLowerCase (String c h))
  | _ => None
  end.

Definition identifiers (l : list Feeds.ADSBoneAircraft) : list string :=
  omap identifierOf l.

(** The positions of a list of segments, in order. *)
Definition positionsOf (segments : list Track.TrackSegment)
  : list Track.Position :=
  concat (Track.positions <$> segments).

(** Whether the tracking gap between two consecutive samples exceeds
    the threshold. *)
Definition gapExceeds (prev curr : Track.Position) : bool :=
  negb (Qle_bool (Track.gapSecondsBetween prev curr)
                 Track.MAX_POSITION_GAP_SECONDS).

(** The maximal runs of a sequence: a run is closed and a new one
    opened exactly at a gap that exceeds the threshold.  [run] is the
    run being built, [prev] its last sample. *)
Fixpoint runsFrom (prev : Track.Position) (rest run : list Track.Position)
  : list (list Track.Position) :=
  match rest with
  | [] => [run]
  | curr :: rest' =>
      if gapExceeds prev curr
      then run :: runsFrom curr rest' [curr]
      else runsFrom curr rest' (run ++ [curr])
  end.

Definition runs (positions : list Track.Position) : list (list Track.Position) :=
  match positions with
  | [] => []
  | first :: rest => runsFrom first rest [first]
  end.

(** A segment that carries no gap mark. *)
Definition unmarked (s : Track.TrackSegment) : Prop :=
  Track.hasGapBefore s = false ∧ Track.gapDurationSeconds s = None.

(** The shape of [segments] during the loop of [splitIntoSegments]:
    every entry is an empty marker or an unmarked segment, and after
    the first gap the list ends with a real segment followed by a
    marker. *)
Definition loopShape (segments : list Track.TrackSegment) : Prop :=
  Forall (fun s => Track.positions s = [] ∨ unmarked s) segments
  ∧ (segments = []
     ∨ ∃ front r m, segments = front ++ [r; m]
                    ∧ Track.positions r ≠ []
                    ∧ Track.positions m = []
                    ∧ Track.hasGapBefore m = true).

(** Two states of the store that differ at most in the outcomes still
    pending. *)
Definition sameTables (w w' : Store.World) : Prop :=
  Store.aircraft w' = Store.aircraft w
  ∧ Store.positions w' = Store.positions w
  ∧ Store.daily_stats w' = Store.daily_stats w
  ∧ Store.now w' = Store.now w.

(** The altitude an aircraft state resolves to: the barometric one,
    else the geometric one, else none. *)
Definition resolvedAltitude (a : Feeds.ADSBoneAircraft) : option Feeds.JsScalar :=
  match Feeds.alt_baro a with
  | Some v => Some v
  | None => Feeds.JsNum <$> Feeds.alt_geom a
  end.

(** The feed's sentinel for an aircraft on the ground. *)
Definition groundSentinel (a : Feeds.ADSBoneAircraft) : Prop :=
  Feeds.alt_baro a = Some (Feeds.JsStr "ground").

(** Half a unit of the last of [scale] decimals. *)
Definition halfUnit (scale : positive) : Q := 1 # (2 * 10 ^ scale).

(** [stored] is [fed] rounded to [scale] decimals: a multiple of
    [10 ^ -scale] at most half a unit away from [fed], and away from
    zero when [fed] lies half-way between two multiples. *)
Definition roundsTo (scale : positive) (fed stored : Q) : Prop :=
  (∃ k : Z, stored = k # (10 ^ scale))
  ∧ (fed - halfUnit scale <= stored)%Q
  ∧ (stored <= fed + halfUnit scale)%Q
  ∧ ((stored == fed - halfUnit scale)%Q → (fed <= 0)%Q)
  ∧ ((stored == fed + halfUnit scale)%Q → (0 <= fed)%Q).

(** A numeric column of [scale] decimals holding a value of the feed:
    null for null, else the value rounded. *)
Definition columnOf (scale : positive) (fed stored : option Q) : Prop :=
  match fed, stored with
  | Some v, Some q => roundsTo scale v q
  | None, None => True
  | _, _ => False
  end.

(** The number a scalar is, if it is one. *)
Definition numberOf (v : option Feeds.JsScalar) : option Q :=
  match v with
  | Some (Feeds.JsNum n) => Some n
  | _ => None
  end.

(** What a stored position sample owes to the aircraft state it was
    taken from. *)
Definition sampleOf (a : Feeds.ADSBoneAircraft) (row : Store.PositionRow) : Prop :=
  Some (Store.icao24 row) = JS.toLowerCase <$> Feeds.hex a
  ∧ is_Some (Feeds.lat a) ∧ is_Some (Feeds.lon a)
  ∧ columnOf 6 (Feeds.lat a) (Store.latitude row)
  ∧ columnOf 6 (Feeds.lon a) (Store.longitude row)
  ∧ columnOf 2 (numberOf (resolvedAltitude a)) (Store.altitude row)
  ∧ (groundSentinel a → Store.altitude row = None)
  ∧ columnOf 2 (Feeds.gs a) (Store.velocity row)
  ∧ columnOf 2 (Feeds.track a) (Store.heading row)
  ∧ columnOf 2 (match Feeds.baro_rate a with
                | Some v => Some v
                | None => Feeds.geom_rate a
                end) (Store.vertical_rate row)
  ∧ (Store.on_ground row = true ↔
       groundSentinel a
       ∨ ∃ q, resolvedAltitude a = Some (Feeds.JsNum q) ∧ (q == 0)%Q).

(** The qualifying samples of an identifier: its samples of the last
    24 hours, in time order, that pass the optional radius filter. *)
Definition qualifyingSamples (centerLat centerLon radiusKm : option Q)
    (id : string) (w : Store.World) : list Track.Position :=
  Tracks.filterPositions centerLat centerLon radiusKm
    (fst (Tracks.selectPositions id w)).

(** The track an aircraft of the identifier query gives rise to, if
    any. *)
Definition trackOf (codes : gset string)
    (centerLat centerLon radiusKm : option Q) (w : Store.World)
    (a : Tracks.AircraftRef) : option Tracks.AircraftTrack :=
  let samples :=
    qualifyingSamples centerLat centerLon radiusKm (Tracks.ref_icao24 a) w in
  if 2 <=? length samples
  then Some (Tracks.mkTrack (Tracks.ref_icao24 a) (Tracks.ref_callsign a)
               (Tracks.ref_aircraft_type a) samples
               (Track.splitIntoSegments samples)
               (Classifier.isMilitary codes (Some (Tracks.ref_icao24 a))))
  else None.

(** The items of a reply: those of its body, none for a failed
    request, a bad status or a body without the list. *)
Definition bodyOf {A} (r : Feeds.Reply A) : list A :=
  match r with
  | Feeds.Body (Some items) => items
  | _ => []
  end.

(** What an adapter received over its requests, in request order. *)
Definition received {P A} (net : P → Feeds.Reply A) (requests : list P)
  : list A :=
  flat_map (fun p => bodyOf (net p)) requests.

(** The identifier of a feed record as received: its truthy [hex]. *)
Definition rawIdentifier (hex : option string) : option string :=
  match hex with
  | Some (String c h) => Some (String c h)
  | _ => None
  end.

(** The aircraft state the OpenSky adapter builds from a state
    vector. *)
Definition fromState (s : Feeds.OpenSkyState) : Feeds.ADSBoneAircraft :=
  {| Feeds.hex := Feeds.state0 s;
     Feeds.flight := Feeds.trimmed (Feeds.state1 s);
     Feeds.lat := Feeds.state6 s;
     Feeds.lon := Feeds.state5 s;
     Feeds.alt_baro := Feeds.state7 s;
     Feeds.alt_geom := Feeds.state13 s;
     Feeds.gs := Feeds.state9 s;
     Feeds.track := Feeds.state10 s;
     Feeds.baro_rate := Feeds.state11 s;
     Feeds.geom_rate := None;
     Feeds.squawk := Feeds.state14 s;
     Feeds.category := Feeds.state17 s;
     Feeds.t := None;
     Feeds.desc := None;
     Feeds._source := Some "opensky"%string |}.

(** A run without an inner gap: no two consecutive samples are further
    apart than the threshold. *)
Definition closeKnit (run : list Track.Position) : Prop :=
  ∀ i p q, run !! i = Some p → run !! S i = Some q → gapExceeds p q = false.

(** Two runs separated by a gap: from the last sample of the first to
    the first sample of the second the threshold is exceeded. *)
Definition apart (run1 run2 : list Track.Position) : Prop :=
  ∃ p q, last run1 = Some p ∧ head run2 = Some q ∧ gapExceeds p q = true.

(** Every two neighbours of a list of runs are separated by a gap. *)
Fixpoint allApart (rs : list (list Track.Position)) : Prop :=
  match rs with
  | run1 :: rest =>
      match rest with
      | run2 :: _ => apart run1 run2 ∧ allApart rest
      | [] => True
      end
  | [] => True
  end.

(** During the loop of [splitIntoSegments] the last marker pushed
    holds the gap between the last sample of the segment before it and
    the first sample of the current run. *)
Definition lastGapRecorded (segments : list Track.TrackSegment)
    (currentSegment : list Track.Position) : Prop :=
  segments = []
  ∨ ∃ front r m p q,
      segments = front ++ [r; m]
      ∧ last (Track.positions r) = Some p
      ∧ head currentSegment = Some q
      ∧ gapExceeds p q = true
      ∧ Track.gapDurationSeconds m = Some (Track.gapSecondsBetween p q).

(** The quantity [a] of [haversineDistance], whose square root and
    that of [1 - a] the code takes. *)
Definition haversineA (lat1 lon1 lat2 lon2 : R) : R :=
  (let dLat := (lat2 - lat1) * PI / 180 in
   let dLon := (lon2 - lon1) * PI / 180 in
   sin (dLat / 2) * sin (dLat / 2) +
   cos (lat1 * PI / 180) * cos (lat2 * PI / 180) *
   sin (dLon / 2) * sin (dLon / 2))%R.

(** An aircraft table that keeps every record of another: no record
    is lost, its first sighting, origin and registration are as they
    were, and its sighting count has not gone down. *)
Definition keepsRecords (m m' : gmap string Store.AircraftRow) : Prop :=
  ∀ id old, m !! id = Some old →
    ∃ new, m' !! id = Some new
           ∧ Store.first_seen new = Store.first_seen old
           ∧ Store.origin_country new = Store.origin_country old
           ∧ Store.registration new = Store.registration old
           ∧ (Store.total_sightings old ≤ Store.total_sightings new)%Z.

(** Every stored position belongs to a recorded aircraft (the foreign
    key of [positions]). *)
Definition referencesHold (w : Store.World) : Prop :=
  Forall (fun row => is_Some (Store.aircraft w !! Store.icao24 row))
         (Store.positions w).

(** An identifier as the tracker stores it: lower-cased and in the
    nationality range. *)
Definition ofInterest (id : string) : Prop :=
  JS.toLowerCase id = id ∧ Classifier.isRussianAircraft (Some id) = true.

(** Successive upserts of one identifier: each sighting comes some
    time after the previous call, with a callsign and a type that may
    be null. *)
Fixpoint upsertEach (id : string)
    (sightings : list (Z * option string * option string))
    (w : Store.World) : Store.World :=
  match sightings with
  | [] => w
  | (dt, cs, ty) :: rest =>
      upsertEach id rest
        (snd (Store.upsertAircraft id cs ty (Store.elapse dt w)))
  end.

(** The last non-null value of a sequence, or [old] when there is
    none. *)
Definition lastNonNull (old : option string) (values : list (option string))
  : option string :=
  foldl (fun acc v => JS.nullish v acc) old values.

(** The stored positions [getAircraftHistory] selects for an
    identifier and a number of hours, in table order. *)
Definition historyRows (id : string) (hours : Z) (w : Store.World)
  : list Store.PositionRow :=
  List.filter
    (fun p => String.eqb (Store.icao24 p) (JS.toLowerCase id)
              && (Store.now w - hours * History.HOUR_MS <? Store.timestamp p)%Z)
    (Store.positions w).

End Words.

(** ** Sample inputs *)

Module Samples.
Import Feeds.

(** An aircraft state with an identifier and a callsign only. *)
Definition aircraftNamed (h f : string) : ADSBoneAircraft :=
  mkAircraft (Some h) (Some f) None None None None None None None None
             None None None None None.

(** ADSB.one answers the first coverage point with the same address in
    two casings and fails everywhere else. *)
Definition twoCasingsNet (p : CoveragePoint) : Reply ADSBoneAircraft :=
  if Qeq_bool (pt_lat p) (6017 # 100)
  then Body (Some [aircraftNamed "14ABCD" "AFL101"; aircraftNamed "14abcd" "AFL102"])
  else RequestThrows.

(** OpenSky does not answer. *)
Definition silentOpenSky (b : BoundingBox) : Reply OpenSkyState := NotOk.

(** An aircraft on the ground at Pulkovo, as ADSB.one reports it:
    [alt_baro] is the string ['ground'], the speed is missing. *)
Definition groundedAircraft : ADSBoneAircraft :=
  mkAircraft (Some "14ABCD"%string) (Some "AFL101  "%string)
             (Some (598 # 10)) (Some (303 # 10))
             (Some (JsStr "ground")) (Some 25%Q)
             None (Some 90%Q) None None
             None None (Some "A320"%string) None None.

(** An aircraft in the air whose position is not known. *)
Definition aircraftWithoutFix : ADSBoneAircraft :=
  mkAircraft (Some "150001"%string) (Some "RSD001"%string) None None
             (Some (JsNum 11000)) None (Some 450%Q) None None None
             None None None None None.

(** ADSB.one answers its first coverage point with two aircraft of
    interest, one of them without a position, and one foreign one. *)
Definition cycleNet (p : CoveragePoint) : Reply ADSBoneAircraft :=
  if Qeq_bool (pt_lat p) (6017 # 100)
  then Body (Some [groundedAircraft; aircraftWithoutFix;
                   aircraftNamed "4ca123" "RYR1"])
  else NotOk.

(** An aircraft record seen seven times, the last time at 5000 ms. *)
Definition knownRow : Store.AircraftRow :=
  Store.mkAircraftRow (Some "AFL100"%string) (Some "Russia"%string) None
                      (Some "B738"%string) 1000 5000 7.

(** A store that knows that aircraft, at time 9000 ms, with no failure
    pending. *)
Definition knownWorld : Store.World :=
  Store.mkWorld {[ "14abcd"%string := knownRow ]} [] ∅ 9000 [].

(** The store of [knownWorld] with one position of the known
    aircraft. *)
Definition flownWorld : Store.World :=
  Store.mkWorld {[ "14abcd"%string := knownRow ]}
    [ Store.mkPositionRow "14abcd" (Some "AFL100"%string)
        (Some 60%Q) (Some 30%Q) None None None None false 8000 ]
    ∅ 9000 [].

(** A stored position of an aircraft at a time, nothing else known. *)
Definition seenAt (id : string) (ts : Z) : Store.PositionRow :=
  Store.mkPositionRow id None (Some 60%Q) (Some 30%Q) None None None None
                      false ts.

(** A store with two samples of one aircraft and a single sample of
    another, all within the last 24 hours. *)
Definition trackWorld : Store.World :=
  Store.mkWorld ∅
    [ seenAt "14abcd" 1000; seenAt "150000" 2000; seenAt "14abcd" 62000 ]
    ∅ 100000 [].

(** A position sample taken [seconds] after the epoch, coordinates
    unknown. *)
Definition sampleAt (seconds : Z) : Track.Position :=
  Track.mkPosition None None None None None (seconds * 1000).

End Samples.

(** * Properties *)

(** ** Classifier *)

Section ClassifierFacts.
Import JS Classifier Words.

Lemma includes_elem_of (l : list string) (x : string) :
  includes l x = true ↔ x ∈ l.
Proof.
  induction l as [|y l IH]; simpl.
  - split; [discriminate | intros H; inversion H].
  - destruct (String.eqb_spec y x) as [->|Hne].
    + split; [intros _; left | reflexivity].
    + rewrite IH. split; [intros H; by right |].
      intros H. apply elem_of_cons in H as [H|H]; [congruence | done].
Qed.

Lemma prefixes_are_range :
  RUSSIAN_ICAO_PREFIXES = hex3 <$> seq 320 24.
Proof. reflexivity. Qed.

Lemma prefix_in_range (p : string) :
  p ∈ RUSSIAN_ICAO_PREFIXES ↔ ∃ n, 320 ≤ n ≤ 343 ∧ p = hex3 n.
Proof.
  rewrite prefixes_are_range, list_elem_of_fmap.
  split.
  - intros (n & -> & Hn). apply elem_of_seq in Hn. exists n. split; [lia | done].
  - intros (n & Hn & ->). exists n. split; [done |]. apply elem_of_seq. lia.
Qed.

Lemma toLowerCase_empty (s : string) :
  toLowerCase s = EmptyString → s = EmptyString.
Proof. destruct s; [done | discriminate]. Qed.

Lemma truthy_toLowerCase (s s' : string) :
  toLowerCase s = toLowerCase s' → truthy (Some s) = truthy (Some s').
Proof.
  destruct s, s'; simpl; try done; discriminate.
Qed.

Lemma isRussianAircraft_unfold (s : string) :
  isRussianAircraft (Some s) =
  truthy (Some s) && includes RUSSIAN_ICAO_PREFIXES (substring 0 3 (toLowerCase s)).
Proof. unfold isRussianAircraft. by destruct (truthy (Some s)). Qed.

(** C6. [isRussianAircraft] answers true exactly when the first three
    characters of the lower-cased identifier are one of the prefixes
    140..157 (hexadecimal, i.e. 320..343); it answers false for an absent
    and for an empty identifier; and two identifiers that differ only in
    the casing of their letters get the same answer. *)
Theorem isRussianAircraft_prefix_and_casing (s s' : string)
    (Hcase : toLowerCase s = toLowerCase s') :
  (isRussianAircraft (Some s) = true ↔
     ∃ n, 320 ≤ n ≤ 343 ∧ substring 0 3 (toLowerCase s) = hex3 n)
  ∧ isRussianAircraft None = false
  ∧ isRussianAircraft (Some EmptyString) = false
  ∧ isRussianAircraft (Some s') = isRussianAircraft (Some s).
Proof.
  split; [| split; [done | split; [done |]]].
  - rewrite isRussianAircraft_unfold, <- prefix_in_range, <- includes_elem_of.
    destruct s as [|c s]; [| done].
    simpl. split; [done |]. by vm_compute.
  - rewrite !isRussianAircraft_unfold, Hcase.
    by rewrite (truthy_toLowerCase _ _ Hcase).
Qed.

Lemma isRussianAircraft_prefix_and_casing_witness :
  toLowerCase "14ABCD" = toLowerCase "14abcd"
  ∧ isRussianAircraft (Some "14abcd"%string) = isRussianAircraft (Some "14ABCD"%string).
Proof.
  split; [reflexivity |].
  apply (isRussianAircraft_prefix_and_casing "14ABCD" "14abcd"). reflexivity.
Defined.

End ClassifierFacts.

Section MilitaryFacts.
Import JS Classifier Words.

Lemma addMilitaryItems_codes (items : list MilitaryItem) (codes : gset string) :
  fst (addMilitaryItems items codes) = list_to_set (usableHexes items) ∪ codes.
Proof.
  revert codes. induction items as [|item items IH]; intros codes; simpl.
  - set_solver.
  - destruct item as [[[|c h]|]|]; simpl; rewrite ?IH; set_solver.
Qed.

Lemma usableHexes_nonempty (items : list MilitaryItem) :
  EmptyString ∉ usableHexes items.
Proof.
  induction items as [|item items IH]; simpl; [by intros H; inversion H |].
  destruct item as [[[|c h]|]|]; simpl; try done.
  - intros H. apply elem_of_cons in H as [H|H]; [discriminate | done].
  - intros H. inversion H.
Qed.

Lemma militaryHexCodes_completes (file : MilitaryFile) :
  snd (militaryHexCodes file) = Normal tt.
Proof.
  unfold militaryHexCodes.
  by destruct (loadMilitaryData file ∅) as [codes [[]|]].
Qed.

Lemma militaryHexCodes_codes (file : MilitaryFile) :
  fst (militaryHexCodes file) = fst (loadMilitaryData file ∅).
Proof.
  unfold militaryHexCodes.
  by destruct (loadMilitaryData file ∅) as [codes [[]|]].
Qed.

Lemma militaryHexCodes_no_empty_key (file : MilitaryFile) :
  EmptyString ∉ fst (militaryHexCodes file).
Proof.
  rewrite militaryHexCodes_codes. destruct file as [| |items]; simpl.
  - set_solver.
  - set_solver.
  - rewrite addMilitaryItems_codes.
    pose proof (usableHexes_nonempty items). set_solver.
Qed.

(** C9. Loading the military data set always completes normally,
    whatever the file; when [require] throws (file absent or not
    parseable) the set stays empty and [isMilitary] is false for every
    identifier, present or not; a loaded array leaves in the set the
    lower-cased truthy [hex] fields of its objects; for any content of
    the set, [isMilitary] of a present identifier is true exactly when
    the lower-cased identifier is a member, and it is false for an
    absent identifier after any start-up. *)
Theorem militaryHexCodes_startup_and_lookup :
  (∀ file, snd (militaryHexCodes file) = Normal tt)
  ∧ fst (militaryHexCodes RequireThrows) = ∅
  ∧ (∀ icao24, isMilitary (fst (militaryHexCodes RequireThrows)) icao24 = false)
  ∧ (∀ items, fst (militaryHexCodes (DataArray items))
              = list_to_set (usableHexes items))
  ∧ (∀ codes s, isMilitary codes (Some s) = true ↔ toLowerCase s ∈ codes)
  ∧ (∀ file, isMilitary (fst (militaryHexCodes file)) None = false).
Proof.
  split; [apply militaryHexCodes_completes |].
  split; [done |].
  split.
  { intros icao24. unfold isMilitary. apply bool_decide_eq_false.
    rewrite militaryHexCodes_codes. simpl. set_solver. }
  split.
  { intros items. rewrite militaryHexCodes_codes. simpl.
    rewrite addMilitaryItems_codes. set_solver. }
  split.
  { intros codes s. unfold isMilitary. simpl. apply bool_decide_eq_true. }
  intros file. unfold isMilitary. simpl. apply bool_decide_eq_false.
  apply militaryHexCodes_no_empty_key.
Qed.

End MilitaryFacts.

(** ** Fusion *)

Section FusionFacts.
Import JS Feeds Words Samples.

Lemma identifierOf_truthy (a : ADSBoneAircraft) :
  truthy (hex a) = true ↔ is_Some (identifierOf a).
Proof.
  unfold identifierOf. destruct (hex a) as [[|c h]|]; simpl;
    split; try done; intros [x Hx]; discriminate.
Qed.

Lemma identifierOf_lower (a : ADSBoneAircraft) (h : string) :
  hex a = Some h → truthy (hex a) = true →
  identifierOf a = Some (toLowerCase h).
Proof.
  unfold identifierOf. intros ->. by destruct h.
Qed.

Lemma identifiers_app (l1 l2 : list ADSBoneAircraft) :
  identifiers (l1 ++ l2) = identifiers l1 ++ identifiers l2.
Proof. apply omap_app. Qed.

(** The first loop pushes every aircraft that has an identifier. *)
Lemma mergeADSBone_spec (items m : list ADSBoneAircraft) (seen : gset string) :
  mergeADSBone items (m, seen) =
  (m ++ List.filter (fun a => truthy (hex a)) items,
   list_to_set (identifiers items) ∪ seen).
Proof.
  revert m seen. induction items as [|a items IH]; intros m seen; simpl.
  - rewrite app_nil_r. f_equal. set_solver.
  - unfold identifiers. simpl. unfold identifierOf at 1.
    destruct (hex a) as [[|c h]|] eqn:Hhex; simpl.
    + rewrite IH. f_equal.
    + rewrite IH, <- app_assoc. simpl. f_equal.
      unfold identifiers. set_solver.
    + rewrite IH. f_equal.
Qed.

(** The second loop only appends, what it appends was not seen, the
    set of identifiers grows by those offered, and it never introduces
    a second entry for an identifier. *)
Lemma mergeOpenSky_spec (items m : list ADSBoneAircraft) (seen : gset string) :
  seen = list_to_set (identifiers m) →
  ∃ added,
    mergeOpenSky items (m, seen) =
      (m ++ added, list_to_set (identifiers (m ++ added)))
    ∧ (∀ a, a ∈ added → a ∈ items ∧ ∃ i, identifierOf a = Some i ∧ i ∉ seen)
    ∧ (list_to_set (identifiers (m ++ added)) : gset string)
        = seen ∪ list_to_set (identifiers items)
    ∧ (NoDup (identifiers m) → NoDup (identifiers (m ++ added))).
Proof.
  revert m seen. induction items as [|a items IH]; intros m seen Hseen.
  - exists []. simpl. rewrite app_nil_r, <- Hseen.
    split; [done |]. split; [intros a Ha; inversion Ha |].
    split; [set_solver | done].
  - simpl. destruct (hex a) as [h|] eqn:Hhex.
    + destruct (truthy (Some h)) eqn:Htr; simpl.
      * assert (Hid : identifierOf a = Some (toLowerCase h)).
        { apply identifierOf_lower; [done | by rewrite Hhex]. }
        destruct (bool_decide (toLowerCase h ∈ seen)) eqn:Hin; simpl.
        -- apply bool_decide_eq_true in Hin.
           destruct (IH m seen Hseen) as (added & Heq & Hadd & Hset & Hnd).
           exists added. split; [done |].
           split; [intros b Hb; destruct (Hadd b Hb); split; [by right | done] |].
           split; [| done].
           rewrite Hset. unfold identifiers at 3. simpl. rewrite Hid. simpl.
           fold (identifiers items). set_solver.
        -- apply bool_decide_eq_false in Hin.
           assert (Hseen' : {[toLowerCase h]} ∪ seen
                            = list_to_set (identifiers (m ++ [a]))).
           { rewrite identifiers_app, list_to_set_app_L, <- Hseen.
             unfold identifiers at 1. simpl. rewrite Hid. simpl. set_solver. }
           destruct (IH (m ++ [a]) _ Hseen') as (added & Heq & Hadd & Hset & Hnd).
           exists (a :: added).
           replace (m ++ a :: added) with ((m ++ [a]) ++ added)
             by (by rewrite <- app_assoc).
           split; [done |]. split.
           { intros b Hb. apply elem_of_cons in Hb as [->|Hb].
             - split; [by left | eauto].
             - destruct (Hadd b Hb) as (Hitems & i & Hi & Hni).
               split; [by right |]. exists i. split; [done | set_solver]. }
           split.
           { rewrite Hset. unfold identifiers at 3. simpl. rewrite Hid. simpl.
             fold (identifiers items). set_solver. }
           intros Hm. apply Hnd.
           rewrite identifiers_app. unfold identifiers at 2. simpl.
           rewrite Hid. simpl. apply NoDup_app. split; [done |].
           split; [| apply NoDup_singleton].
           intros x Hx Hx'. apply list_elem_of_singleton in Hx' as ->.
           apply Hin. rewrite Hseen. by apply elem_of_list_to_set.
      * destruct (IH m seen Hseen) as (added & Heq & Hadd & Hset & Hnd).
        exists added. split; [done |].
        split; [intros b Hb; destruct (Hadd b Hb); split; [by right | done] |].
        split; [| done].
        rewrite Hset. unfold identifiers at 3. simpl.
        unfold identifierOf at 1. rewrite Hhex.
        destruct h; [| discriminate]. done.
    + destruct (IH m seen Hseen) as (added & Heq & Hadd & Hset & Hnd).
      exists added. split; [done |].
      split; [intros b Hb; destruct (Hadd b Hb); split; [by right | done] |].
      split; [| done].
      rewrite Hset. unfold identifiers at 3. simpl.
      unfold identifierOf at 1. by rewrite Hhex.
Qed.

Lemma identifiers_filter_truthy (l : list ADSBoneAircraft) :
  identifiers (List.filter (fun a => truthy (hex a)) l) = identifiers l.
Proof.
  induction l as [|a l IH]; [done |].
  cbn [List.filter]. unfold identifiers in *.
  destruct (identifierOf a) as [i|] eqn:Hid.
  - assert (Htr : truthy (hex a) = true)
      by (apply identifierOf_truthy; rewrite Hid; eauto).
    rewrite Htr. simpl. rewrite Hid. f_equal. exact IH.
  - assert (Htr : truthy (hex a) = false).
    { destruct (truthy (hex a)) eqn:Htr; [| done].
      apply identifierOf_truthy in Htr as [x Hx]. congruence. }
    rewrite Htr. simpl. rewrite Hid. exact IH.
Qed.

(** What holds of the fused list for all adapter outputs: the ADSB.one
    entries come first and all of them are kept, an OpenSky entry is
    kept only under an identifier ADSB.one did not report, the set of
    identifiers is the union of the two, and the list has one entry per
    identifier as soon as the ADSB.one output has. *)
Lemma mergedAircraft_spec (d : ADSBoneResponse) (os : list ADSBoneAircraft) :
  ∃ added,
    mergedAircraft (Some d) os
      = List.filter (fun a => truthy (hex a)) (ac d) ++ added
    ∧ (∀ a, a ∈ added →
         a ∈ os ∧ ∃ i, identifierOf a = Some i ∧ i ∉ identifiers (ac d))
    ∧ (list_to_set (identifiers (mergedAircraft (Some d) os)) : gset string)
        = list_to_set (identifiers (ac d)) ∪ list_to_set (identifiers os)
    ∧ (NoDup (identifiers (ac d)) →
       NoDup (identifiers (mergedAircraft (Some d) os))).
Proof.
  unfold mergedAircraft. rewrite mergeADSBone_spec. simpl.
  set (kept := List.filter (fun a => truthy (hex a)) (ac d)).
  assert (Hkept : identifiers kept = identifiers (ac d))
    by apply identifiers_filter_truthy.
  assert (Hseen : list_to_set (identifiers (ac d)) ∪ (∅ : gset string)
                  = list_to_set (identifiers kept)).
  { rewrite Hkept. set_solver. }
  destruct (mergeOpenSky_spec os kept _ Hseen) as (added & Heq & Hadd & Hset & Hnd).
  exists added. rewrite Heq. simpl.
  split; [done |]. split.
  { intros a Ha. destruct (Hadd a Ha) as (Hos & i & Hi & Hni).
    split; [done |]. exists i. split; [done |].
    intros Hin. apply Hni. set_solver. }
  split; [rewrite Hset; set_solver |].
  intros H. apply Hnd. by rewrite Hkept.
Qed.

(** C2. The fused list does not always hold one entry per lower-cased
    identifier: when ADSB.one reports one address in two casings, its
    adapter lets both through (it compares identifiers as received),
    and the first merge loop pushes both, so the fused list holds two
    entries under the identifier [14abcd]. *)
Theorem fusion_keeps_two_casings_of_one_identifier :
  let adsbData := fetchFromADSBone twoCasingsNet 0 in
  let merged := mergedAircraft (Some adsbData) (fetchFromOpenSky silentOpenSky) in
  hex <$> ac adsbData = [Some "14ABCD"; Some "14abcd"]%string
  ∧ flight <$> merged = [Some "AFL101"; Some "AFL102"]%string
  ∧ identifiers merged = ["14abcd"; "14abcd"]%string
  ∧ ¬ NoDup (identifiers merged).
Proof.
  intros adsbData merged.
  assert (Hids : identifiers merged = ["14abcd"; "14abcd"]%string)
    by (vm_compute; reflexivity).
  split; [vm_compute; reflexivity |].
  split; [vm_compute; reflexivity |].
  split; [exact Hids |].
  rewrite Hids. intros Hnd.
  apply NoDup_cons in Hnd as [Hnotin _]. apply Hnotin. by left.
Qed.

End FusionFacts.

(** ** Segmentation *)

Section SegmentFacts.
Import Track Samples.

Lemma positionsOf_app (l1 l2 : list TrackSegment) :
  Words.positionsOf (l1 ++ l2) = Words.positionsOf l1 ++ Words.positionsOf l2.
Proof. unfold Words.positionsOf. by rewrite fmap_app, concat_app. Qed.

Lemma positionsOf_singleton (s : TrackSegment) :
  Words.positionsOf [s] = positions s.
Proof. unfold Words.positionsOf. simpl. by rewrite app_nil_r. Qed.

(** One iteration keeps every position held so far and takes in the
    current one; the current run is never left empty. *)
Lemma segmentStep_held (prev curr : Position)
    (segments : list TrackSegment) (currentSegment : list Position) :
  let st := segmentStep prev curr (segments, currentSegment) in
  Words.positionsOf (fst st) ++ snd st
    = Words.positionsOf segments ++ currentSegment ++ [curr]
  ∧ snd st ≠ [].
Proof.
  unfold segmentStep.
  destruct (negb (Qle_bool _ _)); simpl.
  - split; [| done].
    destruct currentSegment as [|p cur]; cbn [length Nat.leb];
      rewrite ?positionsOf_app, ?positionsOf_singleton; cbn [positions];
      by rewrite ?app_nil_r, <- ?app_assoc.
  - split; [done |]. by destruct currentSegment.
Qed.

Lemma segmentLoop_held (rest : list Position) (prev : Position)
    (segments : list TrackSegment) (currentSegment : list Position) :
  currentSegment ≠ [] →
  let st := segmentLoop prev rest (segments, currentSegment) in
  Words.positionsOf (fst st) ++ snd st
    = Words.positionsOf segments ++ currentSegment ++ rest
  ∧ snd st ≠ [].
Proof.
  revert prev segments currentSegment.
  induction rest as [|curr rest IH]; intros prev segments currentSegment Hne.
  - simpl. by rewrite app_nil_r.
  - cbn [segmentLoop].
    destruct (segmentStep_held prev curr segments currentSegment) as [Hstep Hne'].
    destruct (segmentStep prev curr (segments, currentSegment))
      as [segments' cur'] eqn:Hst.
    simpl in Hstep, Hne'.
    destruct (IH curr segments' cur' Hne') as [Hloop Hne''].
    split; [| exact Hne''].
    etrans; [exact Hloop |].
    rewrite app_assoc, Hstep, <- !app_assoc. done.
Qed.

Lemma positionsOf_removelast (segments : list TrackSegment) (m : TrackSegment) :
  last segments = Some m → positions m = [] →
  Words.positionsOf (removelast segments) = Words.positionsOf segments.
Proof.
  intros Hlast Hm.
  destruct (last_Some segments m) as [[l' Hl] _]; [done |]. subst segments.
  rewrite removelast_last, positionsOf_app, positionsOf_singleton, Hm.
  by rewrite app_nil_r.
Qed.

Lemma addFinalSegment_held (segments : list TrackSegment)
    (currentSegment : list Position) :
  Words.positionsOf (addFinalSegment (segments, currentSegment))
    = Words.positionsOf segments ++ currentSegment.
Proof.
  unfold addFinalSegment.
  destruct currentSegment as [|p cur]; simpl; [by rewrite app_nil_r |].
  destruct (last segments) as [m|] eqn:Hlast.
  - destruct ((0 <? length segments) && (length (positions m) =? 0)) eqn:Hc.
    + apply andb_prop in Hc as [_ Hlen]. apply Nat.eqb_eq in Hlen.
      rewrite positionsOf_app, positionsOf_singleton. simpl.
      rewrite (positionsOf_removelast segments m); [done | done |].
      by destruct (positions m).
    + by rewrite positionsOf_app, positionsOf_singleton.
  - by rewrite positionsOf_app, positionsOf_singleton.
Qed.

Lemma positionsOf_filter_nonempty (segments : list TrackSegment) :
  Words.positionsOf
    (List.filter (fun s => 1 <=? length (positions s)) segments)
  = Words.positionsOf segments.
Proof.
  induction segments as [|s l IH]; [done |].
  cbn [List.filter]. destruct (positions s) as [|p ps] eqn:Hs; cbn [length Nat.leb].
  - etrans; [exact IH |]. unfold Words.positionsOf. cbn [fmap list_fmap concat].
    by rewrite Hs.
  - change (s :: ?x) with ([s] ++ x). rewrite !positionsOf_app. f_equal. exact IH.
Qed.

(** C10. The segments partition the input: each emitted segment holds
    at least one position, and their position lists, concatenated in
    order, are the input sequence. *)
Theorem splitIntoSegments_partitions (positions0 : list Position) :
  Forall (fun s => 1 ≤ length (positions s)) (splitIntoSegments positions0)
  ∧ concat (positions <$> splitIntoSegments positions0) = positions0.
Proof.
  split.
  - unfold splitIntoSegments. destruct positions0 as [|first rest]; [done |].
    apply Forall_forall. intros s Hs.
    apply list_elem_of_In, filter_In in Hs as [_ Hs].
    by apply Nat.leb_le in Hs.
  - fold (Words.positionsOf (splitIntoSegments positions0)).
    unfold splitIntoSegments. destruct positions0 as [|first rest]; [done |].
    rewrite positionsOf_filter_nonempty.
    destruct (segmentLoop_held rest first [] [first]) as [Hloop _]; [done |].
    destruct (segmentLoop first rest ([], [first])) as [segments cur].
    rewrite addFinalSegment_held. exact Hloop.
Qed.

(** The run boundaries are right for every input: the position lists
    of the emitted segments are the maximal runs of the input. *)
Lemma nonempty_runs_app (l1 l2 : list (list Position)) :
  List.filter (fun r => 1 <=? length r) (l1 ++ l2)
  = List.filter (fun r => 1 <=? length r) l1
    ++ List.filter (fun r => 1 <=? length r) l2.
Proof. apply List.filter_app. Qed.

Lemma addFinalSegment_runs (segments : list TrackSegment)
    (currentSegment : list Position) :
  currentSegment ≠ [] →
  List.filter (fun r => 1 <=? length r)
    (positions <$> addFinalSegment (segments, currentSegment))
  = List.filter (fun r => 1 <=? length r) (positions <$> segments)
    ++ [currentSegment].
Proof.
  intros Hne. unfold addFinalSegment.
  destruct currentSegment as [|p cur]; [done |]. cbn [length Nat.leb].
  destruct (last segments) as [m|] eqn:Hlast.
  - destruct ((0 <? length segments) && (length (positions m) =? 0)) eqn:Hc.
    + apply andb_prop in Hc as [_ Hlen]. apply Nat.eqb_eq in Hlen.
      destruct (last_Some segments m) as [[l' Hl] _]; [done |]. subst segments.
      rewrite removelast_last, !fmap_app, !nonempty_runs_app.
      cbn [fmap list_fmap positions List.filter].
      destruct (positions m); [| discriminate]. simpl. by rewrite app_nil_r.
    + by rewrite fmap_app, nonempty_runs_app.
  - by rewrite fmap_app, nonempty_runs_app.
Qed.

Lemma segmentLoop_runs (rest : list Position) (prev : Position)
    (segments : list TrackSegment) (currentSegment : list Position) :
  currentSegment ≠ [] →
  List.filter (fun r => 1 <=? length r)
    (positions <$>
       addFinalSegment (segmentLoop prev rest (segments, currentSegment)))
  = List.filter (fun r => 1 <=? length r) (positions <$> segments)
    ++ Words.runsFrom prev rest currentSegment.
Proof.
  revert prev segments currentSegment.
  induction rest as [|curr rest IH]; intros prev segments currentSegment Hne.
  - by apply addFinalSegment_runs.
  - cbn [segmentLoop Words.runsFrom]. unfold segmentStep.
    fold (Words.gapExceeds prev curr).
    destruct (Words.gapExceeds prev curr).
    + destruct currentSegment as [|p cur]; [done |]. cbn [length Nat.leb].
      rewrite IH by done.
      rewrite !fmap_app, !nonempty_runs_app. simpl.
      by rewrite app_nil_r, <- app_assoc.
    + rewrite IH; [done |]. by destruct currentSegment.
Qed.

Lemma fmap_positions_filter (segments : list TrackSegment) :
  positions <$> List.filter (fun s => 1 <=? length (positions s)) segments
  = List.filter (fun r => 1 <=? length r) (positions <$> segments).
Proof.
  induction segments as [|s l IH]; [done |].
  cbn [List.filter fmap list_fmap].
  destruct (1 <=? length (positions s)); [| exact IH].
  cbn [fmap list_fmap]. f_equal. exact IH.
Qed.

Lemma splitIntoSegments_runs (positions0 : list Position) :
  positions <$> splitIntoSegments positions0 = Words.runs positions0.
Proof.
  unfold splitIntoSegments, Words.runs.
  destruct positions0 as [|first rest]; [done |].
  rewrite fmap_positions_filter, segmentLoop_runs; done.
Qed.

(** The example of the specification: one gap, two segments. *)
Lemma splitIntoSegments_one_gap :
  splitIntoSegments (sampleAt <$> [0; 60; 120; 600; 660]%Z)
  = [ mkSegment (sampleAt <$> [0; 60; 120]%Z) false None;
      mkSegment (sampleAt <$> [600; 660]%Z) true (Some 480%Q) ].
Proof. vm_compute. reflexivity. Qed.

(** C1. With two gaps the segment between them loses its mark: for
    samples at 0 s, 600 s and 1200 s every gap is 600 s, above the
    threshold of 300 s, the segmenter emits the three runs, and the
    second segment, which follows a gap, carries [hasGapBefore = false]
    and no duration; only the last one is marked. *)
Theorem splitIntoSegments_drops_mark_between_gaps :
  Words.gapExceeds (sampleAt 0) (sampleAt 600) = true
  ∧ Words.gapExceeds (sampleAt 600) (sampleAt 1200) = true
  ∧ gapSecondsBetween (sampleAt 0) (sampleAt 600) = 600%Q
  ∧ splitIntoSegments (sampleAt <$> [0; 600; 1200]%Z)
    = [ mkSegment [sampleAt 0] false None;
        mkSegment [sampleAt 600] false None;
        mkSegment [sampleAt 1200] true (Some 600%Q) ].
Proof. repeat split; vm_compute; reflexivity. Qed.

(** Which segments are marked, for every input: all segments but the
    last are unmarked, and the last is marked exactly when there is
    more than one segment. *)
Lemma segmentStep_shape (prev curr : Position)
    (segments : list TrackSegment) (currentSegment : list Position) :
  currentSegment ≠ [] → Words.loopShape segments →
  Words.loopShape (fst (segmentStep prev curr (segments, currentSegment))).
Proof.
  intros Hne [Hall Hend]. unfold segmentStep.
  destruct (negb (Qle_bool _ _)); [| by split].
  destruct currentSegment as [|p cur]; [done |]. cbn [length Nat.leb fst].
  split.
  - rewrite <- app_assoc. apply Forall_app. split; [done |].
    apply Forall_cons. split.
    + right. split; [by destruct (0 <? length segments) | done].
    + apply Forall_cons. split; [by left | constructor].
  - right. eexists segments, _, _. rewrite <- app_assoc. simpl.
    split; [reflexivity |]. done.
Qed.

Lemma segmentLoop_shape (rest : list Position) (prev : Position)
    (segments : list TrackSegment) (currentSegment : list Position) :
  currentSegment ≠ [] → Words.loopShape segments →
  Words.loopShape (fst (segmentLoop prev rest (segments, currentSegment))).
Proof.
  revert prev segments currentSegment.
  induction rest as [|curr rest IH]; intros prev segments currentSegment Hne Hsh.
  - done.
  - cbn [segmentLoop].
    pose proof (segmentStep_shape prev curr segments currentSegment Hne Hsh) as Hsh'.
    destruct (segmentStep_held prev curr segments currentSegment) as [_ Hne'].
    destruct (segmentStep prev curr (segments, currentSegment)) as [segs' cur'].
    by apply IH.
Qed.

Lemma filter_nonempty_unmarked (segments : list TrackSegment) :
  Forall (fun s => positions s = [] ∨ Words.unmarked s) segments →
  Forall Words.unmarked
    (List.filter (fun s => 1 <=? length (positions s)) segments).
Proof.
  intros Hall. apply Forall_forall. intros s Hs.
  apply list_elem_of_In, filter_In in Hs as [Hin Hlen].
  apply list_elem_of_In in Hin.
  rewrite Forall_forall in Hall. destruct (Hall s Hin) as [Hempty|Hun]; [| done].
  rewrite Hempty in Hlen. discriminate.
Qed.

Lemma addFinalSegment_marks (segments : list TrackSegment)
    (currentSegment : list Position) :
  currentSegment ≠ [] → Words.loopShape segments →
  ∃ front lst,
    List.filter (fun s => 1 <=? length (positions s))
      (addFinalSegment (segments, currentSegment)) = front ++ [lst]
    ∧ Forall Words.unmarked front
    ∧ positions lst = currentSegment
    ∧ (hasGapBefore lst = true ↔ front ≠ []).
Proof.
  intros Hne [Hall Hend]. unfold addFinalSegment.
  destruct currentSegment as [|p cur]; [done |]. cbn [length Nat.leb].
  destruct Hend as [->|(front0 & r & m & -> & Hr & Hm & Hflag)].
  - simpl. eexists [], _. split; [reflexivity |].
    split; [constructor |]. split; [done |]. simpl. split; done.
  - replace (front0 ++ [r; m]) with ((front0 ++ [r]) ++ [m])
      by (by rewrite <- app_assoc).
    rewrite last_snoc, removelast_last, Hm. cbn [length Nat.eqb].
    rewrite length_app. cbn [length].
    replace (0 <? length (front0 ++ [r]) + 1) with true
      by (symmetry; apply Nat.ltb_lt; lia).
    cbn [andb]. rewrite List.filter_app. cbn [List.filter positions length Nat.leb].
    eexists _, _. split; [reflexivity |].
    split.
    + apply filter_nonempty_unmarked.
      apply Forall_app in Hall as [Hfront Hrm].
      apply Forall_cons in Hrm as [Hr' _].
      apply Forall_app. split; [done |]. by apply Forall_singleton.
    + split; [done |]. simpl. split; [intros _ | done].
      rewrite List.filter_app. cbn [List.filter].
      destruct (positions r); [done |]. cbn [length Nat.leb].
      by destruct (List.filter _ front0).
Qed.

Lemma splitIntoSegments_marks (first : Position) (rest : list Position) :
  ∃ front lst,
    splitIntoSegments (first :: rest) = front ++ [lst]
    ∧ Forall Words.unmarked front
    ∧ (hasGapBefore lst = true ↔ front ≠ []).
Proof.
  unfold splitIntoSegments.
  assert (Hsh0 : Words.loopShape []) by (split; [constructor | by left]).
  pose proof (segmentLoop_shape rest first [] [first] ltac:(done) Hsh0) as Hsh.
  destruct (segmentLoop_held rest first [] [first] ltac:(done)) as [_ Hne].
  destruct (segmentLoop first rest ([], [first])) as [segments cur].
  destruct (addFinalSegment_marks segments cur Hne Hsh)
    as (front & lst & Heq & Hun & _ & Hflag).
  by exists front, lst.
Qed.

End SegmentFacts.

(** ** Geographic filter *)

Section GeoFacts.
Import Track Tracks.
Local Open Scope R_scope.

Lemma atan2_pos_x (y x : R) : 0 < x → atan2 y x = atan (y / x).
Proof. intros Hx. unfold atan2. by destruct (Rlt_dec 0 x). Qed.

Lemma atan2_zero_x_pos_y (y : R) : 0 < y → atan2 y 0 = PI / 2.
Proof.
  intros Hy. unfold atan2.
  destruct (Rlt_dec 0 0) as [H|_]; [lra |].
  destruct (Rlt_dec 0 0) as [H|_]; [lra |].
  by destruct (Rlt_dec 0 y).
Qed.

(** A point is at distance zero from itself. *)
Lemma haversineDistance_same_point (la lo : R) :
  haversineDistance la lo la lo = 0.
Proof.
  unfold haversineDistance.
  replace ((la - la) * PI / 180 / 2) with 0 by lra.
  replace ((lo - lo) * PI / 180 / 2) with 0 by lra.
  rewrite sin_0.
  replace (0 * 0 + cos (la * PI / 180) * cos (la * PI / 180) * 0 * 0) with 0 by lra.
  rewrite sqrt_0, Rminus_0_r, sqrt_1, atan2_pos_x by lra.
  replace (0 / 1) with 0 by lra. rewrite atan_0. lra.
Qed.

(** From pole to pole the distance is half the circumference of a
    sphere of radius 6371 km. *)
Lemma haversineDistance_pole_to_pole (lo : R) :
  haversineDistance 90 lo (-90) lo = 6371 * PI.
Proof.
  unfold haversineDistance.
  replace ((-90 - 90) * PI / 180 / 2) with (- (PI / 2)) by lra.
  replace ((lo - lo) * PI / 180 / 2) with 0 by lra.
  replace (90 * PI / 180) with (PI / 2) by lra.
  rewrite sin_neg, sin_PI2, sin_0, cos_PI2.
  replace (- (1) * - (1) + 0 * cos (-90 * PI / 180) * 0 * 0) with 1 by lra.
  rewrite sqrt_1. replace (1 - 1) with 0 by lra.
  rewrite sqrt_0, atan2_zero_x_pos_y by lra. lra.
Qed.

(** The radius test read over the reals: a sample is dropped exactly
    when its latitude or its longitude is null or its distance from
    the centre, computed without rounding, is strictly greater than
    the radius; the filter of the track query is this test applied to
    every sample; and a sample whose distance equals the radius is
    kept.  The code evaluates the same formula in double precision. *)
Lemma withinRadius_on_reals
    (centerLat centerLon radiusKm : Q) (pos : Position) :
  (withinRadius centerLat centerLon radiusKm pos = false ↔
     latitude pos = None ∨ longitude pos = None ∨
     ∃ la lo, latitude pos = Some la ∧ longitude pos = Some lo ∧
       Q2R radiusKm <
       haversineDistance (Q2R centerLat) (Q2R centerLon) (Q2R la) (Q2R lo))
  ∧ (∀ rows,
       filterPositions (Some centerLat) (Some centerLon) (Some radiusKm) rows
       = List.filter (withinRadius centerLat centerLon radiusKm) rows)
  ∧ (∀ la lo, latitude pos = Some la → longitude pos = Some lo →
       haversineDistance (Q2R centerLat) (Q2R centerLon) (Q2R la) (Q2R lo)
         = Q2R radiusKm →
       withinRadius centerLat centerLon radiusKm pos = true).
Proof.
  split; [| split; [done |]].
  - unfold withinRadius.
    destruct (latitude pos) as [la|]; [| by split; [left |]].
    destruct (longitude pos) as [lo|]; [| by split; [right; left |]].
    destruct (Rle_dec _ _) as [Hle|Hgt].
    + split; [done |]. intros [H|[H|(la' & lo' & H1 & H2 & Hlt)]]; try done.
      injection H1 as <-. injection H2 as <-. lra.
    + split; [| done]. intros _. right. right. exists la, lo.
      split; [done |]. split; [done |]. lra.
  - intros la lo Hla Hlo Hd. unfold withinRadius. rewrite Hla, Hlo, Hd.
    destruct (Rle_dec _ _) as [_|Hn]; [done | lra].
Qed.

(** A sample at the centre is kept by a filter of radius zero. *)
Lemma withinRadius_centre_radius_zero (la lo : Q) (al ve he : option Q) (ts : Z) :
  withinRadius la lo 0 (mkPosition (Some la) (Some lo) al ve he ts) = true.
Proof.
  unfold withinRadius. simpl. rewrite haversineDistance_same_point.
  destruct (Rle_dec _ _) as [_|Hn]; [done |].
  exfalso. apply Hn. rewrite RMicromega.Q2R_0. lra.
Qed.

End GeoFacts.

(** ** The store *)

Section StoreFacts.
Import Store Words Samples.
Local Open Scope Z_scope.

Lemma sameTables_refl (w : World) : sameTables w w.
Proof. by repeat split. Qed.

Lemma sameTables_trans (w1 w2 w3 : World) :
  sameTables w1 w2 → sameTables w2 w3 → sameTables w1 w3.
Proof.
  intros (A1 & P1 & D1 & N1) (A2 & P2 & D2 & N2).
  repeat split; congruence.
Qed.

Lemma sameTables_set_pending (p : list bool) (w : World) :
  sameTables w (set_pending p w).
Proof. by repeat split. Qed.

(** A database call either throws and leaves the tables alone, or runs
    its statement on the tables as they are. *)
Lemma query_cases {A} (stmt : World → A * World) (w : World) :
  (∃ w0, sameTables w w0 ∧ query stmt w = (Thrown, w0))
  ∨ (∃ w0, sameTables w w0
           ∧ query stmt w = (Normal (fst (stmt w0)), snd (stmt w0))).
Proof.
  unfold query. destruct (pending w) as [|[] rest].
  - right. exists w. split; [apply sameTables_refl |]. by destruct (stmt w).
  - left. eexists. split; [apply sameTables_set_pending | done].
  - right. exists (set_pending rest w).
    split; [apply sameTables_set_pending |].
    by destruct (stmt (set_pending rest w)).
Qed.

(** With nothing pending the statement runs. *)
Lemma query_runs {A} (stmt : World → A * World) (w : World) :
  pending w = [] → query stmt w = (Normal (fst (stmt w)), snd (stmt w)).
Proof. intros Hp. unfold query. rewrite Hp. by destruct (stmt w). Qed.

Lemma upsertAircraft_existing (id : string) (cs ty : option string)
    (w : World) (old : AircraftRow) :
  aircraft w !! id = Some old →
  aircraft (snd (upsertAircraft id cs ty w)) !! id
  = Some (mkAircraftRow (JS.nullish cs (callsign old)) (origin_country old)
            (registration old) (JS.nullish ty (aircraft_type old))
            (first_seen old) (now w) (total_sightings old + 1)).
Proof.
  intros Hold. unfold upsertAircraft. rewrite Hold. simpl.
  apply lookup_insert_eq.
Qed.

(** C5. For an aircraft already recorded, the upsert keeps
    [first_seen], sets [last_seen] to the current time (so with a clock
    that has not gone back it does not decrease), adds exactly one to
    [total_sightings], and replaces callsign and type only by non-null
    values, keeping the old ones otherwise; repeating the upsert later
    with the same non-null callsign and type leaves both as they are
    and counts one more sighting. *)
Theorem upsertAircraft_updates_existing_record
    (id : string) (cs ty : option string) (w : World) (old : AircraftRow)
    (Hold : aircraft w !! id = Some old) :
  ∃ new,
    aircraft (snd (upsertAircraft id cs ty w)) !! id = Some new
    ∧ first_seen new = first_seen old
    ∧ last_seen new = now w
    ∧ (last_seen old ≤ now w → last_seen old ≤ last_seen new)
    ∧ total_sightings new = total_sightings old + 1
    ∧ callsign new = match cs with Some c => Some c | None => callsign old end
    ∧ aircraft_type new
      = match ty with Some c => Some c | None => aircraft_type old end
    ∧ origin_country new = origin_country old
    ∧ registration new = registration old
    ∧ (∀ c t dt, cs = Some c → ty = Some t →
         ∃ again,
           aircraft (snd (upsertAircraft id cs ty
                            (elapse dt (snd (upsertAircraft id cs ty w)))))
             !! id = Some again
           ∧ callsign again = callsign new
           ∧ aircraft_type again = aircraft_type new
           ∧ first_seen again = first_seen old
           ∧ last_seen again = now w + dt
           ∧ total_sightings again = total_sightings old + 2).
Proof.
  pose proof (upsertAircraft_existing id cs ty w old Hold) as Hnew.
  eexists. split; [exact Hnew |].
  cbn [first_seen last_seen total_sightings callsign aircraft_type
       origin_country registration].
  repeat (split; [by destruct cs, ty |]).
  intros c t dt -> ->.
  eexists. split.
  { apply upsertAircraft_existing. exact Hnew. }
  cbn. repeat split; lia.
Qed.

Lemma upsertAircraft_updates_existing_record_witness :
  aircraft knownWorld !! "14abcd"%string = Some knownRow
  ∧ ∃ new,
      aircraft (snd (upsertAircraft "14abcd" (Some "AFL101"%string) None knownWorld))
        !! "14abcd"%string = Some new
      ∧ first_seen new = 1000
      ∧ last_seen new = 9000
      ∧ total_sightings new = 8
      ∧ callsign new = Some "AFL101"%string
      ∧ aircraft_type new = Some "B738"%string.
Proof.
  split; [vm_compute; reflexivity |].
  destruct (upsertAircraft_updates_existing_record
              "14abcd" (Some "AFL101"%string) None knownWorld knownRow)
    as (new & Hnew & Hfirst & Hlast & _ & Htotal & Hcs & Hty & _);
    [vm_compute; reflexivity |].
  exists new. repeat split; assumption.
Defined.

(** Other aircraft are not touched by an upsert. *)
Lemma upsertAircraft_other (id id' : string) (cs ty : option string) (w : World) :
  id ≠ id' →
  aircraft (snd (upsertAircraft id cs ty w)) !! id' = aircraft w !! id'.
Proof. intros Hne. unfold upsertAircraft. simpl. by rewrite lookup_insert_ne. Qed.

(** A first sighting creates the record with one sighting. *)
Lemma upsertAircraft_inserts (id : string) (cs ty : option string) (w : World) :
  aircraft w !! id = None →
  aircraft (snd (upsertAircraft id cs ty w)) !! id
  = Some (mkAircraftRow cs (Some "Russia"%string) None ty (now w) (now w) 1).
Proof.
  intros Hnone. unfold upsertAircraft. rewrite Hnone. simpl.
  by rewrite lookup_insert_eq.
Qed.

End StoreFacts.

(** ** The ingestion cycle *)

Section IngestFacts.
Import JS Feeds Store Ingest Words Samples.

Lemma altitudeOf_resolved (a : ADSBoneAircraft) :
  altitudeOf a = resolvedAltitude a.
Proof.
  unfold altitudeOf, resolvedAltitude, nullish.
  destruct (alt_baro a); [done |]. by destruct (alt_geom a).
Qed.

Lemma onGroundOf_true (a : ADSBoneAircraft) :
  onGroundOf a = true ↔
  groundSentinel a ∨ ∃ q, resolvedAltitude a = Some (JsNum q) ∧ (q == 0)%Q.
Proof.
  unfold onGroundOf, groundSentinel. rewrite altitudeOf_resolved, orb_true_iff.
  split.
  - intros [H|H].
    + left. destruct (alt_baro a) as [[n|s]|]; try discriminate.
      apply String.eqb_eq in H. by subst s.
    + right. destruct (resolvedAltitude a) as [[n|s]|]; try discriminate.
      exists n. split; [done |]. by apply Qeq_bool_iff.
  - intros [H|(q & H & Hq)].
    + left. rewrite H. by apply String.eqb_eq.
    + right. rewrite H. by apply Qeq_bool_iff.
Qed.

(** The column keeps the number rounded to its scale. *)
Lemma toDecimal_roundsTo (scale : positive) (q : Q) :
  roundsTo scale q (toDecimal scale q).
Proof.
  unfold roundsTo, toDecimal, halfUnit. destruct q as [n d]. cbn [Qnum Qden].
  set (u := (10 ^ scale)%positive).
  split; [eauto |].
  pose proof (Z.div_mod (2 * Z.abs n * Z.pos u + Z.pos d) (2 * Z.pos d)
                ltac:(lia)) as Hdm.
  pose proof (Z.mod_pos_bound (2 * Z.abs n * Z.pos u + Z.pos d) (2 * Z.pos d)
                ltac:(lia)) as Hr.
  set (m := ((2 * Z.abs n * Z.pos u + Z.pos d) / (2 * Z.pos d))%Z) in *.
  set (r := ((2 * Z.abs n * Z.pos u + Z.pos d) mod (2 * Z.pos d))%Z) in *.
  clearbody m r.
  unfold Qle, Qeq, Qminus, Qplus, Qopp. cbn [Qnum Qden].
  rewrite ?Pos2Z.inj_mul.
  set (U := Z.pos u) in *. set (D := Z.pos d) in *.
  assert (HU : (0 < U)%Z) by (subst U; lia).
  assert (HD : (0 < D)%Z) by (subst D; lia).
  clearbody U D.
  destruct (Z.lt_trichotomy n 0) as [Hn|[Hn|Hn]].
  - rewrite (Z.sgn_neg n Hn). rewrite (Z.abs_neq n) in Hdm by lia.
    split; [nia |]. split; [nia |]. split; intros Htie; nia.
  - subst n. cbn [Z.sgn Z.abs] in *.
    split; [nia |]. split; [nia |]. split; intros Htie; nia.
  - rewrite (Z.sgn_pos n Hn). rewrite (Z.abs_eq n) in Hdm by lia.
    split; [nia |]. split; [nia |]. split; intros Htie; nia.
Qed.

Lemma columnOf_toDecimal (scale : positive) (fed : option Q) :
  columnOf scale fed (toDecimal scale <$> fed).
Proof. destruct fed as [v|]; [apply toDecimal_roundsTo | done]. Qed.

(** An altitude of 10000.126 is kept as 10000.13, and a tie goes away
    from zero on both sides. *)
Lemma toDecimal_two_decimals :
  toDecimal 2 (10000126 # 1000) = (1000013 # 100)
  ∧ toDecimal 2 (125 # 1000) = (13 # 100)
  ∧ toDecimal 2 (-125 # 1000) = (-13 # 100)
  ∧ toDecimal 6 (598 # 10) = (59800000 # 1000000).
Proof. repeat split; vm_compute; reflexivity. Qed.

(** The row the insert writes for an aircraft with coordinates is a
    sample of it. *)
Lemma sampleOf_inserted (a : ADSBoneAircraft) (h : string) (la lo : Q) (ts : Z) :
  hex a = Some h → lat a = Some la → lon a = Some lo →
  sampleOf a
    (mkPositionRow (toLowerCase h) (callsignOf a)
       (toDecimal 6 <$> lat a) (toDecimal 6 <$> lon a)
       (toDecimal 2 <$> storedAltitude (altitudeOf a))
       (toDecimal 2 <$> velocityOf a) (toDecimal 2 <$> headingOf a)
       (toDecimal 2 <$> verticalRateOf a) (onGroundOf a) ts).
Proof.
  intros Hhex Hla Hlo. unfold sampleOf. cbn [Store.icao24 Store.latitude
    Store.longitude Store.altitude Store.velocity Store.heading
    Store.vertical_rate Store.on_ground].
  split; [by rewrite Hhex |].
  split; [by rewrite Hla |]. split; [by rewrite Hlo |].
  split; [apply columnOf_toDecimal |]. split; [apply columnOf_toDecimal |].
  split.
  { rewrite altitudeOf_resolved.
    replace (storedAltitude (resolvedAltitude a))
      with (numberOf (resolvedAltitude a))
      by (by destruct (resolvedAltitude a) as [[n|s]|]).
    apply columnOf_toDecimal. }
  split.
  { unfold groundSentinel. intros Hg. rewrite altitudeOf_resolved.
    unfold resolvedAltitude. by rewrite Hg. }
  split.
  { replace (velocityOf a) with (gs a)
      by (unfold velocityOf, nullish; by destruct (gs a)).
    apply columnOf_toDecimal. }
  split.
  { replace (headingOf a) with (track a)
      by (unfold headingOf, nullish; by destruct (track a)).
    apply columnOf_toDecimal. }
  split.
  { replace (verticalRateOf a)
      with (match baro_rate a with Some v => Some v | None => geom_rate a end)
      by (unfold verticalRateOf, nullish;
          destruct (baro_rate a); [done |]; by destruct (geom_rate a)).
    apply columnOf_toDecimal. }
  apply onGroundOf_true.
Qed.

(** One iteration of the storing loop never throws, leaves the clock
    alone, appends at most one position row, which is a sample of the
    aircraft, and counts exactly the rows it appended. *)
Lemma storeAircraft_effect (a : ADSBoneAircraft) (storedCount : nat) (w : World) :
  ∃ rows w',
    storeAircraft a storedCount w = (Normal (storedCount + length rows), w')
    ∧ positions w' = positions w ++ rows
    ∧ now w' = now w
    ∧ length rows ≤ 1
    ∧ Forall (sampleOf a) rows.
Proof.
  assert (Hnone : ∀ w0, positions w0 = positions w → now w0 = now w →
            ∃ rows w', (Normal storedCount, w0)
                       = (Normal (storedCount + length rows), w')
              ∧ positions w' = positions w ++ rows ∧ now w' = now w
              ∧ length rows ≤ 1 ∧ Forall (sampleOf a) rows).
  { intros w0 Hp Hn. exists [], w0. simpl.
    rewrite Nat.add_0_r, app_nil_r. repeat split; [done | done | lia | constructor]. }
  unfold storeAircraft, tryCatch.
  destruct (hex a) as [h|] eqn:Hhex; cbn [fmap option_fmap option_map];
    [| by apply Hnone].
  destruct (negb (truthy (Some (toLowerCase h)))); [by apply Hnone |].
  unfold mbind, M_bind.
  destruct (query_cases (upsertAircraft (toLowerCase h) (callsignOf a) (typeOf a)) w)
    as [(w0 & Hw0 & ->)|(w0 & Hw0 & ->)];
    destruct Hw0 as (_ & Hp0 & _ & Hn0); [by apply Hnone |].
  set (w1 := snd (upsertAircraft (toLowerCase h) (callsignOf a) (typeOf a) w0)).
  assert (Hp1 : positions w1 = positions w) by (by subst w1).
  assert (Hn1 : now w1 = now w) by (by subst w1).
  clearbody w1.
  destruct (lat a) as [la|] eqn:Hla; cbn [not_null andb]; [| by apply Hnone].
  destruct (lon a) as [lo|] eqn:Hlo; cbn [not_null andb]; [| by apply Hnone].
  match goal with
  | |- context [query ?stmt w1] =>
      destruct (query_cases stmt w1) as [(w2 & Hw2 & ->)|(w2 & Hw2 & ->)]
  end; destruct Hw2 as (_ & Hp2 & _ & Hn2).
  - apply Hnone; congruence.
  - unfold insertPosition. cbn [fst snd mret M_ret].
    eexists [_], _. split; [by rewrite Nat.add_1_r |].
    cbn [set_positions positions now]. rewrite Hp2, Hp1, Hn2, Hn1.
    split; [done |]. split; [done |]. split; [simpl; lia |].
    apply Forall_singleton.
    rewrite <- Hla, <- Hlo. by eapply sampleOf_inserted.
Qed.


(** With nothing pending, an aircraft that has an identifier and both
    coordinates gets its position row. *)
Lemma storeAircraft_stores (a : ADSBoneAircraft) (storedCount : nat) (w : World)
    (h : string) (la lo : Q) :
  pending w = [] → hex a = Some h → truthy (hex a) = true →
  lat a = Some la → lon a = Some lo →
  ∃ row, sampleOf a row
    ∧ fst (storeAircraft a storedCount w) = Normal (S storedCount)
    ∧ positions (snd (storeAircraft a storedCount w)) = positions w ++ [row].
Proof.
  intros Hp Hhex Htr Hla Hlo.
  unfold storeAircraft, tryCatch. rewrite Hhex in *.
  cbn [fmap option_fmap option_map].
  assert (Htr' : truthy (Some (toLowerCase h)) = true) by (by destruct h).
  rewrite Htr'. cbn [negb]. unfold mbind, M_bind.
  rewrite query_runs by done. cbn [fst snd].
  rewrite Hla, Hlo. cbn [not_null andb].
  rewrite query_runs by (by simpl).
  eexists. split; [| split; [reflexivity | reflexivity]].
  rewrite <- Hla, <- Hlo. by eapply sampleOf_inserted.
Qed.

(** C8. Whatever the store does, the position rows one aircraft state
    adds (at most one) are samples of it: the altitude column holds a
    number exactly when the resolved altitude is a number (that number
    rounded to the two decimals of the column) and is null when the
    feed sent the ground sentinel; velocity, heading and vertical rate
    are the values of the record rounded the same way, null when it
    has none; and [on_ground] is true exactly when the sentinel was
    present or the resolved altitude is a number equal to zero. *)
Theorem storeAircraft_stores_faithful_sample
    (a : ADSBoneAircraft) (storedCount : nat) (w : World) :
  ∃ rows,
    positions (snd (storeAircraft a storedCount w)) = positions w ++ rows
    ∧ length rows ≤ 1
    ∧ Forall (sampleOf a) rows.
Proof.
  destruct (storeAircraft_effect a storedCount w)
    as (rows & w' & Heq & Hp & _ & Hlen & Hall).
  exists rows. by rewrite Heq.
Qed.

(** The sample of an aircraft reported on the ground: no altitude, no
    speed, the flag set, the callsign trimmed. *)
Lemma storeAircraft_grounded :
  positions (snd (storeAircraft groundedAircraft 0 knownWorld))
  = [ mkPositionRow "14abcd" (Some "AFL101"%string)
        (Some (59800000 # 1000000)%Q) (Some (30300000 # 1000000)%Q) None None
        (Some (9000 # 100)%Q) None true 9000 ].
Proof. vm_compute. reflexivity. Qed.

Lemma sampleOf_coordinates (a : ADSBoneAircraft) (row : PositionRow) :
  sampleOf a row → is_Some (latitude row) ∧ is_Some (longitude row).
Proof.
  intros (_ & [la Hla] & [lo Hlo] & Hlat & Hlon & _).
  rewrite Hla in Hlat. rewrite Hlo in Hlon. unfold columnOf in Hlat, Hlon.
  by destruct (latitude row), (longitude row).
Qed.

(** The whole storing loop: it never throws, and its count is the
    number of rows it appended, at most one per aircraft, each a sample
    of an aircraft of the list. *)
Lemma storeAll_effect (l : list ADSBoneAircraft) (storedCount : nat) (w : World) :
  ∃ rows w',
    storeAll l storedCount w = (Normal (storedCount + length rows), w')
    ∧ positions w' = positions w ++ rows
    ∧ now w' = now w
    ∧ length rows ≤ length l
    ∧ Forall (fun row => ∃ a, a ∈ l ∧ sampleOf a row) rows.
Proof.
  revert storedCount w. induction l as [|a l IH]; intros storedCount w.
  - exists [], w. simpl. rewrite Nat.add_0_r, app_nil_r.
    repeat split; [lia | constructor].
  - cbn [storeAll]. unfold mbind, M_bind.
    destruct (storeAircraft_effect a storedCount w)
      as (rows1 & w1 & -> & Hp1 & Hn1 & Hlen1 & Hall1).
    destruct (IH (storedCount + length rows1) w1)
      as (rows2 & w2 & -> & Hp2 & Hn2 & Hlen2 & Hall2).
    exists (rows1 ++ rows2), w2.
    rewrite length_app, Nat.add_assoc, Hp2, Hp1, Hn2, Hn1, <- app_assoc.
    repeat split; [simpl; lia |].
    apply Forall_app. split.
    + eapply Forall_impl; [exact Hall1 |]. intros row Hrow.
      exists a. split; [by left | done].
    + eapply Forall_impl; [exact Hall2 |]. intros row (a0 & Ha0 & Hrow).
      exists a0. split; [by right | done].
Qed.

Lemma cleanupOldData_completes (w : World) :
  ∃ deletedCount w',
    cleanupOldData w = (Normal deletedCount, w') ∧ now w' = now w.
Proof.
  unfold cleanupOldData, tryCatch, mbind, M_bind.
  destruct (query_cases deleteOldPositions w)
    as [(w0 & Hw0 & ->)|(w0 & Hw0 & ->)];
    destruct Hw0 as (_ & _ & _ & Hn); eauto.
Qed.

Lemma updateDailyStats_completes (w : World) :
  ∃ w', updateDailyStats w = (Normal tt, w')
        ∧ positions w' = positions w.
Proof.
  unfold updateDailyStats, tryCatch, mbind, M_bind, clock.
  match goal with
  | |- context [query ?stmt w] =>
      destruct (query_cases stmt w) as [(w0 & Hw0 & ->)|(w0 & Hw0 & ->)]
  end; destruct Hw0 as (_ & Hp0 & _ & _); [eauto |].
  cbn [selectDailyCounts fst snd].
  match goal with
  | |- context [query ?stmt w0] =>
      destruct (query_cases stmt w0) as [(w1 & Hw1 & ->)|(w1 & Hw1 & ->)]
  end; destruct Hw1 as (_ & Hp1 & _ & _).
  - exists w1. split; [done | congruence].
  - eexists. split; [by destruct (fst _) |]. simpl. congruence.
Qed.

(** C4. A cycle always returns its summary; every position row it adds
    (after the retention cleanup) is the sample of a fused aircraft
    state that passes the nationality filter and has both a latitude
    and a longitude, which the row keeps rounded to the six decimals
    of their columns; [stored] is the number of rows added, [tracked]
    the number of fused states that pass the nationality filter, and
    [stored ≤ tracked]. *)
Theorem fetchAndStore_summary_counts
    (adsbNet : CoveragePoint → Reply ADSBoneAircraft)
    (openSkyNet : BoundingBox → Reply OpenSkyState) (w : World) :
  let merged := mergedAircraft (Some (fetchFromADSBone adsbNet (now w)))
                  (fetchFromOpenSky openSkyNet) in
  ∃ result w' rows,
    fetchAndStoreRussianAircraft adsbNet openSkyNet w = (Normal result, w')
    ∧ positions w' = positions (snd (cleanupOldData w)) ++ rows
    ∧ Forall (fun row =>
                is_Some (latitude row) ∧ is_Some (longitude row)
                ∧ ∃ a, a ∈ merged
                       ∧ Classifier.isRussianAircraft (hex a) = true
                       ∧ sampleOf a row) rows
    ∧ stored result = length rows
    ∧ tracked result
      = length (List.filter (fun a => Classifier.isRussianAircraft (hex a))
                  merged)
    ∧ stored result ≤ tracked result.
Proof.
  intros merged.
  unfold fetchAndStoreRussianAircraft, mbind, M_bind, clock.
  destruct (cleanupOldData_completes w) as (deleted & w0 & Hclean & Hn0).
  rewrite Hclean. cbn [snd]. rewrite Hn0. fold merged.
  destruct (length merged =? 0) eqn:Hlen.
  - apply Nat.eqb_eq in Hlen. apply nil_length_inv in Hlen. rewrite Hlen.
    exists (mkResult 0 0), w0, []. simpl. rewrite app_nil_r.
    repeat split; [constructor | lia].
  - set (russian := List.filter _ merged).
    destruct (storeAll_effect russian 0 w0)
      as (rows & w1 & -> & Hp1 & _ & Hlen1 & Hall).
    destruct (updateDailyStats_completes w1) as (w2 & -> & Hp2).
    exists (mkResult (length russian) (0 + length rows)), w2, rows.
    cbn [mret M_ret stored tracked]. rewrite Hp2, Hp1.
    split; [done |]. split; [done |].
    split; [| repeat split; lia].
    eapply Forall_impl; [exact Hall |]. intros row (a & Ha & Hrow).
    destruct (sampleOf_coordinates a row Hrow) as [Hla Hlo].
    split; [done |]. split; [done |]. exists a.
    apply list_elem_of_In, filter_In in Ha as [Ha Hru].
    split; [by apply list_elem_of_In | done].
Qed.

(** A cycle over three fused states, two of them of interest and one
    of these with a position: two tracked, one stored.  When the
    upsert of the positioned aircraft throws (second database call of
    the cycle), nothing is stored and the cycle still returns. *)
Lemma fetchAndStore_two_tracked_one_stored :
  fst (fetchAndStoreRussianAircraft cycleNet silentOpenSky knownWorld)
    = Normal (mkResult 2 1)
  ∧ fst (fetchAndStoreRussianAircraft cycleNet silentOpenSky
           (set_pending [false; true] knownWorld))
    = Normal (mkResult 2 0).
Proof. split; vm_compute; reflexivity. Qed.

(** The two casings of one address that the fusion lets through are
    both tracked, and the record of the aircraft is upserted twice in
    the same cycle. *)
Lemma fetchAndStore_counts_one_aircraft_twice :
  fst (fetchAndStoreRussianAircraft twoCasingsNet silentOpenSky knownWorld)
    = Normal (mkResult 2 0)
  ∧ total_sightings <$>
      aircraft (snd (fetchAndStoreRussianAircraft twoCasingsNet silentOpenSky
                       knownWorld)) !! "14abcd"%string
    = Some (total_sightings knownRow + 2)%Z.
Proof. split; vm_compute; reflexivity. Qed.

End IngestFacts.

(** ** The track query *)

Section TrackQueryFacts.
Import Store Tracks Words Samples.

Lemma selectPositions_sameTables (id : string) (w w0 : World) :
  sameTables w w0 →
  fst (selectPositions id w0) = fst (selectPositions id w)
  ∧ snd (selectPositions id w0) = w0.
Proof.
  intros (_ & Hp & _ & Hn). unfold selectPositions, recentPositions.
  cbn [fst snd]. by rewrite Hp, Hn.
Qed.

(** One iteration of the loop over the aircraft: it either throws, or
    leaves the tables alone and pushes the track of the aircraft when
    there is one. *)
Lemma trackAircraft_effect (codes : gset string)
    (centerLat centerLon radiusKm : option Q)
    (a : AircraftRef) (tracks tracks' : list AircraftTrack) (w w1 w2 : World) :
  sameTables w w1 →
  trackAircraft codes centerLat centerLon radiusKm a tracks w1
    = (Normal tracks', w2) →
  sameTables w w2
  ∧ tracks' = tracks
              ++ option_list (trackOf codes centerLat centerLon radiusKm w a).
Proof.
  intros Hw1. unfold trackAircraft, mbind, M_bind.
  destruct (query_cases (selectPositions (ref_icao24 a)) w1)
    as [(w0 & Hw0 & ->)|(w0 & Hw0 & ->)]; [discriminate |].
  pose proof (sameTables_trans _ _ _ Hw1 Hw0) as Hw.
  destruct (selectPositions_sameTables (ref_icao24 a) w w0 Hw) as [-> ->].
  unfold trackOf, qualifyingSamples.
  destruct (2 <=? length _); intros [= <- <-].
  - done.
  - by rewrite app_nil_r.
Qed.

Lemma trackAll_effect (codes : gset string)
    (centerLat centerLon radiusKm : option Q)
    (rows : list AircraftRef) (tracks tracks' : list AircraftTrack)
    (w w1 w2 : World) :
  sameTables w w1 →
  trackAll codes centerLat centerLon radiusKm rows tracks w1
    = (Normal tracks', w2) →
  tracks' = tracks ++ omap (trackOf codes centerLat centerLon radiusKm w) rows.
Proof.
  revert tracks w1. induction rows as [|a rows IH]; intros tracks w1 Hw1.
  - simpl. intros [= <- <-]. by rewrite app_nil_r.
  - cbn [trackAll]. unfold mbind, M_bind.
    destruct (trackAircraft codes centerLat centerLon radiusKm a tracks w1)
      as [[tracks1|] w1'] eqn:Hone; [| discriminate].
    destruct (trackAircraft_effect _ _ _ _ _ _ _ _ _ _ Hw1 Hone) as [Hw1' ->].
    intros Hall. rewrite (IH _ _ Hw1' Hall), <- app_assoc. f_equal.
    simpl. by destruct (trackOf _ _ _ _ _ a).
Qed.

(** The query returns the tracks of the aircraft found, in order,
    whenever no database call throws. *)
Lemma getAllTracksLast24h_tracks (codes : gset string)
    (centerLat centerLon radiusKm : option Q)
    (w w' : World) (tracks : list AircraftTrack) :
  getAllTracksLast24h codes centerLat centerLon radiusKm w = (Normal tracks, w') →
  tracks = omap (trackOf codes centerLat centerLon radiusKm w)
             (fst (selectRecentAircraft w)).
Proof.
  unfold getAllTracksLast24h, mbind, M_bind.
  destruct (query_cases selectRecentAircraft w)
    as [(w0 & Hw0 & ->)|(w0 & Hw0 & ->)]; [discriminate |].
  intros Hall.
  assert (Hsel : fst (selectRecentAircraft w0) = fst (selectRecentAircraft w)
                 ∧ snd (selectRecentAircraft w0) = w0).
  { destruct Hw0 as (Ha & Hp & _ & Hn).
    unfold selectRecentAircraft, recentPositions. cbn [fst snd].
    by rewrite Ha, Hp, Hn. }
  destruct Hsel as [Hrows Hsame]. rewrite Hrows, Hsame in Hall.
  by rewrite (trackAll_effect _ _ _ _ _ _ _ _ _ _ Hw0 Hall).
Qed.

(** With no failure pending the query does return, and leaves the
    store as it was. *)
Lemma trackAll_completes (codes : gset string)
    (centerLat centerLon radiusKm : option Q)
    (rows : list AircraftRef) (tracks : list AircraftTrack) (w : World) :
  pending w = [] →
  ∃ tracks',
    trackAll codes centerLat centerLon radiusKm rows tracks w = (Normal tracks', w).
Proof.
  intros Hp. revert tracks. induction rows as [|a rows IH]; intros tracks.
  - by exists tracks.
  - cbn [trackAll]. unfold mbind, M_bind, trackAircraft, mbind, M_bind.
    rewrite query_runs by done. cbn [selectPositions fst snd].
    destruct (2 <=? length _); cbn [mret M_ret]; apply IH.
Qed.

Lemma getAllTracksLast24h_completes (codes : gset string)
    (centerLat centerLon radiusKm : option Q) (w : World) :
  pending w = [] →
  getAllTracksLast24h codes centerLat centerLon radiusKm w
  = (Normal (omap (trackOf codes centerLat centerLon radiusKm w)
               (fst (selectRecentAircraft w))), w).
Proof.
  intros Hp.
  destruct (trackAll_completes codes centerLat centerLon radiusKm
              (fst (selectRecentAircraft w)) [] w Hp) as [tracks Hall].
  assert (Hrun : getAllTracksLast24h codes centerLat centerLon radiusKm w
                 = (Normal tracks, w)).
  { unfold getAllTracksLast24h, mbind, M_bind. by rewrite query_runs. }
  by rewrite Hrun, (getAllTracksLast24h_tracks _ _ _ _ _ _ _ Hrun).
Qed.

(** C3. In the list the track query returns, every track has at least
    two positions, which are the qualifying samples of its identifier
    (those of the last 24 hours that pass the optional radius filter),
    segmented; so an identifier with one qualifying sample or none has
    no track in the list. *)
Theorem getAllTracksLast24h_needs_two_samples (codes : gset string)
    (centerLat centerLon radiusKm : option Q)
    (w w' : World) (tracks : list AircraftTrack)
    (Hrun : getAllTracksLast24h codes centerLat centerLon radiusKm w
            = (Normal tracks, w')) :
  (∀ t, t ∈ tracks →
     positions t
       = qualifyingSamples centerLat centerLon radiusKm (icao24 t) w
     ∧ 2 ≤ length (positions t)
     ∧ segments t = Track.splitIntoSegments (positions t))
  ∧ (∀ id,
       length (qualifyingSamples centerLat centerLon radiusKm id w) ≤ 1 →
       ∀ t, t ∈ tracks → icao24 t ≠ id).
Proof.
  apply getAllTracksLast24h_tracks in Hrun.
  assert (Hin : ∀ t, t ∈ tracks →
     positions t = qualifyingSamples centerLat centerLon radiusKm (icao24 t) w
     ∧ 2 ≤ length (positions t)
     ∧ segments t = Track.splitIntoSegments (positions t)).
  { intros t Ht. rewrite Hrun in Ht.
    apply list_elem_of_omap in Ht as (a & _ & Ha).
    unfold trackOf in Ha.
    destruct (2 <=? length _) eqn:Hlen; [| discriminate].
    injection Ha as <-. cbn [positions icao24 segments].
    split; [done |]. split; [by apply Nat.leb_le | done]. }
  split; [exact Hin |].
  intros id Hfew t Ht Heq. rewrite <- Heq in Hfew.
  destruct (Hin t Ht) as (Hpos & Htwo & _). rewrite Hpos in Htwo. lia.
Qed.

Lemma getAllTracksLast24h_needs_two_samples_witness :
  ∃ t, getAllTracksLast24h ∅ None None None trackWorld
         = (Normal [t], trackWorld)
       ∧ length (qualifyingSamples None None None "150000" trackWorld) = 1
       ∧ icao24 t = "14abcd"%string
       ∧ icao24 t ≠ "150000"%string
       ∧ 2 ≤ length (positions t).
Proof.
  eexists. split; [vm_compute; reflexivity |].
  split; [vm_compute; reflexivity |].
  split; [reflexivity |].
  match goal with
  | |- context [icao24 ?t] =>
      destruct (getAllTracksLast24h_needs_two_samples
                  ∅ None None None trackWorld trackWorld [t])
        as [Hin Hout]; [vm_compute; reflexivity |];
      split; [apply Hout; [vm_compute; lia | by left] | by apply Hin; left]
  end.
Defined.

End TrackQueryFacts.

(** ** Feed adapters *)

Section AdapterFacts.
Import JS Feeds Words.

Lemma rawIdentifier_truthy (h : option string) :
  truthy h = true ↔ is_Some (rawIdentifier h).
Proof.
  destruct h as [[|c s]|]; simpl; split; try done; intros [x Hx]; discriminate.
Qed.

Lemma rawIdentifier_Some (h : option string) (i : string) :
  rawIdentifier h = Some i → h = Some i.
Proof. destruct h as [[|c s]|]; simpl; congruence. Qed.

(** The de-duplicating loop of [fetchFromADSBone], from a state whose
    set holds the identifiers of the list: it appends a sublist of
    the items, keeps identifiers distinct, takes the first item of each
    new identifier and loses no identifier. *)
Lemma addADSBone_spec (items acc : list ADSBoneAircraft) (seen : gset string) :
  seen = list_to_set (omap (fun a => rawIdentifier (hex a)) acc) →
  ∃ added,
    addADSBone items (acc, seen)
      = (acc ++ added,
         list_to_set (omap (fun a => rawIdentifier (hex a)) (acc ++ added)))
    ∧ added `sublist_of` items
    ∧ (NoDup (omap (fun a => rawIdentifier (hex a)) acc) →
       NoDup (omap (fun a => rawIdentifier (hex a)) (acc ++ added)))
    ∧ (∀ b, b ∈ added →
         ∃ i pre post, hex b = Some i ∧ truthy (hex b) = true ∧ (i ∉ seen)
           ∧ items = pre ++ b :: post
           ∧ ∀ a, a ∈ pre → hex a ≠ hex b)
    ∧ (∀ a, a ∈ items → truthy (hex a) = true →
         ∃ b, b ∈ acc ++ added ∧ hex b = hex a).
Proof.
  revert acc seen. induction items as [|a items IH]; intros acc seen Hseen.
  - exists []. rewrite app_nil_r, <- Hseen. simpl.
    split; [done |]. split; [done |]. split; [done |].
    split; intros b Hb; inversion Hb.
  - assert (Hskip : (rawIdentifier (hex a) = None ∨
                     ∃ i, rawIdentifier (hex a) = Some i ∧ i ∈ seen) →
              addADSBone (a :: items) (acc, seen) = addADSBone items (acc, seen)).
    { simpl. intros [Hn|(i & Hi & Hin)].
      - destruct (hex a) as [[|c s]|]; simpl in *; try done.
      - apply rawIdentifier_Some in Hi as Hhex. rewrite Hhex.
        destruct i; [done |]. simpl.
        by rewrite bool_decide_eq_true_2. }
    destruct (rawIdentifier (hex a)) as [i|] eqn:Hid.
    + apply rawIdentifier_Some in Hid as Hhex.
      assert (Htr : truthy (hex a) = true)
        by (apply rawIdentifier_truthy; rewrite Hid; eauto).
      destruct (decide (i ∈ seen)) as [Hin|Hnin].
      * rewrite Hskip by eauto.
        destruct (IH acc seen Hseen) as (added & Heq & Hsub & Hnd & Hfirst & Hcov).
        exists added. split; [done |]. split; [by apply sublist_cons |].
        split; [done |]. split.
        -- intros b Hb.
           destruct (Hfirst b Hb) as (j & pre & post & Hb1 & Hb2 & Hb3 & Hb4 & Hb5).
           exists j, (a :: pre), post. repeat split; try done.
           ++ by rewrite Hb4.
           ++ intros x Hx. apply elem_of_cons in Hx as [->|Hx]; [| by apply Hb5].
              rewrite Hhex, Hb1. intros [= ->]. done.
        -- intros x Hx Hxt. apply elem_of_cons in Hx as [->|Hx]; [| by apply Hcov].
           assert (Hacc : ∃ b, b ∈ acc ∧ hex b = Some i).
           { rewrite Hseen in Hin. apply elem_of_list_to_set in Hin.
             apply list_elem_of_omap in Hin as (b & Hb & Hbi).
             exists b. split; [done |]. by apply rawIdentifier_Some. }
           destruct Hacc as (b & Hb & Hbi). exists b.
           split; [apply elem_of_app; by left | by rewrite Hhex].
      * assert (Hstep : addADSBone (a :: items) (acc, seen)
                        = addADSBone items (acc ++ [a], {[ i ]} ∪ seen)).
        { simpl. rewrite Hhex. rewrite Hhex in Htr. rewrite Htr.
          by rewrite bool_decide_eq_false_2. }
        assert (Hseen' : {[ i ]} ∪ seen
                 = list_to_set (omap (fun a => rawIdentifier (hex a)) (acc ++ [a]))).
        { rewrite omap_app, list_to_set_app_L, <- Hseen. simpl. rewrite Hid.
          simpl. set_solver. }
        destruct (IH (acc ++ [a]) _ Hseen')
          as (added & Heq & Hsub & Hnd & Hfirst & Hcov).
        exists (a :: added). rewrite Hstep.
        replace (acc ++ a :: added) with ((acc ++ [a]) ++ added)
          by (by rewrite <- app_assoc).
        split; [done |]. split; [by apply sublist_skip |].
        split.
        { intros Hacc. apply Hnd. rewrite omap_app. simpl. rewrite Hid. simpl.
          apply NoDup_app. split; [done |]. split; [| apply NoDup_singleton].
          intros x Hx Hx'. apply list_elem_of_singleton in Hx' as ->.
          apply Hnin. rewrite Hseen. by apply elem_of_list_to_set. }
        split.
        -- intros b Hb. apply elem_of_cons in Hb as [->|Hb].
           ++ exists i, [], items. repeat split; try done.
              intros x Hx. inversion Hx.
           ++ destruct (Hfirst b Hb)
                as (j & pre & post & Hb1 & Hb2 & Hb3 & Hb4 & Hb5).
              exists j, (a :: pre), post. repeat split; try done.
              ** set_solver.
              ** by rewrite Hb4.
              ** intros x Hx. apply elem_of_cons in Hx as [->|Hx]; [| by apply Hb5].
                 rewrite Hhex, Hb1. intros [= ->]. set_solver.
        -- intros x Hx Hxt. apply elem_of_cons in Hx as [->|Hx]; [| by apply Hcov].
           exists a. split; [| done].
           apply elem_of_app. left. apply elem_of_app. right. by left.
    + rewrite Hskip by eauto.
      destruct (IH acc seen Hseen) as (added & Heq & Hsub & Hnd & Hfirst & Hcov).
      exists added. split; [done |]. split; [by apply sublist_cons |].
      split; [done |]. split.
      * intros b Hb.
        destruct (Hfirst b Hb) as (j & pre & post & Hb1 & Hb2 & Hb3 & Hb4 & Hb5).
        exists j, (a :: pre), post. repeat split; try done.
        -- by rewrite Hb4.
        -- intros x Hx. apply elem_of_cons in Hx as [->|Hx]; [| by apply Hb5].
           intros Heq'. rewrite Heq', Hb1 in Hid. rewrite Hb1 in Hb2.
           by destruct j.
      * intros x Hx Hxt. apply elem_of_cons in Hx as [->|Hx]; [| by apply Hcov].
        apply rawIdentifier_truthy in Hxt as [y Hy]. congruence.
Qed.


Lemma addADSBone_app (l1 l2 : list ADSBoneAircraft)
    (st : list ADSBoneAircraft * gset string) :
  addADSBone (l1 ++ l2) st = addADSBone l2 (addADSBone l1 st).
Proof.
  revert st. induction l1 as [|a l1 IH]; intros [acc seen]; [done |].
  simpl. destruct (hex a) as [h|]; [| apply IH].
  destruct (truthy (Some h) && negb (bool_decide (h ∈ seen))); apply IH.
Qed.

(** Requests that fail count as empty bodies: the adapter's loop over
    its requests is its inner loop over everything received. *)
Lemma adsbone_requests_fold {P} (net : P → Reply ADSBoneAircraft)
    (requests : list P) (st : list ADSBoneAircraft * gset string) :
  foldl (fun st point =>
           match net point with
           | Body (Some items) => addADSBone items st
           | _ => st
           end) st requests
  = addADSBone (received net requests) st.
Proof.
  revert st. induction requests as [|p requests IH]; intros st.
  - by destruct st.
  - simpl. unfold received in *. simpl. rewrite addADSBone_app, IH.
    f_equal. unfold bodyOf. destruct (net p) as [| |[items|]]; try by destruct st.
Qed.

Lemma hex_of_identified (l : list ADSBoneAircraft) :
  (∀ b, b ∈ l → truthy (hex b) = true) →
  hex <$> l = Some <$> omap (fun a => rawIdentifier (hex a)) l.
Proof.
  induction l as [|a l IH]; intros Hall; [done |].
  assert (Ha : truthy (hex a) = true) by (apply Hall; by left).
  simpl. destruct (hex a) as [[|c s]|] eqn:Hhex; try discriminate.
  simpl. f_equal. apply IH. intros b Hb. apply Hall. by right.
Qed.

(** What the inner loop yields from an empty state, in the terms a
    caller sees. *)
Lemma addADSBone_from_empty (items : list ADSBoneAircraft) :
  let out := fst (addADSBone items ([], ∅)) in
  out `sublist_of` items
  ∧ NoDup (hex <$> out)
  ∧ (∀ b, b ∈ out →
       truthy (hex b) = true
       ∧ ∃ pre post, items = pre ++ b :: post ∧ ∀ a, a ∈ pre → hex a ≠ hex b)
  ∧ (∀ a, a ∈ items → truthy (hex a) = true → ∃ b, b ∈ out ∧ hex b = hex a).
Proof.
  destruct (addADSBone_spec items [] ∅) as (added & Heq & Hsub & Hnd & Hfirst & Hcov);
    [set_solver |].
  simpl in Heq |- *. rewrite Heq. cbn [fst].
  assert (Htruthy : ∀ b, b ∈ added → truthy (hex b) = true).
  { intros b Hb. by destruct (Hfirst b Hb) as (i & pre & post & _ & Htr & _). }
  split; [done |]. split.
  { rewrite hex_of_identified by done.
    apply NoDup_fmap; [intros x y; congruence |]. apply Hnd. constructor. }
  split; [| done].
  intros b Hb. split; [by apply Htruthy |].
  destruct (Hfirst b Hb) as (i & pre & post & _ & _ & _ & Hsplit & Hpre).
  by exists pre, post.
Qed.

(** X1. [fetchFromADSBone] returns, in the order received, the first
    aircraft of every truthy [hex] among the bodies of its successful
    requests: the result is a sublist of what was received, holds no
    two entries with the same [hex], holds only entries with a truthy
    [hex], each the first of its [hex], and misses no [hex] that was
    received; a request that fails counts as an empty body; [total] is
    the length of the list. *)
Theorem fetchFromADSBone_first_of_each_hex
    (net : CoveragePoint → Reply ADSBoneAircraft) (now : Z) :
  let out := ac (fetchFromADSBone net now) in
  let got := received net coveragePoints in
  out `sublist_of` got
  ∧ NoDup (hex <$> out)
  ∧ (∀ b, b ∈ out →
       truthy (hex b) = true
       ∧ ∃ pre post, got = pre ++ b :: post ∧ ∀ a, a ∈ pre → hex a ≠ hex b)
  ∧ (∀ a, a ∈ got → truthy (hex a) = true → ∃ b, b ∈ out ∧ hex b = hex a)
  ∧ total (fetchFromADSBone net now) = length out.
Proof.
  intros out got.
  assert (Hout : out = fst (addADSBone got ([], ∅))).
  { subst out got. unfold fetchFromADSBone.
    rewrite (adsbone_requests_fold net coveragePoints).
    by destruct (addADSBone _ _). }
  pose proof (addADSBone_from_empty got) as Hspec. simpl in Hspec.
  rewrite <- Hout in Hspec. destruct Hspec as (H1 & H2 & H3 & H4).
  split; [done |]. split; [done |]. split; [done |]. split; [done |].
  subst out. unfold fetchFromADSBone.
  by destruct (foldl _ _ _).
Qed.

Lemma addOpenSky_as_addADSBone (states : list OpenSkyState)
    (st : list ADSBoneAircraft * gset string) :
  addOpenSky states st = addADSBone (fromState <$> states) st.
Proof.
  revert st. induction states as [|s states IH]; intros [acc seen]; [done |].
  simpl. destruct (state0 s) as [h|] eqn:Hs; [| apply IH].
  destruct (truthy (Some h) && negb (bool_decide (h ∈ seen))); [| apply IH].
  rewrite IH. do 3 f_equal. unfold fromState. by rewrite Hs.
Qed.

Lemma opensky_requests_fold {P} (net : P → Reply OpenSkyState)
    (requests : list P) (st : list ADSBoneAircraft * gset string) :
  foldl (fun st bbox =>
           match net bbox with
           | Body (Some states) => addOpenSky states st
           | _ => st
           end) st requests
  = addADSBone (fromState <$> received net requests) st.
Proof.
  revert st. induction requests as [|p requests IH]; intros st.
  - by destruct st.
  - simpl. unfold received in *. simpl.
    rewrite fmap_app, addADSBone_app, IH. f_equal.
    unfold bodyOf. destruct (net p) as [| |[items|]]; try by destruct st.
    apply addOpenSky_as_addADSBone.
Qed.

(** X2. [fetchFromOpenSky] returns one aircraft state per truthy
    address among the bodies of its successful requests, built from
    the first state vector received with that address: no two entries
    share a [hex], no received address is missed, and every entry is
    tagged ['opensky'], copies its latitude from index 6, its
    longitude from index 5 and its altitudes, speed, track, rate,
    squawk and category from indices 7, 13, 9, 10, 11, 14 and 17 as
    they are, has the trimmed index 1 as its callsign, and carries
    neither a type nor a description nor a geometric rate. *)
Theorem fetchFromOpenSky_first_of_each_hex
    (net : BoundingBox → Reply OpenSkyState) :
  let out := fetchFromOpenSky net in
  let got := received net boundingBoxes in
  out `sublist_of` (fromState <$> got)
  ∧ NoDup (hex <$> out)
  ∧ (∀ b, b ∈ out →
       truthy (hex b) = true
       ∧ _source b = Some "opensky"%string
       ∧ t b = None ∧ desc b = None ∧ geom_rate b = None
       ∧ ∃ pre s post,
           got = pre ++ s :: post
           ∧ (∀ s', s' ∈ pre → state0 s' ≠ state0 s)
           ∧ hex b = state0 s
           ∧ flight b = trimmed (state1 s)
           ∧ lat b = state6 s ∧ lon b = state5 s
           ∧ alt_baro b = state7 s ∧ alt_geom b = state13 s
           ∧ gs b = state9 s ∧ track b = state10 s
           ∧ baro_rate b = state11 s
           ∧ squawk b = state14 s ∧ category b = state17 s)
  ∧ (∀ s, s ∈ got → truthy (state0 s) = true →
       ∃ b, b ∈ out ∧ hex b = state0 s).
Proof.
  intros out got.
  assert (Hout : out = fst (addADSBone (fromState <$> got) ([], ∅))).
  { subst out got. unfold fetchFromOpenSky.
    by rewrite (opensky_requests_fold net boundingBoxes). }
  pose proof (addADSBone_from_empty (fromState <$> got)) as Hspec.
  simpl in Hspec. rewrite <- Hout in Hspec.
  destruct Hspec as (H1 & H2 & H3 & H4).
  split; [done |]. split; [done |]. split.
  - intros b Hb. destruct (H3 b Hb) as (Htr & pre & post & Hsplit & Hfirst).
    split; [done |].
    apply fmap_app_inv in Hsplit as (pre0 & rest0 & -> & Hrest & Hgot).
    symmetry in Hrest.
    apply fmap_cons_inv in Hrest as (s & post0 & -> & -> & ->).
    cbn [fromState _source t desc geom_rate].
    do 4 (split; [done |]).
    exists pre0, s, post0. split; [done |]. split; [| done].
    intros s' Hs'. apply (Hfirst (fromState s')).
    apply list_elem_of_fmap. by exists s'.
  - intros s Hs Htr.
    destruct (H4 (fromState s)) as (b & Hb & Hhex); [| done |].
    + apply list_elem_of_fmap. by exists s.
    + by exists b.
Qed.

End AdapterFacts.

(** ** Fusion, for all adapter outputs *)

Section FusionExtras.
Import JS Feeds Words Samples.

(** X3. The fused list is the ADSB.one aircraft that have an
    identifier, in their order, followed by OpenSky aircraft; its
    identifiers are exactly those of the two adapters; and an entry
    under an identifier that ADSB.one reported is an ADSB.one entry,
    never an OpenSky one. *)
Theorem mergedAircraft_union_adsbone_first
    (d : ADSBoneResponse) (os : list ADSBoneAircraft) :
  let merged := mergedAircraft (Some d) os in
  (∃ added, merged = List.filter (fun a => truthy (hex a)) (ac d) ++ added
            ∧ ∀ a, a ∈ added → a ∈ os)
  ∧ (∀ i, i ∈ identifiers merged ↔
          i ∈ identifiers (ac d) ∨ i ∈ identifiers os)
  ∧ (∀ a i, a ∈ merged → identifierOf a = Some i →
            i ∈ identifiers (ac d) → a ∈ ac d).
Proof.
  intros merged.
  destruct (mergedAircraft_spec d os) as (added & Heq & Hadd & Hset & _).
  fold merged in Heq, Hset.
  split; [exists added; split; [done | intros a Ha; by destruct (Hadd a Ha)] |].
  split.
  - intros i.
    assert (Hi : i ∈ (list_to_set (identifiers merged) : gset string) ↔
                 i ∈ (list_to_set (identifiers (ac d)) ∪
                      list_to_set (identifiers os) : gset string))
      by (by rewrite Hset).
    rewrite elem_of_union, !elem_of_list_to_set in Hi. exact Hi.
  - intros a i Ha Hid Hin. rewrite Heq in Ha.
    apply elem_of_app in Ha as [Ha|Ha].
    + apply list_elem_of_In, filter_In in Ha as [Ha _]. by apply list_elem_of_In.
    + destruct (Hadd a Ha) as (_ & j & Hj & Hnj). congruence.
Qed.

(** X4. When the ADSB.one output holds no two aircraft whose
    identifiers agree up to case, the fused list holds one entry per
    lower-cased identifier, whatever OpenSky returned. *)
Theorem mergedAircraft_one_entry_per_identifier
    (d : ADSBoneResponse) (os : list ADSBoneAircraft)
    (Hadsb : NoDup (identifiers (ac d))) :
  NoDup (identifiers (mergedAircraft (Some d) os)).
Proof.
  destruct (mergedAircraft_spec d os) as (added & _ & _ & _ & Hnd).
  by apply Hnd.
Qed.

Lemma mergedAircraft_one_entry_per_identifier_witness :
  NoDup (identifiers
           (mergedAircraft
              (Some (mkResponse [aircraftNamed "14abcd" "AFL101"] 1 0 0))
              [aircraftNamed "14ABCD" "AFL9"; aircraftNamed "150001" "RSD1";
               aircraftNamed "150001" "RSD2"])).
Proof.
  apply mergedAircraft_one_entry_per_identifier.
  vm_compute. apply NoDup_singleton.
Defined.

End FusionExtras.

(** ** Segmentation, for all inputs *)

Section SegmentExtras.
Import Track Words Samples.

Lemma runsFrom_head (rest : list Position) (prev : Position)
    (run : list Position) :
  run ≠ [] →
  ∃ r tl, runsFrom prev rest run = r :: tl ∧ head r = head run.
Proof.
  revert prev run. induction rest as [|curr rest IH]; intros prev run Hne.
  - by exists run, [].
  - simpl. destruct (gapExceeds prev curr).
    + by eexists run, _.
    + destruct (IH curr (run ++ [curr])) as (r & tl & Heq & Hhead);
        [by destruct run |].
      exists r, tl. split; [done |]. rewrite Hhead. by destruct run.
Qed.

Lemma closeKnit_snoc (run : list Position) (prev curr : Position) :
  closeKnit run → last run = Some prev → gapExceeds prev curr = false →
  closeKnit (run ++ [curr]).
Proof.
  intros Hck Hlast Hgap i p q Hp Hq.
  destruct (decide (S i < length run)) as [Hlt|Hge].
  - rewrite lookup_app_l in Hp by lia. rewrite lookup_app_l in Hq by lia.
    by eapply Hck.
  - assert (Hi : S i = length run).
    { apply lookup_lt_Some in Hq. rewrite length_app in Hq. simpl in Hq. lia. }
    rewrite lookup_app_l in Hp by lia.
    rewrite lookup_app_r in Hq by lia.
    replace (S i - length run) with 0 in Hq by lia. injection Hq as <-.
    rewrite last_lookup in Hlast.
    replace (Init.Nat.pred (length run)) with i in Hlast by lia.
    congruence.
Qed.

Lemma runsFrom_spec (rest : list Position) (prev : Position)
    (run : list Position) :
  closeKnit run → last run = Some prev →
  Forall closeKnit (runsFrom prev rest run) ∧ allApart (runsFrom prev rest run).
Proof.
  revert prev run. induction rest as [|curr rest IH]; intros prev run Hck Hlast.
  - simpl. split; [by apply Forall_singleton | done].
  - simpl. destruct (gapExceeds prev curr) eqn:Hgap.
    + destruct (IH curr [curr]) as [Hall Hap].
      { intros i p q Hp Hq. destruct i; discriminate. }
      { done. }
      split; [by apply Forall_cons |].
      destruct (runsFrom_head rest curr [curr]) as (r & tl & Heq & Hhead); [done |].
      rewrite Heq in Hap |- *. simpl. split; [| done].
      exists prev, curr. by rewrite Hhead.
    + apply IH.
      * by eapply closeKnit_snoc.
      * by rewrite last_snoc.
Qed.

(** X5. For every input the segmenter cuts at the right places: inside
    an emitted segment no two consecutive samples are more than 300
    seconds apart, and between the last sample of a segment and the
    first sample of the next one there are more than 300 seconds. *)
Theorem splitIntoSegments_cuts_at_gaps (positions0 : list Position) :
  Forall (fun s => closeKnit (positions s)) (splitIntoSegments positions0)
  ∧ allApart (positions <$> splitIntoSegments positions0).
Proof.
  assert (Hruns : Forall closeKnit (positions <$> splitIntoSegments positions0)
                  ∧ allApart (positions <$> splitIntoSegments positions0)).
  { rewrite splitIntoSegments_runs.
    destruct positions0 as [|first rest]; [by split |].
    apply runsFrom_spec; [| done].
    intros i p q Hp Hq. destruct i; discriminate. }
  destruct Hruns as [Hknit Hapart]. split; [| done].
  apply Forall_forall. intros s Hs. rewrite Forall_forall in Hknit.
  apply Hknit, list_elem_of_fmap. by exists s.
Qed.


Lemma segmentStep_gapRecorded (prev curr : Position)
    (segments : list TrackSegment) (currentSegment : list Position) :
  last currentSegment = Some prev →
  lastGapRecorded segments currentSegment →
  lastGapRecorded (fst (segmentStep prev curr (segments, currentSegment)))
                  (snd (segmentStep prev curr (segments, currentSegment)))
  ∧ last (snd (segmentStep prev curr (segments, currentSegment))) = Some curr.
Proof.
  intros Hlast Hrec. unfold segmentStep. fold (gapExceeds prev curr).
  destruct (gapExceeds prev curr) eqn:Hgap; cbn [fst snd].
  - split; [| done]. right.
    destruct currentSegment as [|p0 cur]; [discriminate |].
    cbn [length Nat.leb].
    eexists segments, _, _, prev, curr. rewrite <- app_assoc.
    split; [reflexivity |]. by cbn.
  - split; [| by rewrite last_snoc].
    destruct Hrec as [->|(front & r & m & p & q & -> & Hp & Hq & Hpq & Hm)];
      [by left |].
    right. exists front, r, m, p, q. split; [done |]. split; [done |].
    split; [by destruct currentSegment | done].
Qed.

Lemma segmentLoop_gapRecorded (rest : list Position) (prev : Position)
    (segments : list TrackSegment) (currentSegment : list Position) :
  last currentSegment = Some prev →
  lastGapRecorded segments currentSegment →
  lastGapRecorded (fst (segmentLoop prev rest (segments, currentSegment)))
                  (snd (segmentLoop prev rest (segments, currentSegment))).
Proof.
  revert prev segments currentSegment.
  induction rest as [|curr rest IH]; intros prev segments currentSegment Hl Hr.
  - done.
  - cbn [segmentLoop].
    destruct (segmentStep_gapRecorded prev curr segments currentSegment Hl Hr)
      as [Hr' Hl'].
    destruct (segmentStep prev curr (segments, currentSegment)) as [segs' cur'].
    by apply IH.
Qed.

Lemma addFinalSegment_last_mark (segments : list TrackSegment)
    (currentSegment : list Position) :
  currentSegment ≠ [] → loopShape segments →
  lastGapRecorded segments currentSegment →
  ∃ front lst,
    List.filter (fun s => 1 <=? length (positions s))
      (addFinalSegment (segments, currentSegment)) = front ++ [lst]
    ∧ Forall unmarked front
    ∧ positions lst = currentSegment
    ∧ match last front with
      | None => unmarked lst
      | Some r =>
          hasGapBefore lst = true
          ∧ ∃ p q, last (positions r) = Some p
                   ∧ head (positions lst) = Some q
                   ∧ gapExceeds p q = true
                   ∧ gapDurationSeconds lst = Some (gapSecondsBetween p q)
      end.
Proof.
  intros Hne [Hall Hend] Hrec. unfold addFinalSegment.
  destruct currentSegment as [|p0 cur]; [done |]. cbn [length Nat.leb].
  destruct Hend as [->|(front0 & r & m & -> & Hr & Hm & Hflag)].
  - simpl. eexists [], _. split; [reflexivity |].
    split; [constructor |]. split; [done |]. by split.
  - destruct Hrec as [Hnil|(front1 & r1 & m1 & p & q & Heq & Hp & Hq & Hpq & Hdur)].
    { by destruct front0. }
    assert (front0 = front1 ∧ r = r1 ∧ m = m1) as (<- & <- & <-).
    { replace (front0 ++ [r; m]) with ((front0 ++ [r]) ++ [m]) in Heq
        by (by rewrite <- app_assoc).
      replace (front1 ++ [r1; m1]) with ((front1 ++ [r1]) ++ [m1]) in Heq
        by (by rewrite <- app_assoc).
      apply app_inj_tail in Heq as [Heq ->].
      apply app_inj_tail in Heq as [-> ->]. done. }
    replace (front0 ++ [r; m]) with ((front0 ++ [r]) ++ [m])
      by (by rewrite <- app_assoc).
    rewrite last_snoc, removelast_last, Hm. cbn [length Nat.eqb].
    rewrite length_app. cbn [length].
    replace (0 <? length (front0 ++ [r]) + 1) with true
      by (symmetry; apply Nat.ltb_lt; lia).
    assert (Hrlen : match length (positions r) with 0 => false | S _ => true end
                    = true)
      by (by destruct (positions r)).
    cbn [andb]. rewrite !List.filter_app.
    cbn [List.filter]. rewrite Hrlen. cbn [positions length Nat.leb].
    eexists _, _. split; [reflexivity |].
    split.
    + apply Forall_app. split.
      * apply filter_nonempty_unmarked.
        by apply Forall_app in Hall as [Hfront _].
      * apply Forall_singleton.
        apply Forall_app in Hall as [_ Hrm].
        apply Forall_cons in Hrm as [[Hr'|Hr'] _]; done.
    + split; [done |]. rewrite last_snoc. split; [done |].
      exists p, q. by cbn.
Qed.

(** X6. Which segments carry the gap mark, for every non-empty input:
    all segments but the last are unmarked; a single segment is
    unmarked; and with two segments or more the last one has
    [hasGapBefore = true] and, as its duration, the gap between the
    last sample of the segment before it and its own first sample,
    which exceeds the threshold. *)
Theorem splitIntoSegments_marks_only_last_segment
    (first : Position) (rest : list Position) :
  ∃ front lst,
    splitIntoSegments (first :: rest) = front ++ [lst]
    ∧ Forall unmarked front
    ∧ match last front with
      | None => unmarked lst
      | Some r =>
          hasGapBefore lst = true
          ∧ ∃ p q, last (positions r) = Some p
                   ∧ head (positions lst) = Some q
                   ∧ gapExceeds p q = true
                   ∧ gapDurationSeconds lst = Some (gapSecondsBetween p q)
      end.
Proof.
  unfold splitIntoSegments.
  assert (Hsh0 : loopShape []) by (split; [constructor | by left]).
  assert (Hrec0 : lastGapRecorded [] [first]) by (by left).
  pose proof (segmentLoop_shape rest first [] [first] ltac:(done) Hsh0) as Hsh.
  pose proof (segmentLoop_gapRecorded rest first [] [first] eq_refl Hrec0) as Hrec.
  destruct (segmentLoop_held rest first [] [first] ltac:(done)) as [_ Hne].
  destruct (segmentLoop first rest ([], [first])) as [segments cur].
  destruct (addFinalSegment_last_mark segments cur Hne Hsh Hrec)
    as (front & lst & Heq & Hun & _ & Hlast).
  by exists front, lst.
Qed.

End SegmentExtras.

(** ** The distance *)

Section DistanceExtras.
Import Track Tracks Words.
Local Open Scope R_scope.

Lemma haversineDistance_as_A (lat1 lon1 lat2 lon2 : R) :
  haversineDistance lat1 lon1 lat2 lon2
  = 6371 * (2 * atan2 (sqrt (haversineA lat1 lon1 lat2 lon2))
                      (sqrt (1 - haversineA lat1 lon1 lat2 lon2))).
Proof. reflexivity. Qed.

Lemma haversineA_sym (lat1 lon1 lat2 lon2 : R) :
  haversineA lat1 lon1 lat2 lon2 = haversineA lat2 lon2 lat1 lon1.
Proof.
  unfold haversineA.
  replace ((lat2 - lat1) * PI / 180 / 2) with (- ((lat1 - lat2) * PI / 180 / 2))
    by lra.
  replace ((lon2 - lon1) * PI / 180 / 2) with (- ((lon1 - lon2) * PI / 180 / 2))
    by lra.
  rewrite !sin_neg. ring.
Qed.

(** X7. The distance is symmetric in its two points, and a point is at
    distance zero from itself. *)
Theorem haversineDistance_symmetric (lat1 lon1 lat2 lon2 : R) :
  haversineDistance lat1 lon1 lat2 lon2 = haversineDistance lat2 lon2 lat1 lon1
  ∧ haversineDistance lat1 lon1 lat1 lon1 = 0.
Proof.
  split; [| apply haversineDistance_same_point].
  by rewrite !haversineDistance_as_A, haversineA_sym.
Qed.

End DistanceExtras.

(** ** The track query, further *)

Section TrackQueryExtras.
Import Store Tracks Words Samples.

(** X9. Enlarging the radius of the filter never drops a sample: what
    passes a filter around a centre passes every filter of a larger
    radius around the same centre, in the same order. *)
Theorem filterPositions_grows_with_radius
    (centerLat centerLon radiusKm radiusKm' : Q) (rows : list Track.Position)
    (Hradius : (radiusKm <= radiusKm')%Q) :
  filterPositions (Some centerLat) (Some centerLon) (Some radiusKm) rows
    `sublist_of`
  filterPositions (Some centerLat) (Some centerLon) (Some radiusKm') rows.
Proof.
  apply Qle_Rle in Hradius. cbn [filterPositions].
  induction rows as [|pos rows IH]; [constructor |].
  cbn [List.filter].
  destruct (Track.withinRadius centerLat centerLon radiusKm pos) eqn:Hin.
  - assert (Hin' : Track.withinRadius centerLat centerLon radiusKm' pos = true).
    { unfold Track.withinRadius in *.
      destruct (Track.latitude pos); [| done].
      destruct (Track.longitude pos); [| done].
      destruct (Rle_dec _ (Q2R radiusKm)) as [Hle|]; [| done].
      destruct (Rle_dec _ (Q2R radiusKm')) as [|Hn]; [done | lra]. }
    rewrite Hin'. by apply sublist_skip.
  - destruct (Track.withinRadius centerLat centerLon radiusKm' pos);
      [by apply sublist_cons | done].
Qed.

Lemma filterPositions_grows_with_radius_witness :
  filterPositions (Some 60%Q) (Some 30%Q) (Some 100%Q)
    [Track.mkPosition (Some 60%Q) (Some 30%Q) None None None 0;
     Track.mkPosition None (Some 30%Q) None None None 1000]
    `sublist_of`
  filterPositions (Some 60%Q) (Some 30%Q) (Some 250%Q)
    [Track.mkPosition (Some 60%Q) (Some 30%Q) None None None 0;
     Track.mkPosition None (Some 30%Q) None None None 1000].
Proof.
  apply filterPositions_grows_with_radius. vm_compute. discriminate.
Defined.

Lemma recentIdentifiers (w : World) :
  ref_icao24 <$> fst (selectRecentAircraft w)
  = merge_sort icao24_asc (remove_dups (Store.icao24 <$> recentPositions w)).
Proof.
  unfold selectRecentAircraft. cbn [fst].
  rewrite <- list_fmap_compose. apply list_fmap_id.
Qed.

Lemma recentIdentifiers_NoDup (w : World) :
  NoDup (ref_icao24 <$> fst (selectRecentAircraft w)).
Proof.
  rewrite recentIdentifiers, merge_sort_Permutation. apply NoDup_remove_dups.
Qed.

Lemma recentIdentifiers_elem (w : World) (id : string) :
  id ∈ ref_icao24 <$> fst (selectRecentAircraft w) ↔
  ∃ row, row ∈ recentPositions w ∧ Store.icao24 row = id.
Proof.
  rewrite recentIdentifiers, merge_sort_Permutation, elem_of_remove_dups,
    list_elem_of_fmap.
  split; intros (row & H1 & H2); exists row; done.
Qed.

Lemma trackOf_icao24 (codes : gset string) (cla clo r : option Q)
    (w : World) (a : AircraftRef) (t : AircraftTrack) :
  trackOf codes cla clo r w a = Some t → icao24 t = ref_icao24 a.
Proof.
  unfold trackOf. destruct (2 <=? length _); [| done]. by intros [= <-].
Qed.

Lemma omap_keys_NoDup {A B K} (f : A → option B) (ka : A → K) (kb : B → K)
    (l : list A) :
  (∀ a b, f a = Some b → kb b = ka a) →
  NoDup (ka <$> l) → NoDup (kb <$> omap f l).
Proof.
  intros Hkey. induction l as [|a l IH]; intros Hnd; [constructor |].
  apply NoDup_cons in Hnd as [Hnotin Hnd]. simpl.
  destruct (f a) as [b|] eqn:Hfa; [| by apply IH].
  simpl. apply NoDup_cons. split; [| by apply IH].
  intros Hin. apply Hnotin.
  apply list_elem_of_fmap in Hin as (b' & Hb' & Hin).
  apply list_elem_of_omap in Hin as (a' & Ha' & Hfa').
  apply list_elem_of_fmap. exists a'. split; [| done].
  rewrite <- (Hkey a b Hfa), Hb'. by apply Hkey.
Qed.

Lemma qualifyingSamples_recent (cla clo r : option Q) (id : string) (w : World) :
  qualifyingSamples cla clo r id w ≠ [] →
  ∃ row, row ∈ recentPositions w ∧ Store.icao24 row = id.
Proof.
  unfold qualifyingSamples, selectPositions. cbn [fst]. intros Hne.
  destruct (rowsOf id (recentPositions w)) as [|row rows] eqn:Hrows.
  - exfalso. apply Hne. cbn. unfold filterPositions. by destruct cla, clo, r.
  - exists row.
    assert (Hin : In row (rowsOf id (recentPositions w)))
      by (rewrite Hrows; by left).
    unfold rowsOf in Hin. apply filter_In in Hin as [Hin Heq].
    split; [by apply list_elem_of_In | by apply String.eqb_eq].
Qed.


(** X10. The track query returns at most one track per identifier, and
    an identifier has a track in the list exactly when at least two of
    its samples qualify; the track's military flag is [isMilitary] of
    its identifier and its type that of the aircraft record, if any. *)
Theorem getAllTracksLast24h_one_track_per_identifier (codes : gset string)
    (centerLat centerLon radiusKm : option Q)
    (w w' : World) (tracks : list AircraftTrack)
    (Hrun : getAllTracksLast24h codes centerLat centerLon radiusKm w
            = (Normal tracks, w')) :
  NoDup (icao24 <$> tracks)
  ∧ (∀ id, (∃ t, t ∈ tracks ∧ icao24 t = id) ↔
           2 ≤ length (qualifyingSamples centerLat centerLon radiusKm id w))
  ∧ (∀ t, t ∈ tracks →
       is_military t = Classifier.isMilitary codes (Some (icao24 t))
       ∧ aircraft_type t
         = (Store.aircraft w !! icao24 t) ≫= Store.aircraft_type).
Proof.
  apply getAllTracksLast24h_tracks in Hrun. subst tracks.
  split.
  { eapply omap_keys_NoDup; [apply trackOf_icao24 | apply recentIdentifiers_NoDup]. }
  split.
  - intros id. split.
    + intros (t & Ht & <-).
      apply list_elem_of_omap in Ht as (a & _ & Ha). unfold trackOf in Ha.
      destruct (2 <=? length _) eqn:Hlen; [| discriminate].
      injection Ha as <-. cbn [icao24]. by apply Nat.leb_le.
    + intros Htwo.
      destruct (qualifyingSamples_recent centerLat centerLon radiusKm id w)
        as (row & Hrow & Hid).
      { intros Hnil. rewrite Hnil in Htwo. simpl in Htwo. lia. }
      assert (Hin : id ∈ ref_icao24 <$> fst (selectRecentAircraft w))
        by (apply recentIdentifiers_elem; eauto).
      apply list_elem_of_fmap in Hin as (a & -> & Ha).
      apply Nat.leb_le in Htwo.
      eexists. split.
      * apply list_elem_of_omap. exists a. split; [done |].
        unfold trackOf. rewrite Htwo. reflexivity.
      * done.
  - intros t Ht. apply list_elem_of_omap in Ht as (a & Ha & Hta).
    unfold trackOf in Hta. destruct (2 <=? length _); [| discriminate].
    injection Hta as <-. cbn [is_military icao24 aircraft_type].
    split; [done |].
    unfold selectRecentAircraft in Ha. cbn [fst] in Ha.
    apply list_elem_of_fmap in Ha as (id & -> & _). done.
Qed.

Lemma getAllTracksLast24h_one_track_per_identifier_witness :
  ∃ t, getAllTracksLast24h ∅ None None None trackWorld
         = (Normal [t], trackWorld)
       ∧ NoDup [icao24 t]
       ∧ ∃ t', t' ∈ [t] ∧ icao24 t' = "14abcd"%string.
Proof.
  eexists. split; [vm_compute; reflexivity |].
  match goal with
  | |- context [NoDup [icao24 ?t]] =>
      destruct (getAllTracksLast24h_one_track_per_identifier
                  ∅ None None None trackWorld trackWorld [t])
        as (Hnd & Hiff & _); [vm_compute; reflexivity |];
      split; [exact Hnd | apply Hiff; vm_compute; lia]
  end.
Defined.

Lemma trackAll_sameTables (codes : gset string) (cla clo r : option Q)
    (rows : list AircraftRef) (tracks : list AircraftTrack) (w w1 : World) :
  sameTables w w1 →
  sameTables w (snd (trackAll codes cla clo r rows tracks w1)).
Proof.
  revert tracks w1. induction rows as [|a rows IH]; intros tracks w1 Hw1; [done |].
  cbn [trackAll]. unfold mbind, M_bind, trackAircraft, mbind, M_bind.
  destruct (query_cases (selectPositions (ref_icao24 a)) w1)
    as [(w0 & Hw0 & ->)|(w0 & Hw0 & ->)];
    pose proof (sameTables_trans _ _ _ Hw1 Hw0) as Hw; [done |].
  cbn [selectPositions fst snd].
  destruct (2 <=? length _); cbn [mret M_ret]; by apply IH.
Qed.

(** X11. The track query only reads: whether it returns or a database
    call throws, the three tables and the clock are as before. *)
Theorem getAllTracksLast24h_reads_only (codes : gset string)
    (centerLat centerLon radiusKm : option Q) (w : World) :
  let w' := snd (getAllTracksLast24h codes centerLat centerLon radiusKm w) in
  Store.aircraft w' = Store.aircraft w
  ∧ Store.positions w' = Store.positions w
  ∧ Store.daily_stats w' = Store.daily_stats w
  ∧ Store.now w' = Store.now w.
Proof.
  unfold getAllTracksLast24h, mbind, M_bind.
  destruct (query_cases selectRecentAircraft w)
    as [(w0 & Hw0 & ->)|(w0 & Hw0 & ->)]; [exact Hw0 |].
  cbn [selectRecentAircraft fst snd].
  by apply trackAll_sameTables.
Qed.

Lemma timestamp_asc_transitive : Transitive timestamp_asc.
Proof. intros a b c. unfold timestamp_asc. lia. Qed.

Lemma timestamp_asc_total : Total timestamp_asc.
Proof. intros a b. unfold timestamp_asc. lia. Qed.

Lemma StronglySorted_filter {A} (R : relation A) (f : A → bool) (l : list A) :
  StronglySorted R l → StronglySorted R (List.filter f l).
Proof.
  induction 1 as [|a l Hs IH Hall]; [constructor |].
  simpl. destruct (f a); [| done].
  constructor; [done |].
  apply Forall_forall. intros x Hx.
  apply list_elem_of_In, filter_In in Hx as [Hx _].
  rewrite Forall_forall in Hall. by apply Hall, list_elem_of_In.
Qed.

(** The samples of an identifier come in time order and from the last
    24 hours, with or without the radius filter. *)
Lemma qualifyingSamples_ordered (cla clo r : option Q) (id : string) (w : World) :
  StronglySorted (fun p q => (Track.timestamp p ≤ Track.timestamp q)%Z)
    (qualifyingSamples cla clo r id w)
  ∧ Forall (fun p => (now w - DAY_MS < Track.timestamp p)%Z)
      (qualifyingSamples cla clo r id w).
Proof.
  unfold qualifyingSamples, selectPositions. cbn [fst].
  set (sorted := merge_sort timestamp_asc (rowsOf id (recentPositions w))).
  set (sel := fun p => Track.mkPosition _ _ _ _ _ _).
  assert (Hsorted : StronglySorted
            (fun p q => (Track.timestamp p ≤ Track.timestamp q)%Z)
            (sel <$> sorted)).
  { apply (StronglySorted_fmap sel timestamp_asc); [by intros x y |].
    apply StronglySorted_merge_sort;
      [apply timestamp_asc_transitive | apply timestamp_asc_total]. }
  assert (Hrecent : Forall (fun p => (now w - DAY_MS < Track.timestamp p)%Z)
                      (sel <$> sorted)).
  { apply Forall_fmap, Forall_forall. intros row Hrow.
    subst sorted. rewrite merge_sort_Permutation in Hrow.
    apply list_elem_of_In in Hrow. unfold rowsOf in Hrow.
    apply filter_In in Hrow as [Hrow _]. unfold recentPositions in Hrow.
    apply filter_In in Hrow as [_ Hrow]. simpl. lia. }
  unfold filterPositions. destruct cla, clo, r; try done.
  split; [by apply StronglySorted_filter |].
  apply Forall_forall. intros p Hp.
  apply list_elem_of_In, filter_In in Hp as [Hp _].
  rewrite Forall_forall in Hrecent. by apply Hrecent, list_elem_of_In.
Qed.

(** X12. The positions of every returned track are in time order
    (oldest first) and all newer than 24 hours. *)
Theorem getAllTracksLast24h_positions_in_time_order (codes : gset string)
    (centerLat centerLon radiusKm : option Q)
    (w w' : World) (tracks : list AircraftTrack)
    (Hrun : getAllTracksLast24h codes centerLat centerLon radiusKm w
            = (Normal tracks, w')) :
  ∀ t, t ∈ tracks →
    StronglySorted (fun p q => (Track.timestamp p ≤ Track.timestamp q)%Z)
      (positions t)
    ∧ Forall (fun p => (now w - DAY_MS < Track.timestamp p)%Z) (positions t).
Proof.
  apply getAllTracksLast24h_tracks in Hrun. subst tracks. intros t Ht.
  apply list_elem_of_omap in Ht as (a & _ & Ha). unfold trackOf in Ha.
  destruct (2 <=? length _); [| discriminate].
  injection Ha as <-. cbn [positions]. apply qualifyingSamples_ordered.
Qed.

Lemma getAllTracksLast24h_positions_in_time_order_witness :
  ∃ t, getAllTracksLast24h ∅ None None None trackWorld
         = (Normal [t], trackWorld)
       ∧ Track.timestamp <$> positions t = [1000; 62000]%Z
       ∧ StronglySorted (fun p q => (Track.timestamp p ≤ Track.timestamp q)%Z)
           (positions t).
Proof.
  eexists. split; [vm_compute; reflexivity |].
  split; [reflexivity |].
  match goal with
  | |- StronglySorted _ (positions ?t) =>
      apply (getAllTracksLast24h_positions_in_time_order
               ∅ None None None trackWorld trackWorld [t]);
        [vm_compute; reflexivity | by left]
  end.
Defined.

End TrackQueryExtras.

(** ** Retention and the daily aggregate *)

Section RetentionExtras.
Import Tracks Store Ingest Words Samples.
Local Open Scope Z_scope.

Lemma filter_sublist {A} (f : A → bool) (l : list A) :
  List.filter f l `sublist_of` l.
Proof.
  induction l as [|x l IH]; [constructor |].
  simpl. destruct (f x); [by apply sublist_skip | by apply sublist_cons].
Qed.

(** The effect of [cleanupOldData] on the store. *)
Lemma cleanupOldData_effect (w : World) :
  ∃ deletedCount w',
    cleanupOldData w = (Normal deletedCount, w')
    ∧ aircraft w' = aircraft w
    ∧ daily_stats w' = daily_stats w
    ∧ now w' = now w
    ∧ (positions w' = positions w ∧ deletedCount = 0%nat
       ∨ positions w'
           = List.filter (fun p => negb (timestamp p <? now w - DAY_MS))
               (positions w)
         ∧ deletedCount
           = length (List.filter (fun p => timestamp p <? now w - DAY_MS)
                       (positions w))).
Proof.
  unfold cleanupOldData, tryCatch, mbind, M_bind.
  destruct (query_cases deleteOldPositions w)
    as [(w0 & Hw0 & ->)|(w0 & Hw0 & ->)];
    destruct Hw0 as (Ha & Hp & Hd & Hn).
  - exists 0%nat, w0. cbn [mret M_ret]. rewrite Hp.
    repeat split; try done. by left.
  - unfold deleteOldPositions. cbn [fst snd mret M_ret].
    eexists _, _. split; [reflexivity |].
    cbn [set_positions aircraft daily_stats now positions].
    rewrite Hp, Hn. repeat split; try done. by right.
Qed.

Lemma cleanupOldData_sublist (w : World) :
  positions (snd (cleanupOldData w)) `sublist_of` positions w.
Proof.
  destruct (cleanupOldData_effect w) as (n & w' & -> & _ & _ & _ & Hpos).
  cbn [snd]. destruct Hpos as [[-> _]|[-> _]]; [done | apply filter_sublist].
Qed.

(** X13. [cleanupOldData] never throws and touches nothing but the
    positions.  When its database call throws it returns 0 and leaves
    the positions as they are.  When the call does not throw it
    removes exactly the samples older than 24 hours, keeps the others
    in their order and returns the number removed.  In both cases a
    sample that is not older than 24 hours stays. *)
Theorem cleanupOldData_retention (w : World) :
  ∃ deletedCount w',
    cleanupOldData w = (Normal deletedCount, w')
    ∧ aircraft w' = aircraft w
    ∧ daily_stats w' = daily_stats w
    ∧ now w' = now w
    ∧ pending w' = tail (pending w)
    ∧ match head (pending w) with
      | Some true => positions w' = positions w ∧ deletedCount = 0%nat
      | _ =>
          positions w'
            = List.filter (fun p => negb (timestamp p <? now w - DAY_MS))
                (positions w)
          ∧ (deletedCount + length (positions w') = length (positions w))%nat
          ∧ Forall (fun p => now w - DAY_MS ≤ timestamp p) (positions w')
          ∧ (∀ p, p ∈ positions w → timestamp p < now w - DAY_MS →
                  p ∉ positions w')
      end
    ∧ positions w' `sublist_of` positions w
    ∧ (∀ p, p ∈ positions w → now w - DAY_MS ≤ timestamp p → p ∈ positions w').
Proof.
  assert (Hruns : ∀ w0 : World,
            positions w0 = positions w → now w0 = now w →
            let kept := positions (snd (deleteOldPositions w0)) in
            kept = List.filter (fun p => negb (timestamp p <? now w - DAY_MS))
                     (positions w)
            ∧ (fst (deleteOldPositions w0) + length kept
               = length (positions w))%nat
            ∧ Forall (fun p => now w - DAY_MS ≤ timestamp p) kept
            ∧ (∀ p, p ∈ positions w → timestamp p < now w - DAY_MS → p ∉ kept)
            ∧ kept `sublist_of` positions w
            ∧ (∀ p, p ∈ positions w → now w - DAY_MS ≤ timestamp p → p ∈ kept)).
  { intros w0 Hp Hn. unfold deleteOldPositions.
    cbn [fst snd set_positions positions]. rewrite Hp, Hn.
    split; [done |]. split.
    { rewrite (List.filter_length (fun p => timestamp p <? now w - DAY_MS)
                 (positions w)). lia. }
    split.
    { apply Forall_forall. intros p Hin.
      apply list_elem_of_In, filter_In in Hin as [_ Hin].
      by apply negb_true_iff, Z.ltb_ge in Hin. }
    split.
    { intros p _ Hold Hin.
      apply list_elem_of_In, filter_In in Hin as [_ Hin].
      apply negb_true_iff, Z.ltb_ge in Hin. lia. }
    split; [apply filter_sublist |].
    intros p Hin Hnew. apply list_elem_of_In, filter_In.
    split; [by apply list_elem_of_In |].
    by apply negb_true_iff, Z.ltb_ge. }
  unfold cleanupOldData, tryCatch, mbind, M_bind, query.
  destruct (pending w) as [|[] rest] eqn:Hpending; cbn [head tail].
  - destruct (Hruns w eq_refl eq_refl) as (H1 & H2 & H3 & H4 & H5 & H6).
    destruct (deleteOldPositions w) as [n w1] eqn:Hdel. cbn [fst snd] in *.
    exists n, w1. cbn [mret M_ret].
    assert (Hw1 : w1 = snd (deleteOldPositions w)) by (by rewrite Hdel).
    split; [done |].
    split; [by rewrite Hw1 |]. split; [by rewrite Hw1 |].
    split; [by rewrite Hw1 |]. split; [by rewrite Hw1 |].
    split; [done |]. by split.
  - exists 0%nat, (set_pending rest w). cbn [mret M_ret].
    do 5 (split; [done |]). split; [done |]. by split.
  - destruct (Hruns (set_pending rest w) eq_refl eq_refl)
      as (H1 & H2 & H3 & H4 & H5 & H6).
    destruct (deleteOldPositions (set_pending rest w)) as [n w1] eqn:Hdel.
    cbn [fst snd] in *. exists n, w1. cbn [mret M_ret].
    assert (Hw1 : w1 = snd (deleteOldPositions (set_pending rest w)))
      by (by rewrite Hdel).
    split; [done |].
    split; [by rewrite Hw1 |]. split; [by rewrite Hw1 |].
    split; [by rewrite Hw1 |]. split; [by rewrite Hw1 |].
    split; [done |]. by split.
Qed.

Lemma filter_filter_implied {A} (f g : A → bool) (l : list A) :
  (∀ x, f x = true → g x = true) →
  List.filter f (List.filter g l) = List.filter f l.
Proof.
  intros Himp. induction l as [|x l IH]; [done |].
  simpl. destruct (g x) eqn:Hg; simpl.
  - by rewrite IH.
  - destruct (f x) eqn:Hf; [| done]. apply Himp in Hf. congruence.
Qed.

Lemma cleanupOldData_recent (w : World) :
  recentPositions (snd (cleanupOldData w)) = recentPositions w.
Proof.
  destruct (cleanupOldData_effect w)
    as (n & w' & Heq & _ & _ & Hn & Hpos).
  rewrite Heq. cbn [snd]. unfold recentPositions. rewrite Hn.
  destruct Hpos as [[-> _]|[-> _]]; [done |].
  apply filter_filter_implied. intros p Hp.
  apply Z.ltb_lt in Hp. apply negb_true_iff, Z.ltb_ge. lia.
Qed.

(** X14. The retention cleanup never removes anything the track query
    reads: before and after it, the query finds the same aircraft and,
    for every identifier and every filter, the same qualifying
    samples. *)
Theorem cleanupOldData_keeps_track_data (w : World)
    (centerLat centerLon radiusKm : option Q) (id : string) :
  fst (selectRecentAircraft (snd (cleanupOldData w)))
    = fst (selectRecentAircraft w)
  ∧ qualifyingSamples centerLat centerLon radiusKm id (snd (cleanupOldData w))
    = qualifyingSamples centerLat centerLon radiusKm id w.
Proof.
  pose proof (cleanupOldData_recent w) as Hrecent.
  destruct (cleanupOldData_effect w) as (n & w' & Heq & Ha & _ & _).
  split.
  - unfold selectRecentAircraft. cbn [fst]. rewrite Hrecent.
    rewrite Heq. cbn [snd]. by rewrite Ha.
  - unfold qualifyingSamples, selectPositions. cbn [fst]. by rewrite Hrecent.
Qed.

Lemma size_list_to_set_le (l : list string) :
  (size (list_to_set l : gset string) ≤ length l)%nat.
Proof.
  induction l as [|x l IH]; [done |].
  simpl. destruct (decide (x ∈ (list_to_set l : gset string))) as [Hin|Hnin].
  - replace ({[x]} ∪ list_to_set l : gset string) with (list_to_set l : gset string)
      by set_solver. lia.
  - rewrite size_union by set_solver. rewrite size_singleton. lia.
Qed.

(** X15. [updateDailyStats] never throws and touches nothing but the
    daily aggregates.  When one of its two database calls throws, the
    aggregates are as before.  When neither throws, the row of the
    current day holds the number of distinct identifiers and the
    number of samples of that day (the first at most the second), the
    two other counters of the row being kept (0 for a new row) and
    every other day left alone. *)
Theorem updateDailyStats_recomputes_today (w : World) :
  ∃ w',
    updateDailyStats w = (Normal tt, w')
    ∧ aircraft w' = aircraft w
    ∧ positions w' = positions w
    ∧ now w' = now w
    ∧ match pending w with
      | true :: _ | false :: true :: _ => daily_stats w' = daily_stats w
      | _ =>
          ∃ row,
            let today := day_of (now w) in
            let rows := List.filter (fun p => day_of (timestamp p) =? today)
                          (positions w) in
            daily_stats w' = <[today := row]> (daily_stats w)
            ∧ (∀ day, day ≠ today → daily_stats w' !! day = daily_stats w !! day)
            ∧ unique_aircraft row
              = Z.of_nat (size (list_to_set (icao24 <$> rows) : gset string))
            ∧ total_positions row = Z.of_nat (length rows)
            ∧ unique_aircraft row ≤ total_positions row
            ∧ military_count row
              = from_option military_count 0 (daily_stats w !! today)
            ∧ civilian_count row
              = from_option civilian_count 0 (daily_stats w !! today)
      end.
Proof.
  assert (Hruns : ∀ w0 : World,
            positions w0 = positions w → now w0 = now w →
            daily_stats w0 = daily_stats w →
            let today := day_of (now w) in
            let counts := fst (selectDailyCounts today w0) in
            let w' := snd (upsertDailyStats today (fst counts) (snd counts) w0) in
            ∃ row,
              let rows := List.filter (fun p => day_of (timestamp p) =? today)
                            (positions w) in
              daily_stats w' = <[today := row]> (daily_stats w)
              ∧ (∀ day, day ≠ today →
                        daily_stats w' !! day = daily_stats w !! day)
              ∧ unique_aircraft row
                = Z.of_nat (size (list_to_set (icao24 <$> rows) : gset string))
              ∧ total_positions row = Z.of_nat (length rows)
              ∧ unique_aircraft row ≤ total_positions row
              ∧ military_count row
                = from_option military_count 0 (daily_stats w !! today)
              ∧ civilian_count row
                = from_option civilian_count 0 (daily_stats w !! today)).
  { intros w0 Hp Hn Hd. unfold selectDailyCounts, upsertDailyStats.
    cbn [fst snd set_daily_stats daily_stats]. rewrite Hp, Hd.
    eexists. split; [reflexivity |].
    split; [intros day Hday; by rewrite lookup_insert_ne |].
    destruct (daily_stats w !! day_of (now w)) as [old|];
      cbn [unique_aircraft total_positions military_count civilian_count
           from_option];
      (split; [done |]; split; [done |]; split; [| done]);
      apply inj_le;
      (etrans; [apply size_list_to_set_le | by rewrite length_fmap]). }
  unfold updateDailyStats, tryCatch, mbind, M_bind, clock.
  unfold query at 1.
  destruct (pending w) as [|[] rest] eqn:Hpending.
  - cbn [selectDailyCounts fst snd]. unfold query. rewrite Hpending.
    cbn [upsertDailyStats fst snd].
    eexists. split; [reflexivity |].
    do 3 (split; [done |]).
    exact (Hruns w eq_refl eq_refl eq_refl).
  - exists (set_pending rest w). cbn [mret M_ret]. by do 4 (split; [done |]).
  - cbn [selectDailyCounts fst snd set_pending]. unfold query.
    cbn [pending].
    destruct rest as [|[] rest'].
    + cbn [upsertDailyStats fst snd].
      eexists. split; [reflexivity |]. do 3 (split; [done |]).
      exact (Hruns (set_pending [] w) eq_refl eq_refl eq_refl).
    + eexists. cbn [mret M_ret]. split; [reflexivity |].
      by do 3 (split; [done |]).
    + cbn [upsertDailyStats fst snd].
      eexists. split; [reflexivity |]. do 3 (split; [done |]).
      exact (Hruns (set_pending rest' w) eq_refl eq_refl eq_refl).
Qed.

End RetentionExtras.

(** ** Invariants of the ingestion cycle *)

Section CycleExtras.
Import JS Feeds Store Ingest Words Samples.
Local Open Scope Z_scope.

Lemma keepsRecords_refl (m : gmap string AircraftRow) : keepsRecords m m.
Proof. intros id old Hold. exists old. repeat split; [done | lia]. Qed.

Lemma keepsRecords_trans (m1 m2 m3 : gmap string AircraftRow) :
  keepsRecords m1 m2 → keepsRecords m2 m3 → keepsRecords m1 m3.
Proof.
  intros H12 H23 id old Hold.
  destruct (H12 id old Hold) as (mid & Hmid & F1 & O1 & R1 & T1).
  destruct (H23 id mid Hmid) as (new & Hnew & F2 & O2 & R2 & T2).
  exists new. repeat split; try congruence. lia.
Qed.

Lemma upsertAircraft_keepsRecords (id : string) (cs ty : option string)
    (w : World) :
  keepsRecords (aircraft w) (aircraft (snd (upsertAircraft id cs ty w))).
Proof.
  intros id' old Hold. destruct (decide (id = id')) as [<-|Hne].
  - rewrite (upsertAircraft_existing id cs ty w old Hold).
    eexists. split; [reflexivity |]. cbn. repeat split; lia.
  - rewrite upsertAircraft_other by done. exists old.
    repeat split; [done | lia].
Qed.

Lemma upsertAircraft_recorded (id : string) (cs ty : option string) (w : World) :
  is_Some (aircraft (snd (upsertAircraft id cs ty w)) !! id).
Proof. unfold upsertAircraft. simpl. rewrite lookup_insert_eq. eauto. Qed.

Lemma upsertAircraft_new_keys (id id' : string) (cs ty : option string)
    (w : World) :
  is_Some (aircraft (snd (upsertAircraft id cs ty w)) !! id') →
  id' = id ∨ is_Some (aircraft w !! id').
Proof.
  destruct (decide (id = id')) as [<-|Hne]; [by left |].
  rewrite upsertAircraft_other by done. by right.
Qed.

Lemma upsertAircraft_sameTables (id : string) (cs ty : option string)
    (w w0 : World) :
  sameTables w w0 →
  aircraft (snd (upsertAircraft id cs ty w0))
    = aircraft (snd (upsertAircraft id cs ty w))
  ∧ positions (snd (upsertAircraft id cs ty w0)) = positions w
  ∧ daily_stats (snd (upsertAircraft id cs ty w0)) = daily_stats w
  ∧ now (snd (upsertAircraft id cs ty w0)) = now w.
Proof.
  intros (Ha & Hp & Hd & Hn). unfold upsertAircraft. simpl.
  by rewrite Ha, Hn.
Qed.

(** What one iteration of the storing loop does to the tables: nothing,
    or the upsert of the aircraft under its lower-cased identifier,
    followed or not by one position row under that identifier. *)
Lemma storeAircraft_tables (a : ADSBoneAircraft) (storedCount : nat) (w : World) :
  let w' := snd (storeAircraft a storedCount w) in
  daily_stats w' = daily_stats w
  ∧ (aircraft w' = aircraft w ∧ positions w' = positions w
     ∨ ∃ h,
         hex a = Some h ∧ truthy (hex a) = true
         ∧ aircraft w'
           = aircraft (snd (upsertAircraft (toLowerCase h) (callsignOf a)
                              (typeOf a) w))
         ∧ (positions w' = positions w
            ∨ ∃ row, positions w' = positions w ++ [row]
                     ∧ icao24 row = toLowerCase h)).
Proof.
  unfold storeAircraft, tryCatch.
  destruct (hex a) as [h|] eqn:Hhex; cbn [fmap option_fmap option_map];
    [| by split; [| left]].
  destruct (truthy (Some (toLowerCase h))) eqn:Htr; cbn [negb];
    [| by split; [| left]].
  assert (Htr' : truthy (Some h) = true) by (by destruct h).
  unfold mbind, M_bind.
  destruct (query_cases (upsertAircraft (toLowerCase h) (callsignOf a) (typeOf a)) w)
    as [(w0 & Hw0 & ->)|(w0 & Hw0 & ->)].
  { destruct Hw0 as (Ha0 & Hp0 & Hd0 & _). cbn [mret M_ret snd]. by split; [| left]. }
  destruct (upsertAircraft_sameTables (toLowerCase h) (callsignOf a) (typeOf a)
              w w0 Hw0) as (Ha1 & Hp1 & Hd1 & Hn1).
  set (w1 := snd (upsertAircraft (toLowerCase h) (callsignOf a) (typeOf a) w0)) in *.
  clearbody w1. cbn [fst snd].
  destruct (not_null (lat a) && not_null (lon a)).
  - match goal with
    | |- context [query ?stmt w1] =>
        destruct (query_cases stmt w1) as [(w2 & Hw2 & ->)|(w2 & Hw2 & ->)]
    end; destruct Hw2 as (Ha2 & Hp2 & Hd2 & Hn2); cbn [mret M_ret snd].
    + split; [congruence |]. right. exists h.
      split; [done |]. split; [done |]. split; [congruence |]. left. congruence.
    + unfold insertPosition. cbn [fst snd set_positions aircraft positions daily_stats].
      split; [congruence |]. right. exists h.
      split; [done |]. split; [done |]. split; [congruence |]. right.
      eexists. rewrite Hp2, Hp1. split; [reflexivity | done].
  - cbn [mret M_ret snd]. split; [done |]. right. exists h.
    split; [done |]. split; [done |]. split; [done |]. by left.
Qed.

Lemma updateDailyStats_tables (w : World) :
  ∃ w', updateDailyStats w = (Normal tt, w')
        ∧ aircraft w' = aircraft w ∧ positions w' = positions w.
Proof.
  unfold updateDailyStats, tryCatch, mbind, M_bind, clock.
  match goal with
  | |- context [query ?stmt w] =>
      destruct (query_cases stmt w) as [(w0 & Hw0 & ->)|(w0 & Hw0 & ->)]
  end; destruct Hw0 as (Ha0 & Hp0 & _); [eauto |].
  cbn [selectDailyCounts fst snd].
  match goal with
  | |- context [query ?stmt w0] =>
      destruct (query_cases stmt w0) as [(w1 & Hw1 & ->)|(w1 & Hw1 & ->)]
  end; destruct Hw1 as (Ha1 & Hp1 & _).
  - exists w1. split; [done |]. split; congruence.
  - eexists. split; [reflexivity |]. simpl. split; congruence.
Qed.

Lemma toLowerCase_idempotent (s : string) :
  toLowerCase (toLowerCase s) = toLowerCase s.
Proof.
  induction s as [|c s IH]; [done |]. simpl. rewrite IH. f_equal.
  unfold lower_ascii.
  destruct ((65 <=? nat_of_ascii c)%nat && (nat_of_ascii c <=? 90)%nat) eqn:Hc;
    [| by rewrite Hc].
  apply andb_prop in Hc as [H1 H2].
  apply Nat.leb_le in H1, H2.
  rewrite nat_ascii_embedding by lia.
  replace ((65 <=? nat_of_ascii c + 32)%nat && (nat_of_ascii c + 32 <=? 90)%nat)
    with false; [done |].
  symmetry. apply andb_false_iff. right. apply Nat.leb_gt. lia.
Qed.

Lemma ofInterest_lowered (h : string) :
  Classifier.isRussianAircraft (Some h) = true → ofInterest (toLowerCase h).
Proof.
  intros Hru. split; [apply toLowerCase_idempotent |].
  rewrite isRussianAircraft_unfold in Hru |- *.
  rewrite toLowerCase_idempotent.
  rewrite (truthy_toLowerCase (toLowerCase h) h); [done |].
  apply toLowerCase_idempotent.
Qed.


Lemma storeAll_tables (l : list ADSBoneAircraft) (storedCount : nat) (w : World) :
  (∀ a, a ∈ l → Classifier.isRussianAircraft (hex a) = true) →
  let w' := snd (storeAll l storedCount w) in
  daily_stats w' = daily_stats w
  ∧ keepsRecords (aircraft w) (aircraft w')
  ∧ (∀ id, is_Some (aircraft w' !! id) →
           is_Some (aircraft w !! id) ∨ ofInterest id)
  ∧ ∃ rows, positions w' = positions w ++ rows
            ∧ Forall (fun row => ofInterest (icao24 row)
                                 ∧ is_Some (aircraft w' !! icao24 row)) rows.
Proof.
  revert storedCount w. induction l as [|a l IH]; intros storedCount w Hru.
  - cbn. split; [done |]. split; [apply keepsRecords_refl |].
    split; [by left |]. exists []. by rewrite app_nil_r.
  - cbn [storeAll]. unfold mbind, M_bind.
    pose proof (storeAircraft_tables a storedCount w) as Hone. cbn zeta in Hone.
    destruct (storeAircraft_effect a storedCount w) as (rows0 & w1 & Heq & _).
    rewrite Heq in Hone |- *. cbn [snd] in Hone.
    destruct Hone as (Hd1 & Hone).
    destruct (IH (storedCount + length rows0)%nat w1) as (Hd2 & Hk2 & Hn2 & rows2 & Hp2 & Hall2).
    { intros b Hb. apply Hru. by right. }
    cbn zeta. set (w' := snd (storeAll l _ w1)) in *. clearbody w'.
    split; [congruence |].
    assert (Hru_a : Classifier.isRussianAircraft (hex a) = true)
      by (apply Hru; by left).
    destruct Hone as [[Ha1 Hp1]|(h & Hhex & Htr & Ha1 & Hp1)].
    + rewrite Ha1 in Hk2, Hn2. split; [done |]. split; [done |].
      exists rows2. by rewrite Hp2, Hp1.
    + rewrite Hhex in Hru_a.
      pose proof (ofInterest_lowered h Hru_a) as Hint.
      pose proof (upsertAircraft_keepsRecords (toLowerCase h) (callsignOf a)
                    (typeOf a) w) as Hk1.
      rewrite <- Ha1 in Hk1.
      split; [by eapply keepsRecords_trans |].
      split.
      { intros id Hid. destruct (Hn2 id Hid) as [Hid1|Hid1]; [| by right].
        rewrite Ha1 in Hid1.
        apply upsertAircraft_new_keys in Hid1 as [->|Hid1]; [by right | by left]. }
      destruct Hp1 as [Hp1|(row & Hp1 & Hrow)].
      * exists rows2. by rewrite Hp2, Hp1.
      * exists (row :: rows2). rewrite Hp2, Hp1, <- app_assoc.
        split; [done |]. apply Forall_cons. split; [| done].
        rewrite Hrow. split; [done |].
        assert (Hrec : is_Some (aircraft w1 !! toLowerCase h))
          by (rewrite Ha1; apply upsertAircraft_recorded).
        destruct Hrec as [r1 Hr1].
        destruct (Hk2 _ _ Hr1) as (new & Hnew & _). eauto.
Qed.

(** What a whole cycle does to the tables. *)
Lemma fetchAndStore_tables
    (adsbNet : CoveragePoint → Reply ADSBoneAircraft)
    (openSkyNet : BoundingBox → Reply OpenSkyState) (w : World) :
  let w0 := snd (cleanupOldData w) in
  let w' := snd (fetchAndStoreRussianAircraft adsbNet openSkyNet w) in
  keepsRecords (aircraft w) (aircraft w')
  ∧ (∀ id, is_Some (aircraft w' !! id) →
           is_Some (aircraft w !! id) ∨ ofInterest id)
  ∧ ∃ rows, positions w' = positions w0 ++ rows
            ∧ Forall (fun row => ofInterest (icao24 row)
                                 ∧ is_Some (aircraft w' !! icao24 row)) rows.
Proof.
  unfold fetchAndStoreRussianAircraft, mbind, M_bind, clock.
  destruct (cleanupOldData_completes w) as (deleted & w0 & Hclean & Hn0).
  assert (Ha0 : aircraft w0 = aircraft w).
  { unfold cleanupOldData, tryCatch, mbind, M_bind in Hclean.
    destruct (query_cases deleteOldPositions w)
      as [(w1 & Hw1 & Heq)|(w1 & Hw1 & Heq)]; rewrite Heq in Hclean;
      destruct Hw1 as (Ha & _); injection Hclean as _ <-; done. }
  rewrite Hclean. cbn [snd]. rewrite Hn0.
  set (merged := mergedAircraft _ _).
  destruct (length merged =? 0)%nat.
  - cbn [mret M_ret snd]. rewrite Ha0.
    split; [apply keepsRecords_refl |]. split; [by left |].
    exists []. by rewrite app_nil_r.
  - set (russian := List.filter _ merged).
    assert (Hru : ∀ a, a ∈ russian → Classifier.isRussianAircraft (hex a) = true).
    { intros a Ha. by apply list_elem_of_In, filter_In in Ha as [_ Ha]. }
    pose proof (storeAll_tables russian 0 w0 Hru) as Hall. cbn zeta in Hall.
    destruct (storeAll_effect russian 0 w0) as (rows0 & w1 & Heq & _).
    rewrite Heq in Hall |- *. cbn [snd] in Hall.
    destruct Hall as (_ & Hk & Hn & rows & Hp & Hrows).
    pose proof (updateDailyStats_tables w1) as (w2 & Heq2 & Ha2 & Hp2).
    rewrite Heq2. cbn [mret M_ret snd]. rewrite Ha2, Hp2, <- Ha0.
    split; [done |]. split; [done |]. by exists rows.
Qed.


(** X16. What a cycle can write.  It keeps every aircraft record: none
    is lost, first sighting, origin and registration stay, the sighting
    count does not go down.  Every identifier it adds to the aircraft
    table, and the identifier of every position row it adds, is
    lower-cased and in the nationality range. *)
Theorem fetchAndStore_keeps_records_and_adds_of_interest
    (adsbNet : CoveragePoint → Reply ADSBoneAircraft)
    (openSkyNet : BoundingBox → Reply OpenSkyState) (w : World) :
  let w' := snd (fetchAndStoreRussianAircraft adsbNet openSkyNet w) in
  (∀ id old, aircraft w !! id = Some old →
     ∃ new, aircraft w' !! id = Some new
            ∧ first_seen new = first_seen old
            ∧ origin_country new = origin_country old
            ∧ registration new = registration old
            ∧ total_sightings old ≤ total_sightings new)
  ∧ (∀ id, is_Some (aircraft w' !! id) →
           is_Some (aircraft w !! id) ∨ ofInterest id)
  ∧ (∀ row, row ∈ positions w' →
            row ∈ positions w ∨ ofInterest (icao24 row)).
Proof.
  destruct (fetchAndStore_tables adsbNet openSkyNet w)
    as (Hk & Hn & rows & Hp & Hrows).
  split; [exact Hk |]. split; [exact Hn |].
  intros row Hrow. cbn zeta in Hp. rewrite Hp in Hrow.
  apply elem_of_app in Hrow as [Hrow|Hrow].
  - left. eapply elem_of_sublist; [exact Hrow | apply cleanupOldData_sublist].
  - right. rewrite Forall_forall in Hrows. by destruct (Hrows row Hrow).
Qed.

(** X17. A cycle keeps the foreign key of the positions: if every
    stored position belongs to a recorded aircraft before the cycle, so
    it does after it. *)
Theorem fetchAndStore_keeps_references
    (adsbNet : CoveragePoint → Reply ADSBoneAircraft)
    (openSkyNet : BoundingBox → Reply OpenSkyState) (w : World)
    (Hrefs : referencesHold w) :
  referencesHold (snd (fetchAndStoreRussianAircraft adsbNet openSkyNet w)).
Proof.
  destruct (fetchAndStore_tables adsbNet openSkyNet w)
    as (Hk & _ & rows & Hp & Hrows).
  unfold referencesHold in *. cbn zeta in Hp. rewrite Hp.
  apply Forall_app. split.
  - apply Forall_forall. intros row Hrow.
    rewrite Forall_forall in Hrefs.
    destruct (Hrefs row) as [old Hold];
      [eapply elem_of_sublist; [exact Hrow | apply cleanupOldData_sublist] |].
    destruct (Hk _ _ Hold) as (new & Hnew & _). eauto.
  - eapply Forall_impl; [exact Hrows |]. by intros row [_ Hrow].
Qed.

Lemma fetchAndStore_keeps_references_witness :
  referencesHold flownWorld
  ∧ referencesHold
      (snd (fetchAndStoreRussianAircraft cycleNet silentOpenSky flownWorld)).
Proof.
  assert (Hrefs : referencesHold flownWorld).
  { unfold referencesHold. vm_compute. repeat constructor. eauto. }
  split; [exact Hrefs |].
  by apply fetchAndStore_keeps_references.
Defined.

(** X18. When the upsert of an aircraft throws, nothing is stored for
    that aircraft: the count, the aircraft table and the positions are
    as before, and only the outcome of that one call is consumed. *)
Theorem storeAircraft_skips_aircraft_when_upsert_throws
    (a : ADSBoneAircraft) (storedCount : nat) (w : World) (rest : list bool)
    (Hhex : truthy (hex a) = true)
    (Hthrows : pending w = true :: rest) :
  storeAircraft a storedCount w = (Normal storedCount, set_pending rest w).
Proof.
  unfold storeAircraft, tryCatch.
  destruct (hex a) as [h|]; [| done]. cbn [fmap option_fmap option_map].
  assert (Htr : truthy (Some (toLowerCase h)) = true) by (by destruct h).
  rewrite Htr. cbn [negb]. unfold mbind, M_bind, query. by rewrite Hthrows.
Qed.

Lemma storeAircraft_skips_aircraft_when_upsert_throws_witness :
  storeAircraft groundedAircraft 4 (set_pending [true; false] knownWorld)
  = (Normal 4%nat, set_pending [false] (set_pending [true; false] knownWorld)).
Proof.
  apply storeAircraft_skips_aircraft_when_upsert_throws; reflexivity.
Defined.

(** X19. When the upsert succeeds and the insert of the position
    throws, the sighting is recorded all the same: the aircraft table
    holds the upserted record, no position is added and the count is
    not incremented. *)
Theorem storeAircraft_counts_sighting_when_insert_throws
    (a : ADSBoneAircraft) (storedCount : nat) (w : World) (rest : list bool)
    (h : string) (la lo : Q)
    (Hhex : hex a = Some h) (Htruthy : truthy (hex a) = true)
    (Hlat : lat a = Some la) (Hlon : lon a = Some lo)
    (Hthrows : pending w = false :: true :: rest) :
  fst (storeAircraft a storedCount w) = Normal storedCount
  ∧ positions (snd (storeAircraft a storedCount w)) = positions w
  ∧ aircraft (snd (storeAircraft a storedCount w))
    = aircraft (snd (upsertAircraft (toLowerCase h) (callsignOf a) (typeOf a) w))
  ∧ pending (snd (storeAircraft a storedCount w)) = rest.
Proof.
  unfold storeAircraft, tryCatch. rewrite Hhex in *.
  cbn [fmap option_fmap option_map].
  assert (Htr : truthy (Some (toLowerCase h)) = true) by (by destruct h).
  rewrite Htr. cbn [negb]. unfold mbind, M_bind, query.
  rewrite Hthrows. cbn [upsertAircraft set_pending aircraft pending fst snd
                        set_aircraft positions daily_stats now].
  rewrite Hlat, Hlon. cbn [not_null andb pending set_pending]. done.
Qed.

Lemma storeAircraft_counts_sighting_when_insert_throws_witness :
  fst (storeAircraft groundedAircraft 4 (set_pending [false; true] knownWorld))
    = Normal 4%nat
  ∧ total_sightings <$>
      aircraft (snd (storeAircraft groundedAircraft 4
                       (set_pending [false; true] knownWorld)))
        !! "14abcd"%string
    = Some 8.
Proof.
  destruct (storeAircraft_counts_sighting_when_insert_throws
              groundedAircraft 4 (set_pending [false; true] knownWorld) []
              "14ABCD" (598 # 10)%Q (303 # 10)%Q)
    as (Hcount & _ & Hair & _); try reflexivity.
  split; [exact Hcount |]. rewrite Hair. vm_compute. reflexivity.
Defined.

(** X20. When neither adapter receives anything, the cycle returns
    zero tracked and zero stored right after the cleanup: no aircraft
    is touched and the daily aggregate is not recomputed. *)
Theorem fetchAndStore_returns_early_without_data
    (adsbNet : CoveragePoint → Reply ADSBoneAircraft)
    (openSkyNet : BoundingBox → Reply OpenSkyState) (w : World)
    (Hadsb : received adsbNet coveragePoints = [])
    (Hopensky : received openSkyNet boundingBoxes = []) :
  fetchAndStoreRussianAircraft adsbNet openSkyNet w
  = (Normal (mkResult 0 0), snd (cleanupOldData w)).
Proof.
  unfold fetchAndStoreRussianAircraft, mbind, M_bind, clock.
  destruct (cleanupOldData_completes w) as (deleted & w0 & -> & Hn0).
  cbn [snd].
  assert (Hmerged : mergedAircraft (Some (fetchFromADSBone adsbNet (now w0)))
                      (fetchFromOpenSky openSkyNet) = []).
  { unfold fetchFromADSBone, fetchFromOpenSky.
    rewrite (adsbone_requests_fold adsbNet coveragePoints), Hadsb.
    rewrite (opensky_requests_fold openSkyNet boundingBoxes), Hopensky.
    reflexivity. }
  by rewrite Hmerged.
Qed.

Lemma fetchAndStore_returns_early_without_data_witness :
  fetchAndStoreRussianAircraft (fun _ => RequestThrows) silentOpenSky flownWorld
  = (Normal (mkResult 0 0), snd (cleanupOldData flownWorld)).
Proof.
  apply fetchAndStore_returns_early_without_data; reflexivity.
Defined.

End CycleExtras.

(** ** Successive sightings *)

Section SightingExtras.
Import Store Words Samples.
Local Open Scope Z_scope.

Lemma upsertEach_existing (id : string)
    (sightings : list (Z * option string * option string))
    (w : World) (old : AircraftRow) :
  aircraft w !! id = Some old →
  ∃ new,
    aircraft (upsertEach id sightings w) !! id = Some new
    ∧ total_sightings new = total_sightings old + Z.of_nat (length sightings)
    ∧ first_seen new = first_seen old
    ∧ origin_country new = origin_country old
    ∧ callsign new = lastNonNull (callsign old) (snd ∘ fst <$> sightings)
    ∧ aircraft_type new = lastNonNull (aircraft_type old) (snd <$> sightings)
    ∧ (sightings ≠ [] → last_seen new = now (upsertEach id sightings w)).
Proof.
  revert w old. induction sightings as [|[[dt cs] ty] rest IH]; intros w old Hold.
  - exists old. cbn. repeat split; try done. lia.
  - cbn [upsertEach].
    pose proof (upsertAircraft_existing id cs ty (elapse dt w) old Hold) as Hnew.
    destruct (IH _ _ Hnew) as (new & Hlook & Htot & Hfirst & Horig & Hcs & Hty & Hlast).
    exists new. split; [done |].
    cbn [total_sightings first_seen origin_country callsign aircraft_type]
      in Htot, Hfirst, Horig, Hcs, Hty.
    split; [cbn [length]; lia |]. split; [done |]. split; [done |].
    split; [done |]. split; [done |].
    intros _. destruct rest as [|s rest']; [| by apply Hlast].
    cbn [upsertEach] in Hlook |- *. rewrite Hnew in Hlook.
    injection Hlook as <-. reflexivity.
Qed.

(** X21. The life of an aircraft record.  Starting without a record,
    after one upsert or more the record counts exactly as many
    sightings as there were upserts, its first sighting is the time of
    the first upsert and its last sighting the time of the last one,
    its origin is ['Russia'], and its callsign and type are the last
    non-null values that were passed (null when there was none). *)
Theorem upsertEach_counts_sightings (id : string)
    (dt : Z) (cs ty : option string)
    (rest : list (Z * option string * option string)) (w : World)
    (Habsent : aircraft w !! id = None) :
  let w' := upsertEach id ((dt, cs, ty) :: rest) w in
  ∃ record,
    aircraft w' !! id = Some record
    ∧ total_sightings record = Z.of_nat (S (length rest))
    ∧ first_seen record = now w + dt
    ∧ last_seen record = now w'
    ∧ origin_country record = Some "Russia"%string
    ∧ callsign record = lastNonNull cs (snd ∘ fst <$> rest)
    ∧ aircraft_type record = lastNonNull ty (snd <$> rest).
Proof.
  cbn zeta. cbn [upsertEach].
  assert (Hfirst : aircraft (elapse dt w) !! id = None) by done.
  pose proof (upsertAircraft_inserts id cs ty (elapse dt w) Hfirst) as Hnew.
  destruct (upsertEach_existing id rest _ _ Hnew)
    as (new & Hlook & Htot & Hfs & Horig & Hcs & Hty & Hlast).
  exists new. split; [done |].
  cbn [total_sightings first_seen origin_country callsign aircraft_type elapse now]
    in Htot, Hfs, Horig, Hcs, Hty.
  split; [lia |]. split; [done |]. split.
  - destruct rest as [|s rest']; [| by apply Hlast].
    cbn [upsertEach] in Hlook |- *. rewrite Hnew in Hlook.
    injection Hlook as <-. reflexivity.
  - done.
Qed.

Lemma upsertEach_counts_sightings_witness :
  aircraft knownWorld !! "150009"%string = None
  ∧ ∃ record,
      aircraft (upsertEach "150009"
                  [(0, None, Some "IL76"%string);
                   (30000, Some "RFF7001"%string, None);
                   (30000, None, None)] knownWorld) !! "150009"%string
        = Some record
      ∧ total_sightings record = 3
      ∧ first_seen record = 9000
      ∧ callsign record = Some "RFF7001"%string
      ∧ aircraft_type record = Some "IL76"%string.
Proof.
  split; [vm_compute; reflexivity |].
  destruct (upsertEach_counts_sightings "150009" 0 None (Some "IL76"%string)
              [(30000, Some "RFF7001"%string, None); (30000, None, None)]
              knownWorld)
    as (record & Hlook & Htot & Hfirst & _ & _ & Hcs & Hty);
    [vm_compute; reflexivity |].
  exists record. repeat split; assumption.
Defined.

End SightingExtras.

(** ** Position history *)

Section HistoryExtras.
Import Tracks Store History Routes Words Samples.
Local Open Scope Z_scope.

(** X22. When [getAircraftHistory] returns, the number of hours was
    not [NaN] (24 when not given), and the rows returned are exactly
    the stored positions of the lower-cased identifier that are newer
    than that many hours, oldest first; the store is left as it was. *)
Theorem getAircraftHistory_rows_of_window (id : string) (hours : option JsInt)
    (w w' : World) (rows : list PositionRow)
    (Hrun : getAircraftHistory id hours w = (Normal rows, w')) :
  ∃ h,
    default (Int 24) hours = Int h
    ∧ rows ≡ₚ historyRows id h w
    ∧ StronglySorted timestamp_asc rows
    ∧ Forall (fun p => icao24 p = JS.toLowerCase id
                       ∧ now w - h * HOUR_MS < timestamp p) rows
    ∧ sameTables w w'.
Proof.
  unfold getAircraftHistory in Hrun.
  destruct (default (Int 24) hours) as [|h]; [discriminate |].
  exists h. split; [done |].
  destruct (query_cases (selectHistory (JS.toLowerCase id) h) w)
    as [(w0 & Hw0 & Heq)|(w0 & Hw0 & Heq)]; rewrite Heq in Hrun;
    [discriminate |].
  injection Hrun as <- <-. destruct Hw0 as (Ha & Hp & Hd & Hn).
  unfold selectHistory. cbn [fst snd]. rewrite Hp, Hn.
  fold (historyRows id h w).
  split; [apply merge_sort_Permutation |].
  split.
  { apply StronglySorted_merge_sort;
      [apply timestamp_asc_transitive | apply timestamp_asc_total]. }
  split; [| by repeat split].
  apply Forall_forall. intros p Hp'. rewrite merge_sort_Permutation in Hp'.
  apply list_elem_of_In, filter_In in Hp' as [_ Hp'].
  apply andb_prop in Hp' as [Hid Hts].
  split; [by apply String.eqb_eq | by apply Z.ltb_lt].
Qed.

Lemma getAircraftHistory_rows_of_window_witness :
  ∃ rows,
    getAircraftHistory "14ABCD" None flownWorld = (Normal rows, flownWorld)
    ∧ rows ≡ₚ historyRows "14ABCD" 24 flownWorld
    ∧ length rows = 1%nat.
Proof.
  eexists. split; [vm_compute; reflexivity |].
  match goal with
  | |- ?rows ≡ₚ _ ∧ _ =>
      destruct (getAircraftHistory_rows_of_window "14ABCD" None
                  flownWorld flownWorld rows)
        as (h & Hh & Hperm & _); [vm_compute; reflexivity |]
  end.
  injection Hh as <-. split; [exact Hperm | reflexivity].
Defined.

(** X23. [GET /:icao24/history] never answers 404.  It answers 500
    whenever the number of hours is [NaN] or the database call throws.
    When it answers 200 the number of hours was a number and the call
    did not throw, the body repeats the identifier and the hours as
    asked, holds the stored positions of the window and their count;
    for an identifier with no stored position that is an empty history
    and a count of zero. *)
Theorem getHistory_never_not_found (asked : string) (hours : JsInt) (w : World) :
  fst (getHistory asked hours w) ≠ NotFound
  ∧ (hours = NaN ∨ head (pending w) = Some true →
     fst (getHistory asked hours w) = ServerError)
  ∧ (∀ body, fst (getHistory asked hours w) = Ok body →
       (∃ h, hours = Int h ∧ hist_history body ≡ₚ historyRows asked h w)
       ∧ head (pending w) ≠ Some true
       ∧ hist_icao24 body = asked
       ∧ hist_hours body = hours
       ∧ hist_positions body = length (hist_history body)
       ∧ ((∀ p, p ∈ positions w → icao24 p ≠ JS.toLowerCase asked) →
          hist_history body = [] ∧ hist_positions body = 0%nat)).
Proof.
  unfold getHistory.
  destruct hours as [|h].
  { cbn. split; [done |]. split; [done |]. intros body Hbody. discriminate. }
  change (getAircraftHistory asked (Some (Int h)))
    with (query (selectHistory (JS.toLowerCase asked) h)).
  assert (Hnone : (∀ p, p ∈ positions w → icao24 p ≠ JS.toLowerCase asked) →
                  historyRows asked h w = []).
  { intros Hnever. unfold historyRows.
    induction (positions w) as [|p ps IH]; [done |].
    cbn [List.filter].
    destruct (String.eqb (icao24 p) (JS.toLowerCase asked)) eqn:Heq.
    - apply String.eqb_eq in Heq. destruct (Hnever p); [left | done].
    - cbn [andb]. apply IH. intros q Hq. apply Hnever. by right. }
  assert (Hrows : ∀ rest,
            fst (selectHistory (JS.toLowerCase asked) h (set_pending rest w))
            = merge_sort timestamp_asc (historyRows asked h w)) by done.
  assert (Hrows0 : fst (selectHistory (JS.toLowerCase asked) h w)
                   = merge_sort timestamp_asc (historyRows asked h w)) by done.
  unfold query.
  destruct (pending w) as [|[] rest];
    cbn [fst snd selectHistory head];
    (split; [done |]); (split; [intros [Hnan|Hthrow]; done |]);
    intros body Hbody; try discriminate; injection Hbody as <-;
    cbn [hist_history hist_icao24 hist_hours hist_positions];
    fold (historyRows asked h w).
  - split; [exists h; split; [done | apply merge_sort_Permutation] |].
    do 4 (split; [done |]).
    intros Hnever. by rewrite (Hnone Hnever).
  - split; [exists h; split; [done | apply merge_sort_Permutation] |].
    do 4 (split; [done |]).
    intros Hnever. by rewrite (Hnone Hnever).
Qed.

End HistoryExtras.

(** ** Live aircraft *)

Section LiveExtras.
Import Tracks Store History Words Samples.
Local Open Scope Z_scope.

Lemma timestamp_desc_transitive : Transitive timestamp_desc.
Proof. intros a b c. unfold timestamp_desc. lia. Qed.

Lemma timestamp_desc_total : Total timestamp_desc.
Proof. intros a b. unfold timestamp_desc. lia. Qed.

(** The head of the rows sorted newest first is one of the rows, and
    none of them is newer. *)
Lemma newest_row (l : list PositionRow) (p : PositionRow) :
  head (merge_sort timestamp_desc l) = Some p →
  p ∈ l ∧ ∀ q, q ∈ l → timestamp q ≤ timestamp p.
Proof.
  intros Hhead.
  pose proof (@StronglySorted_merge_sort _ timestamp_desc _
                timestamp_desc_transitive timestamp_desc_total l) as Hsorted.
  pose proof (merge_sort_Permutation timestamp_desc l) as Hperm.
  destruct (merge_sort timestamp_desc l) as [|p' rest]; [discriminate |].
  injection Hhead as ->.
  split; [rewrite <- Hperm; by left |].
  intros q Hq. rewrite <- Hperm in Hq.
  apply StronglySorted_inv in Hsorted as [_ Hall].
  apply elem_of_cons in Hq as [->|Hq]; [lia |].
  rewrite Forall_forall in Hall. by apply Hall.
Qed.

Lemma rowsOf_elem (id : string) (l : list PositionRow) (p : PositionRow) :
  p ∈ rowsOf id l ↔ p ∈ l ∧ icao24 p = id.
Proof.
  unfold rowsOf. rewrite list_elem_of_In, filter_In, <- list_elem_of_In.
  by rewrite String.eqb_eq.
Qed.

Lemma livePositions_elem (w : World) (p : PositionRow) :
  p ∈ livePositions w ↔ p ∈ positions w ∧ now w - FIVE_MINUTES_MS < timestamp p.
Proof.
  unfold livePositions. rewrite list_elem_of_In, filter_In, <- list_elem_of_In.
  by rewrite Z.ltb_lt.
Qed.

(** What the live query selects. *)
Lemma selectLive_rows (w : World) :
  let rows := fst (selectLive w) in
  NoDup (icao24 ∘ fst <$> rows)
  ∧ (∀ p a, (p, a) ∈ rows →
       p ∈ positions w
       ∧ now w - FIVE_MINUTES_MS < timestamp p
       ∧ aircraft w !! icao24 p = Some a
       ∧ ∀ q, q ∈ positions w → icao24 q = icao24 p → timestamp q ≤ timestamp p)
  ∧ (∀ p, p ∈ positions w → now w - FIVE_MINUTES_MS < timestamp p →
       is_Some (aircraft w !! icao24 p) →
       ∃ p' a, (p', a) ∈ rows ∧ icao24 p' = icao24 p).
Proof.
  unfold selectLive. cbn [fst]. cbn zeta.
  set (recent := livePositions w).
  set (ids := merge_sort icao24_asc (remove_dups (icao24 <$> recent))).
  set (pick := fun id => match head (merge_sort timestamp_desc (rowsOf id recent)),
                               aircraft w !! id with
                         | Some p, Some a => Some (p, a)
                         | _, _ => None
                         end).
  assert (Hpick : ∀ id p a, pick id = Some (p, a) →
            p ∈ recent ∧ icao24 p = id ∧ aircraft w !! id = Some a
            ∧ ∀ q, q ∈ recent → icao24 q = id → timestamp q ≤ timestamp p).
  { intros id p a. unfold pick.
    destruct (head _) as [p'|] eqn:Hhead; [| done].
    destruct (aircraft w !! id) as [a'|] eqn:Ha; [| done].
    intros [= <- <-]. apply newest_row in Hhead as [Hin Hmax].
    apply rowsOf_elem in Hin as [Hin Hid].
    repeat split; try done.
    intros q Hq Hqid. apply Hmax. by apply rowsOf_elem. }
  split.
  { apply (omap_keys_NoDup pick (@Datatypes.id string) (icao24 ∘ fst)).
    - intros id [p a] Hid. destruct (Hpick id p a Hid) as (_ & Hkey & _).
      exact Hkey.
    - rewrite list_fmap_id. subst ids. rewrite merge_sort_Permutation.
      apply NoDup_remove_dups. }
  split.
  - intros p a Hin. apply list_elem_of_omap in Hin as (id & _ & Hid).
    destruct (Hpick id p a Hid) as (Hrecent & <- & Ha & Hmax).
    apply livePositions_elem in Hrecent as [Hin Hnew].
    repeat split; try done.
    intros q Hq Hqid.
    destruct (decide (now w - FIVE_MINUTES_MS < timestamp q)) as [Hqnew|Hqold].
    + apply Hmax; [by apply livePositions_elem | done].
    + lia.
  - intros p Hin Hnew [a Ha].
    assert (Hrecent : p ∈ recent) by (by apply livePositions_elem).
    assert (Hid : icao24 p ∈ ids).
    { subst ids. rewrite merge_sort_Permutation, elem_of_remove_dups.
      apply list_elem_of_fmap. by exists p. }
    assert (Hrows : p ∈ merge_sort timestamp_desc (rowsOf (icao24 p) recent)).
    { rewrite merge_sort_Permutation. by apply rowsOf_elem. }
    destruct (merge_sort timestamp_desc (rowsOf (icao24 p) recent))
      as [|p' rest] eqn:Hsorted; [inversion Hrows |].
    assert (Hp' : pick (icao24 p) = Some (p', a)).
    { unfold pick. by rewrite Hsorted, Ha. }
    exists p', a. split.
    + apply list_elem_of_omap. by exists (icao24 p).
    + by destruct (Hpick _ _ _ Hp') as (_ & -> & _).
Qed.

(** X24. When [getLiveAircraft] returns, it lists one entry per
    identifier; every entry is a newest stored position of its
    identifier, taken within the last five minutes and joined with the
    aircraft record: its ten position columns are those of that
    position, its origin, sighting count, first and last sighting
    those of the record, and its military flag is [isMilitary] of the
    identifier; an aircraft appears as soon as it has a record and a
    position of the last five minutes; and the store is left as it
    was. *)
Theorem getLiveAircraft_newest_position_each (codes : gset string)
    (w w' : World) (result : list LiveAircraft)
    (Hrun : getLiveAircraft codes w = (Normal result, w')) :
  NoDup (live_icao24 <$> result)
  ∧ (∀ l, l ∈ result →
       ∃ p a,
         p ∈ positions w
         ∧ now w - FIVE_MINUTES_MS < timestamp p
         ∧ aircraft w !! icao24 p = Some a
         ∧ (∀ q, q ∈ positions w → icao24 q = icao24 p →
                 timestamp q ≤ timestamp p)
         ∧ live_icao24 l = icao24 p
         ∧ live_callsign l = p_callsign p
         ∧ live_origin_country l = origin_country a
         ∧ live_latitude l = latitude p
         ∧ live_longitude l = longitude p
         ∧ live_altitude l = altitude p
         ∧ live_velocity l = velocity p
         ∧ live_heading l = heading p
         ∧ live_vertical_rate l = vertical_rate p
         ∧ live_on_ground l = on_ground p
         ∧ live_timestamp l = timestamp p
         ∧ live_total_sightings l = total_sightings a
         ∧ live_first_seen l = first_seen a
         ∧ live_last_seen l = last_seen a
         ∧ is_military l = Classifier.isMilitary codes (Some (icao24 p)))
  ∧ (∀ p, p ∈ positions w → now w - FIVE_MINUTES_MS < timestamp p →
       is_Some (aircraft w !! icao24 p) →
       ∃ l, l ∈ result ∧ live_icao24 l = icao24 p)
  ∧ sameTables w w'.
Proof.
  unfold getLiveAircraft, mbind, M_bind in Hrun.
  destruct (query_cases selectLive w) as [(w0 & Hw0 & Heq)|(w0 & Hw0 & Heq)];
    [rewrite Heq in Hrun; discriminate |].
  assert (Hrows : fst (selectLive w0) = fst (selectLive w)
                  ∧ snd (selectLive w0) = w0).
  { destruct Hw0 as (Ha & Hp & _ & Hn).
    unfold selectLive, livePositions. cbn [fst snd]. by rewrite Ha, Hp, Hn. }
  destruct Hrows as [Hfst Hsnd]. rewrite Hfst, Hsnd in Heq.
  destruct (selectLive_rows w) as (Hnd & Hsound & Hcomplete).
  cbn zeta in Hnd, Hsound, Hcomplete.
  set (rows := fst (selectLive w)) in *. clearbody rows.
  rewrite Heq in Hrun. unfold mret, M_ret in Hrun. cbv beta in Hrun.
  injection Hrun as <- <-.
  split.
  { rewrite <- list_fmap_compose.
    erewrite list_fmap_ext; [exact Hnd |]. by intros i [p a] _. }
  split.
  - intros l Hl. apply list_elem_of_fmap in Hl as ([p a] & -> & Hin).
    destruct (Hsound p a Hin) as (H1 & H2 & H3 & H4).
    exists p, a. cbn. repeat split; done.
  - split; [| done].
    intros p Hin Hnew Hrec.
    destruct (Hcomplete p Hin Hnew Hrec) as (p' & a & Hpa & Hid).
    eexists. split.
    + apply list_elem_of_fmap. exists (p', a). split; [reflexivity | done].
    + done.
Qed.

Lemma getLiveAircraft_newest_position_each_witness :
  ∃ l, getLiveAircraft ∅ flownWorld = (Normal [l], flownWorld)
       ∧ live_icao24 l = "14abcd"%string
       ∧ live_total_sightings l = 7
       ∧ NoDup (live_icao24 <$> [l]).
Proof.
  eexists. split; [vm_compute; reflexivity |].
  split; [reflexivity |]. split; [reflexivity |].
  match goal with
  | |- NoDup (live_icao24 <$> [?l]) =>
      destruct (getLiveAircraft_newest_position_each ∅ flownWorld flownWorld [l])
        as (Hnd & _); [vm_compute; reflexivity | exact Hnd]
  end.
Defined.

End LiveExtras.

(** ** Route handlers *)

Section RouteExtras.
Import Store Routes Words Samples.
Local Open Scope Z_scope.

(** X25. [DELETE /tracks] never answers 404.  When it answers 200 both
    tables are empty and the two counts are the numbers of positions
    and of aircraft there were.  When it answers 500 the aircraft
    records are all there, and the positions are either untouched (the
    first delete threw) or all gone (the second one threw: the first
    delete is not undone).  The daily aggregates are never touched. *)
Theorem deleteTracks_clears_both_tables (w : World) :
  match deleteTracks w with
  | (Ok deleted, w') =>
      positions w' = [] ∧ aircraft w' = ∅
      ∧ deleted_positions deleted = length (positions w)
      ∧ deleted_aircraft deleted = size (aircraft w)
      ∧ daily_stats w' = daily_stats w
  | (NotFound, _) => False
  | (ServerError, w') =>
      aircraft w' = aircraft w
      ∧ daily_stats w' = daily_stats w
      ∧ (positions w' = positions w ∧ head (pending w) = Some true
         ∨ positions w' = [] ∧ head (pending w) = Some false)
  end.
Proof.
  unfold deleteTracks, mbind, M_bind.
  unfold query at 1.
  destruct (pending w) as [|[] rest] eqn:Hp.
  - cbn [deleteAllPositions]. unfold query. cbn [pending set_positions].
    rewrite Hp. cbn. done.
  - cbn. split; [done |]. split; [done |]. by left.
  - cbn [deleteAllPositions set_pending set_positions positions aircraft
         daily_stats now pending].
    unfold query. cbn [pending].
    destruct rest as [|[] rest'].
    + cbn. done.
    + cbn. split; [done |]. split; [done |]. by right.
    + cbn. done.
Qed.

Lemma isMilitary_lowered (codes : gset string) (id : string) :
  Classifier.isMilitary codes (Some (JS.toLowerCase id))
  = Classifier.isMilitary codes (Some id).
Proof.
  unfold Classifier.isMilitary. cbn. by rewrite toLowerCase_idempotent.
Qed.

(** X26. [GET /:icao24] looks the aircraft up under the lower-cased
    identifier: it answers 404 exactly when there is no record under
    it, 200 with the columns of the record and the military flag when
    there is one, and 500 only when the database call throws; the
    store is left as it was. *)
Theorem getAircraft_found_when_recorded (codes : gset string)
    (icao24 : string) (w : World) :
  match getAircraft codes icao24 w with
  | (Ok body, w') =>
      (∃ a, aircraft w !! JS.toLowerCase icao24 = Some a
            ∧ json_callsign body = callsign a
            ∧ json_origin_country body = origin_country a
            ∧ json_registration body = registration a
            ∧ json_aircraft_type body = aircraft_type a
            ∧ json_first_seen body = first_seen a
            ∧ json_last_seen body = last_seen a
            ∧ json_total_sightings body = total_sightings a)
      ∧ json_icao24 body = JS.toLowerCase icao24
      ∧ json_is_military body = Classifier.isMilitary codes (Some icao24)
      ∧ sameTables w w'
  | (NotFound, w') =>
      aircraft w !! JS.toLowerCase icao24 = None
      ∧ head (pending w) ≠ Some true
      ∧ sameTables w w'
  | (ServerError, w') =>
      head (pending w) = Some true ∧ sameTables w w'
  end.
Proof.
  unfold getAircraft, query, selectAircraft.
  destruct (pending w) as [|[] rest] eqn:Hp;
    cbn [aircraft set_pending pending head];
    try (split; [done | apply sameTables_set_pending]);
    destruct (aircraft w !! JS.toLowerCase icao24) as [a|] eqn:Ha;
    cbn [fmap option_fmap option_map option_list];
    cbn [json_callsign json_origin_country json_registration json_aircraft_type
         json_first_seen json_last_seen json_total_sightings json_icao24
         json_is_military].
  - split; [by exists a |]. split; [done |].
    split; [apply isMilitary_lowered | apply sameTables_refl].
  - split; [done |]. split; [done | apply sameTables_refl].
  - split; [by exists a |]. split; [done |].
    split; [apply isMilitary_lowered | apply sameTables_set_pending].
  - split; [done |]. split; [done | apply sameTables_set_pending].
Qed.

(** X27. An upsert is seen by the lookup route in any casing: right
    after the upsert of an identifier, and with no failure pending,
    [GET /:icao24] with any spelling of that identifier answers 200
    with the record just written: last seen now and one sighting more
    than before (one for a new aircraft). *)
Theorem getAircraft_after_upsert (codes : gset string)
    (id asked : string) (cs ty : option string) (w : World)
    (Hspelling : JS.toLowerCase asked = id)
    (Hquiet : pending w = []) :
  ∃ body,
    fst (getAircraft codes asked (snd (upsertAircraft id cs ty w))) = Ok body
    ∧ json_icao24 body = id
    ∧ json_last_seen body = now w
    ∧ json_total_sightings body
      = from_option (fun a => total_sightings a + 1) 1 (aircraft w !! id)
    ∧ json_first_seen body = from_option first_seen (now w) (aircraft w !! id).
Proof.
  unfold getAircraft, query, upsertAircraft.
  cbn [snd set_aircraft pending]. rewrite Hquiet.
  unfold selectAircraft. cbn [aircraft]. rewrite Hspelling.
  unfold set_aircraft. cbn [aircraft]. rewrite lookup_insert_eq. cbn [fmap option_fmap option_map option_list fst].
  eexists. split; [reflexivity |].
  destruct (aircraft w !! id) as [old|]; by cbn.
Qed.

Lemma getAircraft_after_upsert_witness :
  ∃ body,
    fst (getAircraft ∅ "14ABCD"
           (snd (upsertAircraft "14abcd" None None knownWorld))) = Ok body
    ∧ json_total_sightings body = 8
    ∧ json_first_seen body = 1000.
Proof.
  destruct (getAircraft_after_upsert ∅ "14abcd" "14ABCD" None None knownWorld)
    as (body & Hbody & _ & _ & Htotal & Hfirst); [reflexivity | reflexivity |].
  exists body. split; [exact Hbody |].
  split; [rewrite Htotal | rewrite Hfirst]; vm_compute; reflexivity.
Defined.

End RouteExtras.
